(** * API-Automation: the schema validator and the HTTP client façade

    A shallow embedding of [src/schemas/response-schemas.ts],
    [src/utils/api-client.ts] and [src/utils/assertions.ts], and the
    properties of the repository's specification checked against it;
    then the assertions on fields and the Slack reporter, with further
    properties of the code.

    Conventions of the embedding.
    - A JavaScript value that can reach the validator is a [value]; an
      object is the list of its own enumerable entries in the order
      [Object.entries] yields them, an array the list of its elements.
    - What an object has beyond its own entries (the members found along its
      prototype chain) is the parameter [inherited] of the validator, so
      that [in] and member reads are the language's, whatever the engine
      puts there.
    - A JavaScript number is a double: a dyadic rational [m * 2^e], a NaN or
      an infinity.  In the validator and the client nothing rounds, so no
      floating-point arithmetic is involved there; the pass rate of the
      reporter is computed with the binary64 operations of [SpecFloat].
    - A call that can throw returns a [completion].
    - The validator is embedded twice: on schema trees, as a function, and
      on a store of objects, where a schema is a reference and the arrays
      of messages are allocated and written.  The second is proved to
      compute the first and to leave the schemas as they were.
    - The transport ([this.request.fetch]), [JSON.stringify] and the part of
      [String] that needs the engine are parameters of the client. *)

From Stdlib Require Import ZArith List String Ascii Bool Lia.
From Stdlib Require Import DecimalString.
From Stdlib Require SpecFloat.
Import ListNotations.

Local Open Scope string_scope.
Local Open Scope Z_scope.
Local Open Scope list_scope.

Infix "+++" := String.append (right associativity, at level 60).

(** ** Completions: normal return or a thrown exception

    The message of an exception says which operation threw; it is not the
    text an engine would print. *)

Inductive exn : Type :=
| TypeError (message : string)
| AssertionError (message : string)
| TransportError (cause : string).

Inductive completion (A : Type) : Type :=
| Normal (a : A)
| Throw (e : exn).

Arguments Normal {A} a.
Arguments Throw {A} e.

Definition bind {A B : Type} (c : completion A) (k : A -> completion B)
  : completion B :=
  match c with
  | Normal a => k a
  | Throw e => Throw e
  end.

Notation "x <- c ;; k" := (bind c (fun x => k))
  (at level 61, c at next level, right associativity).
Notation "c ;;; k" := (bind c (fun _ => k))
  (at level 61, right associativity).

(** [for (const x of xs) body], the loop state passed along; a throw in the
    body leaves the loop. *)
Fixpoint for_of {A S : Type} (xs : list A) (s : S)
  (body : S -> A -> completion S) : completion S :=
  match xs with
  | [] => Normal s
  | x :: xs' => s' <- body s x ;; for_of xs' s' body
  end.

(** [Array.prototype.push] on the array held in a local variable. *)
Definition push {A : Type} (arr : list A) (items : list A) : list A :=
  arr ++ items.

(** ** JavaScript values *)

Inductive number : Type :=
| Finite (m e : Z)            (* the double m * 2^e *)
| NaN
| Infinity (negative : bool).

#[warnings="-register-all"]
Inductive value : Type :=
| JUndefined
| JNull
| JBool (b : bool)
| JNumber (n : number)
| JString (s : string)
| JArray (elements : list value)
| JObject (entries : list (string * value))
| JFunction.

(** An integer literal as a JavaScript number. *)
Definition JInt (z : Z) : value := JNumber (Finite z 0).

(** [typeof v] *)
Definition typeof (v : value) : string :=
  match v with
  | JUndefined => "undefined"
  | JNull => "object"
  | JBool _ => "boolean"
  | JNumber _ => "number"
  | JString _ => "string"
  | JArray _ => "object"
  | JObject _ => "object"
  | JFunction => "function"
  end.

(** [Array.isArray(v)] *)
Definition Array_isArray (v : value) : bool :=
  match v with
  | JArray _ => true
  | _ => false
  end.

(** Whether the double [m * 2^e] is a whole number. *)
Definition number_isIntegral (n : number) : bool :=
  match n with
  | Finite m e => if 0 <=? e then true else (m mod 2 ^ (- e) =? 0)
  | NaN => false
  | Infinity _ => false
  end.

(** [Number.isInteger(v)]: false for every non-number. *)
Definition Number_isInteger (v : value) : bool :=
  match v with
  | JNumber n => number_isIntegral n
  | _ => false
  end.

(** The mathematical value of a whole-number double. *)
Definition number_toZ (n : number) : Z :=
  match n with
  | Finite m e => if 0 <=? e then m * 2 ^ e else m / 2 ^ (- e)
  | _ => 0
  end.

(** Lookup of a key in a list of entries, first entry first. *)
Fixpoint lookup {A : Type} (k : string) (entries : list (string * A))
  : option A :=
  match entries with
  | [] => None
  | (k', a) :: rest => if String.eqb k k' then Some a else lookup k rest
  end.

Definition has_key {A : Type} (k : string) (entries : list (string * A))
  : bool :=
  match lookup k entries with
  | Some _ => true
  | None => false
  end.

(** The decimal numeral of a natural number, as an array index is written. *)
Definition index_key (i : nat) : string :=
  NilZero.string_of_uint (Nat.to_uint i).

Fixpoint indexed_from (i : nat) (xs : list value) : list (string * value) :=
  match xs with
  | [] => []
  | x :: xs' => (index_key i, x) :: indexed_from (S i) xs'
  end.

(** The members a value holds as data: the entries of an object, the
    indexed elements and the length of an array. *)
Definition own_properties (v : value) : list (string * value) :=
  match v with
  | JObject entries => entries
  | JArray xs =>
      indexed_from 0 xs ++ [("length", JInt (Z.of_nat (List.length xs)))]
  | _ => []
  end.

Section Members.

(** The members a value has beyond its data: for a plain object what
    [Object.prototype] supplies, for an array what [Array.prototype] and
    [Object.prototype] supply, and so on. *)
Variable inherited : value -> list (string * value).

Definition members (v : value) : list (string * value) :=
  own_properties v ++ inherited v.

(** [k in v]: a TypeError unless the right operand is an object. *)
Definition js_in (k : string) (v : value) : completion bool :=
  match v with
  | JObject _ | JArray _ | JFunction => Normal (has_key k (members v))
  | JNull => Throw (TypeError ("'" +++ k +++ "' in null"))
  | _ => Throw (TypeError ("'" +++ k +++ "' in " +++ typeof v))
  end.

(** [v[k]]: a TypeError on null and undefined, [undefined] for a member
    that is not there. *)
Definition js_get (v : value) (k : string) : completion value :=
  match v with
  | JUndefined | JNull => Throw (TypeError ("read of '" +++ k +++ "'"))
  | _ =>
      match lookup k (members v) with
      | Some x => Normal x
      | None => Normal JUndefined
      end
  end.

End Members.

(** ** Schemas ([src/schemas/response-schemas.ts])

    A schema literal of the source: its [type] tag and the optional members
    [properties], [required], [items], [format] and [enum]. *)

#[warnings="-register-all"]
Inductive schema : Type :=
  Schema {
    type : string;
    properties : option (list (string * schema));
    required : option (list string);
    items : option schema;
    format : option string;
    enum : option (list value)
  }.

(** [{ type: t }] *)
Definition of_type (t : string) : schema :=
  Schema t None None None None None.

(** [{ type: 'object', properties: { ... } }] *)
Definition object_of (props : list (string * schema)) : schema :=
  Schema "object" (Some props) None None None None.

Definition ImageSchema : schema :=
  Schema "object"
    (Some
      [ ("id", of_type "string");
        ("url", Schema "string" None None None (Some "uri") None);
        ("width", of_type "integer");
        ("height", of_type "integer");
        ("breeds",
          Schema "array" None None
            (Some (object_of
              [ ("id", of_type "string");
                ("name", of_type "string");
                ("temperament", of_type "string");
                ("origin", of_type "string");
                ("country_codes", of_type "string");
                ("life_span", of_type "string");
                ("weight",
                  object_of [ ("imperial", of_type "string");
                              ("metric", of_type "string") ]) ]))
            None None);
        ("favourite",
          object_of [ ("id", of_type "integer");
                      ("user_id", of_type "string");
                      ("image_id", of_type "string");
                      ("created_at", of_type "string") ]);
        ("vote",
          object_of [ ("id", of_type "integer");
                      ("user_id", of_type "string");
                      ("image_id", of_type "string");
                      ("created_at", of_type "string");
                      ("value",
                        Schema "integer" None None None None
                          (Some [JInt 0; JInt 1])) ]) ])
    (Some ["id"; "url"; "width"; "height"])
    None None None.

Definition BreedSchema : schema :=
  Schema "object"
    (Some
      [ ("id", of_type "string");
        ("name", of_type "string");
        ("temperament", of_type "string");
        ("origin", of_type "string");
        ("country_codes", of_type "string");
        ("country_code", of_type "string");
        ("life_span", of_type "string");
        ("wikipedia_url", Schema "string" None None None (Some "uri") None);
        ("weight",
          object_of [ ("imperial", of_type "string");
                      ("metric", of_type "string") ]) ])
    (Some ["id"; "name"])
    None None None.

Definition CategorySchema : schema :=
  Schema "object"
    (Some [ ("id", of_type "integer"); ("name", of_type "string") ])
    (Some ["id"; "name"])
    None None None.

Definition FavoriteResponseSchema : schema :=
  Schema "object"
    (Some
      [ ("id", of_type "integer");
        ("user_id", of_type "string");
        ("image_id", of_type "string");
        ("sub_id", of_type "string");
        ("created_at", of_type "string") ])
    (Some ["id"; "user_id"; "image_id"])
    None None None.

Definition VoteResponseSchema : schema :=
  Schema "object"
    (Some
      [ ("id", of_type "integer");
        ("user_id", of_type "string");
        ("image_id", of_type "string");
        ("sub_id", of_type "string");
        ("created_at", of_type "string");
        ("value",
          Schema "integer" None None None None (Some [JInt 0; JInt 1])) ])
    (Some ["id"; "user_id"; "image_id"; "value"])
    None None None.

(** ** The validator *)

Record ValidationResult : Type :=
  { valid : bool; errors : list string }.

(** [validateProperty(value, schema)] *)
Definition validateProperty (value : value) (schema : schema) : list string :=
  let errors : list string := [] in
  if (type schema =? "string")%string && negb (typeof value =? "string")%string
  then push errors ["Expected string but got " +++ typeof value]
  else if (type schema =? "integer")%string && negb (Number_isInteger value)
  then push errors ["Expected integer but got " +++ typeof value]
  else if (type schema =? "number")%string
          && negb (typeof value =? "number")%string
  then push errors ["Expected number but got " +++ typeof value]
  else if (type schema =? "array")%string && negb (Array_isArray value)
  then push errors ["Expected array but got " +++ typeof value]
  else errors.

Section Validator.

Variable inherited : value -> list (string * value).

(** The loop over [schema.required]. *)
Definition check_required (response : value) (required : list string)
  (errors : list string) : completion (list string) :=
  for_of required errors (fun errors field =>
    present <- js_in inherited field response ;;
    if negb present
    then Normal (push errors ["Missing required field: " +++ field])
    else Normal errors).

(** The loop over [Object.entries(schema.properties)]. *)
Definition check_properties (response : value)
  (entries : list (string * schema)) (errors : list string)
  : completion (list string) :=
  for_of entries errors (fun errors entry =>
    let '(key, propSchema) := entry in
    present <- js_in inherited key response ;;
    if present
    then
      v <- js_get inherited response key ;;
      let propErrors := validateProperty v propSchema in
      Normal (push errors propErrors)
    else Normal errors).

(** [validateAgainstSchema(response, schema)] *)
Definition validateAgainstSchema (response : value) (schema : schema)
  : completion ValidationResult :=
  let errors : list string := [] in
  if (type schema =? "object")%string then
    if negb (typeof response =? "object")%string || Array_isArray response
    then
      let errors :=
        push errors ["Expected object but got " +++ typeof response] in
      Normal {| valid := false; errors := errors |}
    else
      errors <- match required schema with
                | Some req => check_required response req errors
                | None => Normal errors
                end ;;
      errors <- match properties schema with
                | Some props => check_properties response props errors
                | None => Normal errors
                end ;;
      Normal {| valid := (List.length errors =? 0)%nat; errors := errors |}
  else
    Normal {| valid := (List.length errors =? 0)%nat; errors := errors |}.

End Validator.

(** ** Presence and members of an object value, as total functions *)

Section Presence.

Variable inherited : value -> list (string * value).

(** The name is a member of the value: what [name in v] gives on an
    object. *)
Definition present (name : string) (v : value) : bool :=
  has_key name (members inherited v).

(** The member of that name, [undefined] when there is none: what
    [v[name]] gives on an object. *)
Definition member (name : string) (v : value) : value :=
  match lookup name (members inherited v) with
  | Some x => x
  | None => JUndefined
  end.

(** One message per required name that is not present, in the order of the
    required names. *)
Definition missing_required (v : value) (required : list string)
  : list string :=
  map (fun name => "Missing required field: " +++ name)
      (filter (fun name => negb (present name v)) required).

End Presence.

(** ** The validator as the specification words it (§4.2)

    A second definition, written from the specification's algorithm and not
    from the source, against which the source's validator is compared: it
    descends into the properties of an object and into the elements of an
    array.  The kind it reports for a value is that of the specification's
    design notes: an array is [array], never the generic object kind, and
    null is a kind of its own. *)

Definition spec_kind (v : value) : string :=
  match v with
  | JArray _ => "array"
  | JNull => "null"
  | _ => typeof v
  end.

(** Step 3: the value has the runtime kind a primitive tag names; for
    ['integer'] it is a whole number, not merely a number. *)
Definition has_kind (tag : string) (v : value) : bool :=
  if (tag =? "string")%string then (typeof v =? "string")%string
  else if (tag =? "integer")%string then Number_isInteger v
  else if (tag =? "number")%string then (typeof v =? "number")%string
  else if (tag =? "boolean")%string then (typeof v =? "boolean")%string
  else true.

Section SpecValidator.

Variable inherited : value -> list (string * value).

Fixpoint spec_validate (s : schema) (v : value) {struct s} : list string :=
  match s with
  | Schema tag props req elt _ _ =>
      if (tag =? "object")%string then
        match v with
        | JObject _ =>
            match req with
            | Some names => missing_required inherited v names
            | None => []
            end
            ++
            match props with
            | Some entries =>
                (fix each (entries : list (string * schema)) : list string :=
                   match entries with
                   | [] => []
                   | (name, child) :: rest =>
                       (if present inherited name v
                        then spec_validate child (member inherited name v)
                        else [])
                       ++ each rest
                   end) entries
            | None => []
            end
        | _ => ["Expected object but got " +++ spec_kind v]
        end
      else if (tag =? "array")%string then
        match v with
        | JArray elements =>
            match elt with
            | Some child => flat_map (spec_validate child) elements
            | None => []
            end
        | _ => ["Expected array but got " +++ spec_kind v]
        end
      else if has_kind tag v then []
      else ["Expected " +++ tag +++ " but got " +++ spec_kind v]
  end.

(** Step 1(b) for one property. *)
Definition spec_property_errors (v : value) (entry : string * schema)
  : list string :=
  if present inherited (fst entry) v
  then spec_validate (snd entry) (member inherited (fst entry) v)
  else [].


End SpecValidator.

(** What a plain object inherits from [Object.prototype].  The closed
    examples below run the validator with these; they apply [in] and member
    reads to plain objects only.  [__proto__] reads as the prototype
    itself, an object without entries of its own. *)
Definition Object_prototype : list (string * value) :=
  [ ("constructor", JFunction);
    ("__defineGetter__", JFunction);
    ("__defineSetter__", JFunction);
    ("hasOwnProperty", JFunction);
    ("__lookupGetter__", JFunction);
    ("__lookupSetter__", JFunction);
    ("isPrototypeOf", JFunction);
    ("propertyIsEnumerable", JFunction);
    ("toString", JFunction);
    ("valueOf", JFunction);
    ("__proto__", JObject []);
    ("toLocaleString", JFunction) ].

Definition plain_inherited (v : value) : list (string * value) :=
  match v with
  | JObject _ => Object_prototype
  | _ => []
  end.

(** ** The validator over a store of objects

    The schema the caller passes is an object shared between calls, and the
    validator works on it by reference.  Here the objects live in a store: a
    schema object is a cell whose child schemas are references into the
    store, and an array of messages is a cell as well.  The validator is a
    computation that takes the store and gives it back: [const errors = []]
    allocates a cell, [errors.push] writes one, and every access to a schema
    ([schema.type], [schema.required], [schema.properties]) is a [read]. *)

Module Heap.

Definition ref : Type := nat.

Record node : Type :=
  { type : string;
    properties : option (list (string * ref));
    required : option (list string);
    items : option ref;
    format : option string;
    enum : option (list value) }.

Inductive cell : Type :=
| Schema_cell (n : node)
| Array_cell (elements : list string).

Definition store : Type := list cell.

(** A computation over the store that may throw. *)
Definition M (A : Type) : Type := store -> completion A * store.

Definition ret {A : Type} (a : A) : M A := fun st => (Normal a, st).

Definition lift {A : Type} (c : completion A) : M A := fun st => (c, st).

Definition bindM {A B : Type} (m : M A) (k : A -> M B) : M B :=
  fun st =>
    match m st with
    | (Normal a, st') => k a st'
    | (Throw e, st') => (Throw e, st')
    end.

(** [schema.member]: the member of the schema object a reference points
    to.  A reference that holds no schema object is outside what the model
    describes; the read throws. *)
Definition read {A : Type} (schema : ref) (member : node -> A) : M A :=
  fun st =>
    match nth_error st schema with
    | Some (Schema_cell n) => (Normal (member n), st)
    | _ => (Throw (TypeError "read of a member of no schema"), st)
    end.

(** The store with the cell at [l] replaced. *)
Fixpoint update (l : ref) (c : cell) (st : store) : store :=
  match st, l with
  | [], _ => []
  | _ :: st', O => c :: st'
  | c0 :: st', S l' => c0 :: update l' c st'
  end.

(** [[]]: a new empty array, at the first free reference. *)
Definition new_array : M ref :=
  fun st => (Normal (List.length st), st ++ [Array_cell []]).

(** [arr.push(...items)] *)
Definition array_push (arr : ref) (items : list string) : M unit :=
  fun st =>
    match nth_error st arr with
    | Some (Array_cell elements) =>
        (Normal tt, update arr (Array_cell (elements ++ items)) st)
    | _ => (Throw (TypeError "push on no array"), st)
    end.

(** The elements of an array, as [...arr] and [arr.length] read them. *)
Definition array_read (arr : ref) : M (list string) :=
  fun st =>
    match nth_error st arr with
    | Some (Array_cell elements) => (Normal elements, st)
    | _ => (Throw (TypeError "read of no array"), st)
    end.

(** The completion of a computation on the store whose value-level
    counterpart completes as [c]: the same throw, or [b]. *)
Definition outcome {A B : Type} (c : completion A) (b : B) : completion B :=
  match c with
  | Normal _ => Normal b
  | Throw e => Throw e
  end.

(** [for (const x of xs) body] *)
Fixpoint for_ofM {A : Type} (xs : list A) (body : A -> M unit) : M unit :=
  match xs with
  | [] => ret tt
  | x :: xs' => bindM (body x) (fun _ => for_ofM xs' body)
  end.

End Heap.

Notation "x <~ c ;; k" := (Heap.bindM c (fun x => k))
  (at level 61, c at next level, right associativity).
Notation "c ;;~ k" := (Heap.bindM c (fun _ => k))
  (at level 61, right associativity).

Module HeapValidator.
Import Heap.

(** The result object: [errors] is the array the call allocated. *)
Record ValidationResult : Type :=
  { valid : bool; errors : ref }.

(** [validateProperty(value, schema)], on references. *)
Definition validateProperty (value : value) (schema : ref) : M ref :=
  errors <~ new_array ;;
  t <~ read schema type ;;
  if (t =? "string")%string && negb (typeof value =? "string")%string
  then
    array_push errors ["Expected string but got " +++ typeof value] ;;~
    ret errors
  else
    t <~ read schema type ;;
    if (t =? "integer")%string && negb (Number_isInteger value)
    then
      array_push errors ["Expected integer but got " +++ typeof value] ;;~
      ret errors
    else
      t <~ read schema type ;;
      if (t =? "number")%string && negb (typeof value =? "number")%string
      then
        array_push errors ["Expected number but got " +++ typeof value] ;;~
        ret errors
      else
        t <~ read schema type ;;
        if (t =? "array")%string && negb (Array_isArray value)
        then
          array_push errors ["Expected array but got " +++ typeof value] ;;~
          ret errors
        else ret errors.

Section WithMembers.

Variable inherited : value -> list (string * value).

(** The loop over [schema.required]. *)
Definition check_required (response : value) (names : list string)
  (errors : ref) : M unit :=
  for_ofM names (fun field =>
    present <~ lift (js_in inherited field response) ;;
    if negb present
    then array_push errors ["Missing required field: " +++ field]
    else ret tt).

(** The loop over [Object.entries(schema.properties)]. *)
Definition check_properties (response : value)
  (entries : list (string * ref)) (errors : ref) : M unit :=
  for_ofM entries (fun entry =>
    let '(key, propSchema) := entry in
    present <~ lift (js_in inherited key response) ;;
    if present
    then
      v <~ lift (js_get inherited response key) ;;
      propErrors <~ validateProperty v propSchema ;;
      items <~ array_read propErrors ;;
      array_push errors items
    else ret tt).

(** [validateAgainstSchema(response, schema)], on references. *)
Definition validateAgainstSchema (response : value) (schema : ref)
  : M ValidationResult :=
  errors <~ new_array ;;
  t <~ read schema type ;;
  if (t =? "object")%string then
    if negb (typeof response =? "object")%string || Array_isArray response
    then
      array_push errors ["Expected object but got " +++ typeof response] ;;~
      ret {| valid := false; errors := errors |}
    else
      req <~ read schema required ;;
      match req with
      | Some _ =>
          names <~ read schema required ;;
          match names with
          | Some names => check_required response names errors
          | None => lift (Throw (TypeError "iteration of undefined"))
          end
      | None => ret tt
      end ;;~
      props <~ read schema properties ;;
      match props with
      | Some _ =>
          props <~ read schema properties ;;
          match props with
          | Some entries => check_properties response entries errors
          | None => lift (Throw (TypeError "Object.entries of undefined"))
          end
      | None => ret tt
      end ;;~
      elements <~ array_read errors ;;
      ret {| valid := (List.length elements =? 0)%nat; errors := errors |}
  else
    elements <~ array_read errors ;;
    ret {| valid := (List.length elements =? 0)%nat; errors := errors |}.

End WithMembers.

(** The store holds the schema tree [s] at the reference [r]. *)
Fixpoint represents (st : store) (s : schema) (r : ref) {struct s} : Prop :=
  match s with
  | Schema t props req elt fmt en =>
      match nth_error st r with
      | Some (Schema_cell n) =>
          type n = t /\ required n = req /\
          format n = fmt /\ enum n = en /\
          match props, properties n with
          | None, None => True
          | Some entries, Some refs =>
              (fix each (entries : list (string * schema))
                        (refs : list (string * ref)) : Prop :=
                 match entries, refs with
                 | [], [] => True
                 | (k, child) :: entries', (k', r') :: refs' =>
                     k = k' /\ represents st child r' /\
                     each entries' refs'
                 | _, _ => False
                 end) entries refs
          | _, _ => False
          end /\
          match elt, items n with
          | None, None => True
          | Some child, Some r' => represents st child r'
          | _, _ => False
          end
      | _ => False
      end
  end.

(** The references of the declared properties hold the child schemas,
    name by name. *)
Definition entries_represented (st : store)
  : list (string * schema) -> list (string * ref) -> Prop :=
  fix each (entries : list (string * schema))
           (refs : list (string * ref)) : Prop :=
    match entries, refs with
    | [], [] => True
    | (k, child) :: entries', (k', r') :: refs' =>
        k = k' /\ represents st child r' /\ each entries' refs'
    | _, _ => False
    end.

(** A computation that, run on a store of at least [base] cells, leaves
    the first [base] cells as they were, does not shrink the store, and
    returns a value that satisfies [post]. *)
Definition framed {A : Type} (base : nat) (m : M A) (post : A -> Prop)
  : Prop :=
  forall st,
    (base <= List.length st)%nat ->
    firstn base (snd (m st)) = firstn base st /\
    (base <= List.length (snd (m st)))%nat /\
    match fst (m st) with
    | Normal a => post a
    | Throw _ => True
    end.

(** [CategorySchema] laid out in a store, the schema itself at 0. *)
Definition category_store : store :=
  [ Schema_cell
      {| type := "object";
         properties := Some [("id", 1%nat); ("name", 2%nat)];
         required := Some ["id"; "name"];
         items := None; format := None; enum := None |};
    Schema_cell
      {| type := "integer"; properties := None; required := None;
         items := None; format := None; enum := None |};
    Schema_cell
      {| type := "string"; properties := None; required := None;
         items := None; format := None; enum := None |} ].

End HeapValidator.

(** ** Configuration ([src/config/api.config.ts]) *)

(** [a || b] on an optional string: the first unless it is undefined or
    empty. *)
Definition or_else (a : option string) (b : string) : string :=
  match a with
  | Some (String c s) => String c s
  | _ => b
  end.

(** A string in a condition: false when undefined or empty. *)
Definition truthy (s : option string) : bool :=
  match s with
  | Some (String _ _) => true
  | _ => false
  end.

Module API_CONFIG.
Definition baseURL : string := "https://api.thecatapi.com/v1".
(** [process.env.CAT_API_KEY || 'DEMO-API-KEY'] *)
Definition apiKey (CAT_API_KEY : option string) : string :=
  or_else CAT_API_KEY "DEMO-API-KEY".
Definition timeout : Z := 30000.
Definition headers : list (string * string) :=
  [ ("Content-Type", "application/json"); ("Accept", "application/json") ].
End API_CONFIG.

Module ENDPOINTS.
Definition IMAGES_SEARCH : string := "/images/search".
Definition CATEGORIES_LIST : string := "/categories".
End ENDPOINTS.

(** ** Query strings: [URLSearchParams]

    The parameters are the list of appended pairs; [toString] is the
    application/x-www-form-urlencoded serializer.  A string of the embedding
    is the UTF-8 text, so the serializer works byte by byte. *)

Definition URLSearchParams : Type := list (string * string).

Definition append (q : URLSearchParams) (name value : string)
  : URLSearchParams :=
  q ++ [(name, value)].

Definition hex_digit (n : nat) : ascii :=
  match n with
  | 0 => "0" | 1 => "1" | 2 => "2" | 3 => "3" | 4 => "4" | 5 => "5"
  | 6 => "6" | 7 => "7" | 8 => "8" | 9 => "9" | 10 => "A" | 11 => "B"
  | 12 => "C" | 13 => "D" | 14 => "E" | _ => "F"
  end%nat%char.

(** Bytes the serializer leaves as they are: ASCII letters and digits and
    the four marks [*], [-], [.] and [_]. *)
Definition urlencoded_plain (c : ascii) : bool :=
  let n := nat_of_ascii c in
  ((48 <=? n) && (n <=? 57) || (65 <=? n) && (n <=? 90)
   || (97 <=? n) && (n <=? 122)
   || (n =? 42) || (n =? 45) || (n =? 46) || (n =? 95))%nat.

Definition urlencoded_byte (c : ascii) : string :=
  let n := nat_of_ascii c in
  if (n =? 32)%nat then "+"
  else if urlencoded_plain c then String c EmptyString
  else
    String "%"
      (String (hex_digit (n / 16))
         (String (hex_digit (n mod 16)) EmptyString)).

Fixpoint urlencoded (s : string) : string :=
  match s with
  | EmptyString => EmptyString
  | String c rest => urlencoded_byte c +++ urlencoded rest
  end.

(** [URLSearchParams.prototype.toString] *)
Fixpoint URLSearchParams_toString (q : URLSearchParams) : string :=
  match q with
  | [] => EmptyString
  | [(k, v)] => urlencoded k +++ "=" +++ urlencoded v
  | (k, v) :: rest =>
      urlencoded k +++ "=" +++ urlencoded v +++ "&"
      +++ URLSearchParams_toString rest
  end.

(** Whether [sub] occurs in [s]. *)
Fixpoint contains (sub s : string) : bool :=
  String.prefix sub s
  || match s with
     | EmptyString => false
     | String _ rest => contains sub rest
     end.

(** ** [String(value)] *)

Definition MAX_SAFE_INTEGER : Z := 2 ^ 53 - 1.

(** [value === undefined || value === null] *)
Definition nullish (v : value) : bool :=
  match v with
  | JUndefined | JNull => true
  | _ => false
  end.

Section ToString.

(** What the language computes with machinery the embedding leaves to the
    engine: the shortest digits of a number that is not a safe integer,
    and the conversion of an object, which runs the object's own
    [toString] and [valueOf] and may throw. *)
Variable engine_String : value -> completion string.

Definition js_String (v : value) : completion string :=
  match v with
  | JUndefined => Normal "undefined"
  | JNull => Normal "null"
  | JBool true => Normal "true"
  | JBool false => Normal "false"
  | JString s => Normal s
  | JNumber NaN => Normal "NaN"
  | JNumber (Infinity false) => Normal "Infinity"
  | JNumber (Infinity true) => Normal "-Infinity"
  | JNumber (Finite m e) =>
      let n := Finite m e in
      if number_isIntegral n && (Z.abs (number_toZ n) <=? MAX_SAFE_INTEGER)
      then Normal (NilZero.string_of_int (Z.to_int (number_toZ n)))
      else engine_String v
  | JArray _ | JObject _ | JFunction => engine_String v
  end.

End ToString.

(** ** The client ([src/utils/api-client.ts]) *)

Inductive Method : Type := GET | POST | DELETE | PUT | PATCH.

Record RequestOptions : Type :=
  { method : Method;
    endpoint : string;
    headers : option (list (string * string));
    data : option (list (string * value));
    params : option (list (string * value));
    apiKey : option string }.

Record ApiResponse : Type :=
  { status : Z;
    statusText : string;
    response_headers : list (string * string);
    body : value;
    ok : bool }.

(** What the transport is asked: the second argument of
    [this.request.fetch]. *)
Record FetchOptions : Type :=
  { fetch_method : Method;
    fetch_headers : list (string * string);
    fetch_data : option string }.

(** What the transport answers: the methods of its response object, each
    by what it returns. *)
Record APIResponse : Type :=
  { APIResponse_status : Z;
    APIResponse_statusText : string;
    APIResponse_headers : list (string * string);
    APIResponse_ok : bool;
    APIResponse_json : completion value;
    APIResponse_text : completion string }.

Record APIClient : Type :=
  { baseURL : string;
    client_apiKey : string;
    defaultHeaders : list (string * string) }.

(** The number of a key that is an array index: a decimal numeral with no
    leading zero, at most [2^32 - 2]. *)
Definition array_index (k : string) : option N :=
  match NilZero.uint_of_string k with
  | Some u =>
      let n := N.of_uint u in
      if (NilZero.string_of_uint (N.to_uint n) =? k)%string
         && (n <? 4294967295)%N
      then Some n
      else None
  | None => None
  end.

(** An entry with the index [n] put among entries sorted by index, before
    those of the same index. *)
Fixpoint insert_index {A : Type} (n : N) (entry : string * A)
  (sorted : list (N * (string * A))) : list (N * (string * A)) :=
  match sorted with
  | [] => [(n, entry)]
  | (m, e) :: rest =>
      if (n <=? m)%N then (n, entry) :: sorted
      else (m, e) :: insert_index n entry rest
  end.

(** The entries whose key is an array index, sorted by index. *)
Fixpoint index_entries {A : Type} (created : list (string * A))
  : list (N * (string * A)) :=
  match created with
  | [] => []
  | entry :: rest =>
      match array_index (fst entry) with
      | Some n => insert_index n entry (index_entries rest)
      | None => index_entries rest
      end
  end.

(** The order in which an object yields its own properties
    ([Object.entries], [for...in], spread), given the order in which they
    were created: the array indices first, in ascending order, then the
    other keys in the order of their creation. *)
Definition entries_order {A : Type} (created : list (string * A))
  : list (string * A) :=
  map snd (index_entries created)
  ++ filter (fun entry =>
               match array_index (fst entry) with
               | Some _ => false
               | None => true
               end) created.

(** Entries tagged with the array index of their key, in ascending order. *)
Fixpoint index_sorted {A : Type} (sorted : list (N * (string * A))) : Prop :=
  match sorted with
  | [] => True
  | (n, entry) :: rest =>
      array_index (fst entry) = Some n /\
      match rest with
      | [] => True
      | (m, _) :: _ => (n <= m)%N
      end /\
      index_sorted rest
  end.

(** [{ ...a, ...b }]: the keys of [a] are created in their order, each with
    the value [b] gives it if any, then the keys only [b] has. *)
Definition spread {A : Type} (a b : list (string * A)) : list (string * A) :=
  entries_order
    (map (fun entry =>
            match lookup (fst entry) b with
            | Some v => (fst entry, v)
            | None => entry
            end) a
     ++ filter (fun entry => negb (has_key (fst entry) a)) b).

(** [new APIClient(request, apiKey)]; the request context is the [fetch]
    parameter of [makeRequest]. *)
Definition new_APIClient (CAT_API_KEY : option string) (apiKey : option string)
  : APIClient :=
  let key := or_else apiKey (API_CONFIG.apiKey CAT_API_KEY) in
  {| baseURL := API_CONFIG.baseURL;
     client_apiKey := key;
     defaultHeaders := spread API_CONFIG.headers [("x-api-key", key)] |}.

Section Client.

Variable engine_String : value -> completion string.
(** [JSON.stringify] of a request body; it throws on a [BigInt], on a
    cycle and when a [toJSON] throws, and it gives [undefined] when a
    [toJSON] does. *)
Variable JSON_stringify
  : list (string * value) -> completion (option string).
(** [this.request.fetch]: the transport; a network failure is a throw. *)
Variable fetch : string -> FetchOptions -> completion APIResponse.

(** The [URLSearchParams] that [buildUrl] fills.  The parameter object is
    given by its properties in the order of their creation;
    [Object.entries] yields them in [entries_order]. *)
Definition queryParams_of (params : option (list (string * value)))
  (apiKey : option string) : completion URLSearchParams :=
  let queryParams : URLSearchParams := [] in
  let queryParams :=
    match apiKey with
    | Some key => if truthy apiKey
                  then append queryParams "api_key" key
                  else queryParams
    | None => queryParams
    end in
  match params with
  | Some created =>
      for_of (entries_order created) queryParams (fun queryParams entry =>
        let '(key, value) := entry in
        if negb (nullish value)
        then
          text <- js_String engine_String value ;;
          Normal (append queryParams key text)
        else Normal queryParams)
  | None => Normal queryParams
  end.

(** [buildUrl(endpoint, params, apiKey)] *)
Definition buildUrl (this : APIClient) (endpoint : string)
  (params : option (list (string * value))) (apiKey : option string)
  : completion string :=
  let baseUrl := baseURL this +++ endpoint in
  queryParams <- queryParams_of params apiKey ;;
  let queryString := URLSearchParams_toString queryParams in
  if truthy (Some queryString)
  then Normal (baseUrl +++ "?" +++ queryString)
  else Normal baseUrl.

(** [parseResponseBody(response)] *)
Definition parseResponseBody (response : APIResponse) : completion value :=
  let contentType :=
    or_else (lookup "content-type" (APIResponse_headers response))
      EmptyString in
  if contains "application/json" contentType
  then
    match APIResponse_json response with
    | Normal v => Normal v
    | Throw _ => Normal (JObject [])
    end
  else
    text <- APIResponse_text response ;;
    Normal (JString text).

(** [data ? JSON.stringify(data) : undefined] *)
Definition request_data (data : option (list (string * value)))
  : completion (option string) :=
  match data with
  | Some d => JSON_stringify d
  | None => Normal None
  end.

(** [makeRequest(options)]; the catch clause throws what it caught.  The
    argument of [fetch] is built before the call, so a throw of
    [JSON.stringify] comes before the transport is asked.  What the method
    writes to the console is not part of the model. *)
Definition makeRequest (this : APIClient) (options : RequestOptions)
  : completion ApiResponse :=
  let headers := match headers options with
                 | Some h => h
                 | None => []
                 end in
  url <- buildUrl this (endpoint options) (params options) (apiKey options) ;;
  let requestHeaders := spread (defaultHeaders this) headers in
  data <- request_data (data options) ;;
  response <-
    fetch url
      {| fetch_method := method options;
         fetch_headers := requestHeaders;
         fetch_data := data |} ;;
  responseBody <- parseResponseBody response ;;
  let apiResponse :=
    {| status := APIResponse_status response;
       statusText := APIResponse_statusText response;
       response_headers := APIResponse_headers response;
       body := responseBody;
       ok := APIResponse_ok response |} in
  Normal apiResponse.

(** [get(endpoint, params, apiKey)] *)
Definition get (this : APIClient) (endpoint : string)
  (params : option (list (string * value))) (apiKey : option string)
  : completion ApiResponse :=
  makeRequest this
    {| method := GET; endpoint := endpoint; headers := None;
       data := None; params := params; apiKey := apiKey |}.

(** [post(endpoint, data, apiKey)] *)
Definition post (this : APIClient) (endpoint : string)
  (data : option (list (string * value))) (apiKey : option string)
  : completion ApiResponse :=
  makeRequest this
    {| method := POST; endpoint := endpoint; headers := None;
       data := data; params := None; apiKey := apiKey |}.

(** [delete(endpoint, data, apiKey)] *)
Definition delete (this : APIClient) (endpoint : string)
  (data : option (list (string * value))) (apiKey : option string)
  : completion ApiResponse :=
  makeRequest this
    {| method := DELETE; endpoint := endpoint; headers := None;
       data := data; params := None; apiKey := apiKey |}.

End Client.

(** ** Assertions ([src/utils/assertions.ts])

    [expect(x).toBe(y)] and its relatives throw when they fail. *)

Definition expect (holds : bool) (message : string) : completion unit :=
  if holds then Normal tt else Throw (AssertionError message).

Module ApiAssertions.

(** [assertStatusCode(response, expectedStatus)] *)
Definition assertStatusCode (response : ApiResponse) (expectedStatus : Z)
  : completion unit :=
  expect (status response =? expectedStatus) "toBe".

(** [assertSuccess(response)] *)
Definition assertSuccess (response : ApiResponse) : completion unit :=
  expect (Bool.eqb (ok response) true) "toBe" ;;;
  expect (status response >=? 200) "toBeGreaterThanOrEqual" ;;;
  expect (status response <? 300) "toBeLessThan".

(** [assertErrorResponse(response, expectedStatus)]; the optional status
    is compared only when it is given and not zero. *)
Definition assertErrorResponse (response : ApiResponse)
  (expectedStatus : option Z) : completion unit :=
  expect (Bool.eqb (ok response) false) "toBe" ;;;
  match expectedStatus with
  | Some expected =>
      if negb (expected =? 0)
      then expect (status response =? expected) "toBe"
      else Normal tt
  | None => Normal tt
  end.

End ApiAssertions.

(** The contract of the transport's [ok()]: the status is in 200..299. *)
Definition transport_ok_contract
  (fetch : string -> FetchOptions -> completion APIResponse) : Prop :=
  forall url options response,
    fetch url options = Normal response ->
    APIResponse_ok response
    = (200 <=? APIResponse_status response)
      && (APIResponse_status response <=? 299).

(** ** Closed forms used in the statements *)

(** What the loop over the declared properties appends for one entry: the
    errors of [validateProperty] on the member, when the name is present. *)
Definition property_errors (inherited : value -> list (string * value))
  (v : value) (entry : string * schema) : list string :=
  if present inherited (fst entry) v
  then validateProperty (member inherited (fst entry) v) (snd entry)
  else [].

Definition declared (s : schema) : list (string * schema) :=
  match properties s with
  | Some entries => entries
  | None => []
  end.

Definition required_names (s : schema) : list string :=
  match required s with
  | Some names => names
  | None => []
  end.

(** ** The statements of the specification that the source is compared with *)

(** §4.2, step 1(b): the errors of the recursive validation of every
    present declared property are among the errors of the result. *)
Definition nested_errors_appended (inherited : value -> list (string * value))
  (s : schema) (v : value) : Prop :=
  exists r,
    validateAgainstSchema inherited v s = Normal r /\
    forall entry,
      In entry (declared s) ->
      incl (spec_property_errors inherited v entry) (errors r).

(** §4.2, step 2: on an array, with an element schema declared, the errors
    are those of every element, in element order. *)
Definition elements_validated (inherited : value -> list (string * value))
  (c : schema) (x : value) : Prop :=
  match x, items c with
  | JArray elements, Some child =>
      validateProperty x c = flat_map (spec_validate inherited child) elements
  | _, _ => True
  end.

(** §4.2, step 3: a value of the wrong kind for a primitive tag draws the
    one message that names the tag and the kind of the value. *)
Definition mismatch_reported (tag : string) (v : value) : Prop :=
  has_kind tag v = false ->
  validateProperty v (of_type tag)
  = ["Expected " +++ tag +++ " but got " +++ spec_kind v].



(** ** Values used in the examples *)



Definition image_entries : list (string * value) :=
  [ ("id", JString "MTY3ODIyMQ");
    ("url", JString "https://cdn2.thecatapi.com/images/MTY3ODIyMQ.jpg");
    ("width", JInt 640);
    ("height", JInt 480) ].

(** An image whose [favourite] has a string for its integer [id]. *)
Definition image_bad_favourite : value :=
  JObject (image_entries ++ [("favourite", JObject [("id", JString "seven")])]).

(** An image whose only breed has a number for its [name]. *)
Definition image_bad_breed : value :=
  JObject (image_entries ++ [("breeds", JArray [JObject [("name", JInt 3)]])]).

(** The schema [ImageSchema] declares for a name. *)
Definition image_property (name : string) : schema :=
  match lookup name (declared ImageSchema) with
  | Some c => c
  | None => of_type "undefined"
  end.

(** ** Closed forms and examples for the client *)

(** [f] on every element in order, up to the first throw. *)
Fixpoint traverse {A B : Type} (f : A -> completion B) (xs : list A)
  : completion (list B) :=
  match xs with
  | [] => Normal []
  | x :: xs' => y <- f x ;; ys <- traverse f xs' ;; Normal (y :: ys)
  end.

(** The URL [buildUrl] returns for the pairs of its query: the base alone
    when there is none. *)
Definition with_query (baseUrl : string) (q : URLSearchParams) : string :=
  match q with
  | [] => baseUrl
  | _ :: _ => baseUrl +++ "?" +++ URLSearchParams_toString q
  end.

(** The pairs of the parameters that are neither undefined nor null, each
    with the text of its value, in the order of the list. *)
Definition parameter_pairs (engine_String : value -> completion string)
  (entries : list (string * value)) : completion URLSearchParams :=
  traverse
    (fun entry =>
       text <- js_String engine_String (snd entry) ;;
       Normal (fst entry, text))
    (filter (fun entry => negb (nullish (snd entry))) entries).

(** The specification's wording of the order: the parameters of an object
    whose properties were created in the order [created] are serialized in
    that order. *)
Definition serialized_in_insertion_order
  (engine_String : value -> completion string) (this : APIClient)
  (endpoint : string) (created : list (string * value)) : Prop :=
  buildUrl engine_String this endpoint (Some created) None
  = (pairs <- parameter_pairs engine_String created ;;
     Normal (with_query (baseURL this +++ endpoint) pairs)).

(** [{ limit: 5, 1: "a" }], by the order in which the properties are
    written. *)
Definition indexed_params : list (string * value) :=
  [ ("limit", JInt 5); ("1", JString "a") ].

(** The pair [buildUrl] appends first when it is given a key. *)
Definition api_key_pair (apiKey : option string) : URLSearchParams :=
  match apiKey with
  | Some key => if truthy apiKey then [("api_key", key)] else []
  | None => []
  end.

(** [{ limit: 5, page: undefined, order: "RAND" }] *)
Definition search_params : list (string * value) :=
  [ ("limit", JInt 5); ("page", JUndefined); ("order", JString "RAND") ].

Definition search_url : string :=
  "https://api.thecatapi.com/v1/images/search?limit=5&order=RAND".

(** An engine for the examples: every conversion left to it throws. *)
Definition engine_rejects (v : value) : completion string :=
  Throw (TypeError "String left to the engine").

(** A transport that answers every request with the same response. *)
Definition fetch_fixed (response : APIResponse)
  : string -> FetchOptions -> completion APIResponse :=
  fun _ _ => Normal response.

Definition response_200 : APIResponse :=
  {| APIResponse_status := 200;
     APIResponse_statusText := "OK";
     APIResponse_headers :=
       [("content-type", "application/json; charset=utf-8")];
     APIResponse_ok := true;
     APIResponse_json := Normal (JArray []);
     APIResponse_text := Normal "[]" |}.

Definition response_404 : APIResponse :=
  {| APIResponse_status := 404;
     APIResponse_statusText := "Not Found";
     APIResponse_headers := [("content-type", "text/plain")];
     APIResponse_ok := false;
     APIResponse_json := Throw (TypeError "body is not JSON");
     APIResponse_text := Normal "404 - please consult the documentation" |}.

(** * Further definitions: the rest of the validator's interface *)

Module HeapReturns.

(** A computation on the store whose every normal return satisfies
    [post]. *)
Definition returns_with {A : Type} (m : Heap.M A) (post : A -> Prop) : Prop :=
  forall st,
    match fst (m st) with
    | Normal a => post a
    | Throw _ => True
    end.

(** A computation on the store that removes no cell. *)
Definition never_shrinks {A : Type} (m : Heap.M A) : Prop :=
  forall st, (List.length st <= List.length (snd (m st)))%nat.

End HeapReturns.

(** * Further definitions: the client *)

(** How often the character occurs in the string. *)
Fixpoint count_char (c : ascii) (s : string) : nat :=
  match s with
  | EmptyString => 0
  | String c' rest =>
      (if Ascii.eqb c c' then 1 else 0) + count_char c rest
  end%nat.

(** The second argument [makeRequest] passes to [this.request.fetch]. *)
Definition fetchOptions_of (this : APIClient) (options : RequestOptions)
  (data : option string) : FetchOptions :=
  {| fetch_method := method options;
     fetch_headers :=
       spread (defaultHeaders this)
         match headers options with
         | Some h => h
         | None => []
         end;
     fetch_data := data |}.

(** The text of the [content-type] header, empty when there is none. *)
Definition contentType_of (response : APIResponse) : string :=
  or_else (lookup "content-type" (APIResponse_headers response)) EmptyString.

(** A [JSON.stringify] for the examples that throws on every body, as the
    engine does on one that holds a [BigInt]. *)
Definition stringify_rejects (body : list (string * value))
  : completion (option string) :=
  Throw (TypeError "Do not know how to serialize a BigInt").

(** A response that announces JSON and carries something else. *)
Definition response_unparseable : APIResponse :=
  {| APIResponse_status := 200;
     APIResponse_statusText := "OK";
     APIResponse_headers := [("content-type", "application/json")];
     APIResponse_ok := true;
     APIResponse_json := Throw (TypeError "body is not JSON");
     APIResponse_text := Normal "<html>" |}.

(** * Further definitions: the assertions on fields
    ([src/utils/assertions.ts]) *)

(** [s.split(sep)] for a separator of one character: the pieces between
    the separators, one piece for a string without separator, the empty
    string included. *)
Fixpoint split_on (sep : ascii) (s : string) : list string :=
  match s with
  | EmptyString => [EmptyString]
  | String c rest =>
      if Ascii.eqb c sep then EmptyString :: split_on sep rest
      else
        match split_on sep rest with
        | piece :: pieces => String c piece :: pieces
        | [] => [String c EmptyString]
        end
  end.

(** [Array.isArray(v) ? 'array' : typeof v] *)
Definition kind_of (v : value) : string :=
  if Array_isArray v then "array" else typeof v.

(** The operator of [assertArrayLength]. *)
Inductive Operator : Type := equals | greaterThan | lessThan.

Module FieldAssertions.

(** [assertIsArray(response)] *)
Definition assertIsArray (response : ApiResponse) : completion unit :=
  expect (Bool.eqb (Array_isArray (body response)) true) "toBe".

(** [assertIsObject(response)] *)
Definition assertIsObject (response : ApiResponse) : completion unit :=
  expect (typeof (body response) =? "object")%string "toBe" ;;;
  expect (Bool.eqb (Array_isArray (body response)) false) "toBe".

(** [response.body.length] of an array body. *)
Definition body_length (response : ApiResponse) : Z :=
  match body response with
  | JArray elements => Z.of_nat (List.length elements)
  | _ => 0
  end.

(** [assertArrayLength(response, length, operator)], the length a whole
    number. *)
Definition assertArrayLength (response : ApiResponse) (length : Z)
  (operator : Operator) : completion unit :=
  expect (Bool.eqb (Array_isArray (body response)) true) "toBe" ;;;
  match operator with
  | equals => expect (body_length response =? length) "toBe"
  | greaterThan =>
      expect (body_length response >=? length) "toBeGreaterThanOrEqual"
  | lessThan =>
      expect (body_length response <=? length) "toBeLessThanOrEqual"
  end.

Section WithMembers.

Variable inherited : value -> list (string * value).
Variable engine_String : value -> completion string.
(** [expect(v).toHaveProperty(name)] of the test runner: whether it
    passes. *)
Variable toHaveProperty : value -> string -> bool.

(** [current?.[prop]] *)
Definition optional_get (current : value) (prop : string)
  : completion value :=
  if nullish current then Normal JUndefined
  else js_get inherited current prop.

(** [getNestedValue(obj, path)] *)
Definition getNestedValue (obj : value) (path : string) : completion value :=
  for_of (split_on "." path) obj (fun current prop =>
    optional_get current prop).

(** [assertFieldType(response, fieldPath, expectedType)] *)
Definition assertFieldType (response : ApiResponse) (fieldPath : string)
  (expectedType : string) : completion unit :=
  value <- getNestedValue (body response) fieldPath ;;
  let actualType := kind_of value in
  expect (actualType =? expectedType)%string "toBe".

(** [assertFieldContains(response, fieldPath, expectedValue)] *)
Definition assertFieldContains (response : ApiResponse) (fieldPath : string)
  (expectedValue : string) : completion unit :=
  value <- getNestedValue (body response) fieldPath ;;
  text <- js_String engine_String value ;;
  expect (contains expectedValue text) "toContain".

(** [Array.isArray(response.body) ? response.body[0] : response.body] *)
Definition first_or_body (response : ApiResponse) : completion value :=
  if Array_isArray (body response)
  then js_get inherited (body response) "0"
  else Normal (body response).

(** [assertHasFields(response, fields)] *)
Definition assertHasFields (response : ApiResponse) (fields : list string)
  : completion unit :=
  body <- first_or_body response ;;
  for_of fields tt (fun _ field =>
    expect (toHaveProperty body field) "toHaveProperty").

(** [assertMatchesSchema(response, schema)] *)
Definition assertMatchesSchema (response : ApiResponse)
  (schema : list (string * string)) : completion unit :=
  body <- first_or_body response ;;
  for_of schema tt (fun _ entry =>
    let '(field, type) := entry in
    expect (toHaveProperty body field) "toHaveProperty" ;;;
    member <- js_get inherited body field ;;
    let actualType := kind_of member in
    expect (actualType =? type)%string "toBe").

End WithMembers.

End FieldAssertions.

(** The flat schemas of the fixtures ([src/fixtures/test-data.ts]). *)
Definition IMAGE_RESPONSE_SCHEMA : list (string * string) :=
  [ ("id", "string"); ("url", "string"); ("width", "number");
    ("height", "number"); ("breeds", "array"); ("favourite", "object");
    ("vote", "object") ].

Definition CATEGORY_RESPONSE_SCHEMA : list (string * string) :=
  [ ("id", "number"); ("name", "string"); ("icon", "string") ].

(** A [String] for the examples that gives a function the text of a
    built-in one and rejects the rest. *)
Definition engine_native (v : value) : completion string :=
  match v with
  | JFunction => Normal "function toString() { [native code] }"
  | _ => Throw (TypeError "String left to the engine")
  end.

(** A response with the given body and status 200. *)
Definition response_with (b : value) : ApiResponse :=
  {| status := 200; statusText := "OK"; response_headers := [];
     body := b; ok := true |}.


(** * The Slack reporter (the class [SlackReporter])

    The reporter counts the results of a run, computes the pass rate when
    the run ends and posts a summary, and the list of the failed tests, to
    a Slack webhook.

    Numbers.  The counters start at 0 and are only incremented, so they
    are integers; [x++] on the double [2^53] gives [2^53] again, which
    [increment] writes out.  The pass rate goes through a division and a
    multiplication of doubles: these are the binary64 operations of the
    Standard Library's [SpecFloat].  A duration is a difference of two time
    values, integers of milliseconds.

    Not modelled: what is written to the console, and [onBegin] with
    [sendTestStartNotification], whose request is started and not
    awaited. *)

Module SlackReporter.

(** ** Doubles *)

Definition double : Type := SpecFloat.spec_float.

(** The double of an integer (exact up to [2^53]). *)
Definition of_Z (z : Z) : double :=
  SpecFloat.binary_normalize 53 1024 z 0 false.

Definition divide (x y : double) : double := SpecFloat.SFdiv 53 1024 x y.
Definition multiply (x y : double) : double := SpecFloat.SFmul 53 1024 x y.

(** [x === y] and [x >= y] on numbers. *)
Definition strictly_equal (x y : double) : bool := SpecFloat.SFeqb x y.
Definition at_least (x y : double) : bool := SpecFloat.SFleb y x.

(** [Math.round(x)]: the integer closest to [x], the greater one of two
    that are equally close; [floor(x + 1/2)], computed exactly. *)
Definition Math_round (x : double) : double :=
  match x with
  | SpecFloat.S754_finite s m e =>
      if 0 <=? e then x
      else
        let n := (2 * SpecFloat.cond_Zopp s (Zpos m) + 2 ^ (- e))
                 / 2 ^ (1 - e) in
        if n =? 0 then SpecFloat.S754_zero s else of_Z n
  | _ => x
  end.

(** The integer a double stands for, if it is one. *)
Definition integral (x : double) : option Z :=
  match x with
  | SpecFloat.S754_zero _ => Some 0
  | SpecFloat.S754_finite s m e =>
      if 0 <=? e then Some (SpecFloat.cond_Zopp s (Zpos m * 2 ^ e))
      else if Zpos m mod 2 ^ (- e) =? 0
           then Some (SpecFloat.cond_Zopp s (Zpos m / 2 ^ (- e)))
           else None
  | _ => None
  end.

(** An integer in a template literal. *)
Definition decimal (z : Z) : string := NilZero.string_of_int (Z.to_int z).

(** [x++] on a counter. *)
Definition increment (n : Z) : Z := if n <? 2 ^ 53 then n + 1 else n.

(** ** The state of a reporter *)

Record TestStats : Type := {
  passed : Z;
  failed : Z;
  skipped : Z;
  total : Z;
  duration : Z;
  passRate : double
}.

Record FailedTest : Type := { name : string }.

Record reporter : Type := {
  slackWebhookUrl : string;
  channel : string;
  testStats : TestStats;
  failedTests : list FailedTest
}.

(** What the reporter reads of Playwright's [TestCase], [TestResult] and
    [FullResult]. *)
Record TestCase : Type := { title : string }.
Record TestResult : Type := { status : string }.
Record FullResult : Type := { startTime : option Z }.

Definition with_testStats (this : reporter) (s : TestStats) : reporter :=
  {| slackWebhookUrl := slackWebhookUrl this;
     channel := channel this;
     testStats := s;
     failedTests := failedTests this |}.

Definition with_failedTests (this : reporter) (l : list FailedTest)
  : reporter :=
  {| slackWebhookUrl := slackWebhookUrl this;
     channel := channel this;
     testStats := testStats this;
     failedTests := l |}.

Definition with_passed (s : TestStats) (n : Z) : TestStats :=
  {| passed := n; failed := failed s; skipped := skipped s;
     total := total s; duration := duration s; passRate := passRate s |}.

Definition with_failed (s : TestStats) (n : Z) : TestStats :=
  {| passed := passed s; failed := n; skipped := skipped s;
     total := total s; duration := duration s; passRate := passRate s |}.

Definition with_skipped (s : TestStats) (n : Z) : TestStats :=
  {| passed := passed s; failed := failed s; skipped := n;
     total := total s; duration := duration s; passRate := passRate s |}.

Definition with_total (s : TestStats) (n : Z) : TestStats :=
  {| passed := passed s; failed := failed s; skipped := skipped s;
     total := n; duration := duration s; passRate := passRate s |}.

Definition with_duration (s : TestStats) (n : Z) : TestStats :=
  {| passed := passed s; failed := failed s; skipped := skipped s;
     total := total s; duration := n; passRate := passRate s |}.

Definition with_passRate (s : TestStats) (x : double) : TestStats :=
  {| passed := passed s; failed := failed s; skipped := skipped s;
     total := total s; duration := duration s; passRate := x |}.

(** [constructor()]; [env] is [process.env]. *)
Definition new_reporter (env : string -> option string) : reporter :=
  {| slackWebhookUrl := or_else (env "SLACK_WEBHOOK_URL") EmptyString;
     channel := or_else (env "SLACK_CHANNEL") "#test-results";
     testStats := {| passed := 0; failed := 0; skipped := 0; total := 0;
                     duration := 0; passRate := of_Z 0 |};
     failedTests := [] |}.

(** [recordFailedTest(test, result)] *)
Definition recordFailedTest (this : reporter) (test : TestCase)
  (result : TestResult) : reporter :=
  let failedTest := {| name := title test |} in
  with_failedTests this (failedTests this ++ [failedTest]).

(** [onTestEnd(test, result)] *)
Definition onTestEnd (this : reporter) (test : TestCase)
  (result : TestResult) : reporter :=
  let this :=
    if (status result =? "passed")%string then
      with_testStats this
        (with_passed (testStats this) (increment (passed (testStats this))))
    else if (status result =? "failed")%string then
      let this :=
        with_testStats this
          (with_failed (testStats this)
             (increment (failed (testStats this)))) in
      recordFailedTest this test result
    else if (status result =? "skipped")%string then
      with_testStats this
        (with_skipped (testStats this)
           (increment (skipped (testStats this))))
    else this in
  with_testStats this
    (with_total (testStats this) (increment (total (testStats this)))).

(** The reporter after the results of a run, in the order in which they
    arrive. *)
Definition after_results (this : reporter)
  (results : list (TestCase * TestResult)) : reporter :=
  fold_left (fun this tr => onTestEnd this (fst tr) (snd tr)) results this.

(** The results of a run that have the given status. *)
Definition with_status (s : string) (results : list (TestCase * TestResult))
  : list (TestCase * TestResult) :=
  filter (fun tr => (status (snd tr) =? s)%string) results.

(** [Math.round((passed / total) * 100)], or 0 when no test ran. *)
Definition passRate_of (s : TestStats) : double :=
  if total s >? 0
  then Math_round (multiply (divide (of_Z (passed s)) (of_Z (total s)))
                     (of_Z 100))
  else of_Z 0.

(** ** The messages *)

Record Field : Type := {
  field_title : string;
  value : string;
  short : bool
}.

Record Attachment : Type := {
  fallback : string;
  color : string;
  attachment_title : string;
  fields : option (list Field);
  text : option string;
  ts : Z
}.

Record SlackMessage : Type := {
  message_channel : string;
  username : string;
  icon_emoji : string;
  attachments : list Attachment
}.

(** [formatDuration(ms)] *)
Definition formatDuration (ms : Z) : string :=
  let seconds := ms / 1000 in
  let minutes := seconds / 60 in
  if minutes >? 0
  then decimal minutes +++ "m " +++ decimal (Z.rem seconds 60) +++ "s"
  else decimal seconds +++ "s".

(** [getColorForPassRate(passRate)] *)
Definition getColorForPassRate (passRate : double) : string :=
  if strictly_equal passRate (of_Z 100) then "#36a64f"
  else if at_least passRate (of_Z 80) then "#ffc107"
  else if at_least passRate (of_Z 50) then "#ff9800"
  else "#f44336".

Definition newline : string := String (ascii_of_nat 10) EmptyString.

(** [tests.map((test, index) => `${index + 1}. *${test.name}*\n`)], the
    first index being [index]. *)
Fixpoint numbered (index : nat) (tests : list FailedTest) : list string :=
  match tests with
  | [] => []
  | test :: rest =>
      (decimal (Z.of_nat index + 1) +++ ". *" +++ name test +++ "*"
       +++ newline)
      :: numbered (S index) rest
  end.

Section Messages.

(** How the engine writes a number that is no integer. *)
Variable engine_Number_toString : double -> string.

(** A double in a template literal. *)
Definition Number_toString (x : double) : string :=
  match integral x with
  | Some z => if Z.abs z <? 10 ^ 21 then decimal z
              else engine_Number_toString x
  | None => engine_Number_toString x
  end.

(** The title's mark in [buildTestSummaryMessage]. *)
Definition statusEmoji (passRate : double) : string :=
  if strictly_equal passRate (of_Z 100) then "✅"
  else if at_least passRate (of_Z 80) then "⚠️"
  else "❌".

(** The message [buildTestSummaryMessage()] builds when [Date.now()]
    gives [now]. *)
Definition TestSummaryMessage (this : reporter) (now : Z)
  : SlackMessage :=
  let color := getColorForPassRate (passRate (testStats this)) in
  let fields :=
    [ {| field_title := "Total Tests";
         value := decimal (total (testStats this));
         short := true |};
      {| field_title := "✅ Passed";
         value := decimal (passed (testStats this)) +++ " ✓";
         short := true |};
      {| field_title := "❌ Failed";
         value := decimal (failed (testStats this)) +++ " ✗";
         short := true |};
      {| field_title := "Skipped";
         value := decimal (skipped (testStats this));
         short := true |};
      {| field_title := "Pass Rate";
         value := Number_toString (passRate (testStats this)) +++ "%";
         short := true |};
      {| field_title := "Duration";
         value := formatDuration (duration (testStats this));
         short := true |} ] in
  {| message_channel := channel this;
     username := "Playwright Test Reporter";
     icon_emoji := ":robot_face:";
     attachments :=
       [ {| fallback := "Test Results: "
                        +++ decimal (passed (testStats this)) +++ "/"
                        +++ decimal (total (testStats this)) +++ " passed";
            color := color;
            attachment_title :=
              statusEmoji (passRate (testStats this))
              +++ " Test Results Summary";
            fields := Some fields;
            text := None;
            ts := now / 1000 |} ] |}.

(** The message [buildFailedTestsMessage()] builds, when there are failed
    tests and [Date.now()] gives [now]. *)
Definition FailedTestsMessage (this : reporter) (now : Z) : SlackMessage :=
  let failureText :=
    String.concat (newline +++ newline) (numbered 0 (failedTests this)) in
  let count := decimal (Z.of_nat (List.length (failedTests this))) in
  {| message_channel := channel this;
     username := "Playwright Test Reporter";
     icon_emoji := ":robot_face:";
     attachments :=
       [ {| fallback := count +++ " test(s) failed";
            color := "#f44336";
            attachment_title := "❌ Failed Tests (" +++ count +++ ")";
            fields := None;
            text := Some failureText;
            ts := now / 1000 |} ] |}.

End Messages.

(** ** Requests *)

(** What is thrown, or what a promise is rejected with. *)
Inductive thrown : Type :=
| Error (message : string)
| Failure (cause : string).

Inductive outcome (A : Type) : Type :=
| Fulfilled (a : A)
| Rejected (e : thrown).

Arguments Fulfilled {A} a.
Arguments Rejected {A} e.

Record RequestInit : Type := {
  method : string;
  headers : list (string * string);
  body : string
}.

Record Call : Type := { url : string; init : RequestInit }.

(** A response as [sendToSlack] reads it; [response_text] is what
    [response.text()] resolves to. *)
Record Response : Type := {
  ok : bool;
  response_status : Z;
  statusText : string;
  response_text : outcome string
}.

(** A [fetch] function.  What the network answers may depend on the calls
    made so far. *)
Definition Fetch : Type := list Call -> Call -> outcome Response.

(** The module's [fetchFn], the calls made, and how often the clock was
    read. *)
Record world : Type := {
  fetchFn : option Fetch;
  calls : list Call;
  clock_reads : nat
}.

Definition task (A : Type) : Type := world -> outcome A * world.

Definition resolve {A : Type} (a : A) : task A := fun w => (Fulfilled a, w).

Definition reject {A : Type} (e : thrown) : task A :=
  fun w => (Rejected e, w).

Definition await {A : Type} (o : outcome A) : task A := fun w => (o, w).

Definition then_ {A B : Type} (m : task A) (k : A -> task B) : task B :=
  fun w =>
    match m w with
    | (Fulfilled a, w') => k a w'
    | (Rejected e, w') => (Rejected e, w')
    end.

(** [try { m } catch (error) { handler }] *)
Definition try_catch {A : Type} (m : task A) (handler : thrown -> task A)
  : task A :=
  fun w =>
    match m w with
    | (Fulfilled a, w') => (Fulfilled a, w')
    | (Rejected e, w') => handler e w'
    end.

Notation "x <== c ;; k" := (then_ c (fun x => k))
  (at level 61, c at next level, right associativity).
Notation "c ;;= k" := (then_ c (fun _ => k))
  (at level 61, right associativity).

Section Environment.

(** [globalThis.fetch], if defined; what [import('node-fetch')] gives. *)
Variable globalThis_fetch : option Fetch.
Variable node_fetch : outcome Fetch.
(** The clock: the value of the n-th reading of [Date.now()]. *)
Variable clock : nat -> Z.
Variable engine_Number_toString : double -> string.
(** [JSON.stringify] of a message. *)
Variable JSON_stringify : SlackMessage -> string.

(** [Date.now()] *)
Definition Date_now : task Z :=
  fun w =>
    (Fulfilled (clock (clock_reads w)),
     {| fetchFn := fetchFn w; calls := calls w;
        clock_reads := S (clock_reads w) |}).

(** [buildTestSummaryMessage()] *)
Definition buildTestSummaryMessage (this : reporter) : task SlackMessage :=
  now <== Date_now ;;
  resolve (TestSummaryMessage engine_Number_toString this now).

(** [buildFailedTestsMessage()]; [None] is [null]. *)
Definition buildFailedTestsMessage (this : reporter)
  : task (option SlackMessage) :=
  match failedTests this with
  | [] => resolve None
  | _ :: _ =>
      now <== Date_now ;;
      resolve (Some (FailedTestsMessage this now))
  end.

(** [getFetch()] *)
Definition getFetch : task Fetch :=
  match globalThis_fetch with
  | Some f => resolve f
  | None =>
      nodeFetch <== await node_fetch ;;
      resolve nodeFetch
  end.

(** [if (!fetchFn) { fetchFn = await getFetch(); }], then [fetchFn]. *)
Definition the_fetchFn : task Fetch :=
  fun w =>
    match fetchFn w with
    | Some f => (Fulfilled f, w)
    | None =>
        match getFetch w with
        | (Fulfilled f, w') =>
            (Fulfilled f,
             {| fetchFn := Some f; calls := calls w';
                clock_reads := clock_reads w' |})
        | (Rejected e, w') => (Rejected e, w')
        end
    end.

(** The [fetch] function a request made in [w] uses: the one kept in
    [fetchFn], or else the one [getFetch] finds. *)
Definition available (w : world) : outcome Fetch :=
  match fetchFn w with
  | Some f => Fulfilled f
  | None =>
      match globalThis_fetch with
      | Some f => Fulfilled f
      | None => node_fetch
      end
  end.

(** A call of a [fetch] function: the call is recorded, the answer is the
    function's. *)
Definition call (f : Fetch) (c : Call) : task Response :=
  fun w =>
    (f (calls w) c,
     {| fetchFn := fetchFn w; calls := calls w ++ [c];
        clock_reads := clock_reads w |}).

(** The request [sendToSlack] makes for a message. *)
Definition request_of (this : reporter) (message : SlackMessage) : Call :=
  {| url := slackWebhookUrl this;
     init := {| method := "POST";
                headers := [("Content-Type", "application/json")];
                body := JSON_stringify message |} |}.

(** [sendToSlack(message)] *)
Definition sendToSlack (this : reporter) (message : SlackMessage)
  : task unit :=
  if negb (truthy (Some (slackWebhookUrl this))) then resolve tt
  else
    f <== the_fetchFn ;;
    response <== call f (request_of this message) ;;
    if negb (ok response) then
      responseText <== await (response_text response) ;;
      reject (Error ("Slack API error: " +++ statusText response))
    else resolve tt.

(** [sendSlackNotification()] *)
Definition sendSlackNotification (this : reporter) : task unit :=
  try_catch
    (message <== buildTestSummaryMessage this ;;
     sendToSlack this message ;;=
     failedMessage <== buildFailedTestsMessage this ;;
     match failedMessage with
     | Some failedMessage => sendToSlack this failedMessage
     | None => resolve tt
     end)
    (fun error => resolve tt).

(** [onEnd(result)]; the task gives the reporter as the call leaves it. *)
Definition onEnd (this : reporter) (result : FullResult) : task reporter :=
  duration <==
    match startTime result with
    | Some start => now <== Date_now ;; resolve (now - start)
    | None => resolve 0
    end ;;
  let this := with_testStats this (with_duration (testStats this) duration) in
  let this :=
    with_testStats this
      (with_passRate (testStats this) (passRate_of (testStats this))) in
  (if truthy (Some (slackWebhookUrl this))
   then sendSlackNotification this
   else resolve tt) ;;=
  resolve this.

End Environment.

(** A world in which nothing has happened. *)
Definition initial_world : world :=
  {| fetchFn := None; calls := []; clock_reads := 0 |}.

(** A network that accepts every message, and one that refuses them. *)
Definition fetch_accepting : Fetch :=
  fun _ _ =>
    Fulfilled {| ok := true; response_status := 200; statusText := "OK";
                 response_text := Fulfilled "ok" |}.

Definition fetch_refusing : Fetch :=
  fun _ _ =>
    Fulfilled {| ok := false; response_status := 404;
                 statusText := "Not Found";
                 response_text := Fulfilled "no_service" |}.

(** For the examples: a clock, an environment with a webhook, a stand-in
    for [JSON.stringify] (the titles of the attachments), and one for the
    engine's writing of numbers that are no integers. *)
Definition clock_example : nat -> Z :=
  fun n => 1700000000000 + 1000 * Z.of_nat n.

Definition env_example (variable : string) : option string :=
  if (variable =? "SLACK_WEBHOOK_URL")%string
  then Some "https://hooks.slack.com/services/T0/B0/X0"
  else None.

Definition stringify_titles (message : SlackMessage) : string :=
  String.concat "; " (map attachment_title (attachments message)).

Definition toString_unused (x : double) : string := "?".

Definition test_with (name status : string) : TestCase * TestResult :=
  ({| title := name |}, {| status := status |}).

End SlackReporter.

(** ** Rounding, for the statements about the pass rate *)

(** The integer nearest to [n / d], the even one of two that are equally
    near. *)
Definition nearest_even (n d : Z) : Z :=
  let q := n / d in
  let r := n mod d in
  if 2 * r <? d then q
  else if d <? 2 * r then q + 1
  else if Z.even q then q else q + 1.

(** The double with mantissa [M], of 53 bits or [2^53], and exponent [E]. *)
Definition with_mantissa (M E : Z) : SlackReporter.double :=
  if M <? 2 ^ 53 then SpecFloat.S754_finite false (Z.to_pos M) E
  else SpecFloat.S754_finite false (Z.to_pos (2 ^ 52)) (E + 1).

(** [x] is the double nearest to [n / d], a ratio of positive integers
    that is less than [2^53]. *)
Definition rounds_to (n d : Z) (x : SlackReporter.double) : Prop :=
  exists g,
    0 <= g /\ 2 ^ 52 * d <= n * 2 ^ g < 2 ^ 53 * d /\
    x = with_mantissa (nearest_even (n * 2 ^ g) d) (- g).

(** The order of positive doubles with mantissas of 53 bits. *)
Definition le_double (x y : SlackReporter.double) : Prop :=
  match x, y with
  | SpecFloat.S754_finite false m1 e1, SpecFloat.S754_finite false m2 e2 =>
      e1 < e2 \/ (e1 = e2 /\ Zpos m1 <= Zpos m2)
  | _, _ => False
  end.

(** The integer [Math.round] gives for a positive double below [2^52]. *)
Definition percent_of (x : SlackReporter.double) : Z :=
  match x with
  | SpecFloat.S754_finite _ m e => (2 * Zpos m + 2 ^ (- e)) / 2 ^ (1 - e)
  | _ => 0
  end.

(** [(p / t) * 100] in doubles. *)
Definition rate (p t : Z) : SlackReporter.double :=
  SlackReporter.multiply
    (SlackReporter.divide (SlackReporter.of_Z p) (SlackReporter.of_Z t))
    (SlackReporter.of_Z 100).

(** The colour and the title of a summary by the exact ratio of the
    counters: green from 99.5 percent, yellow from 79.5, orange from
    49.5. *)
Definition colour_by_ratio (p t : Z) : string * string :=
  if 199 * t <=? 200 * p then ("#36a64f", "✅ Test Results Summary")
  else if 159 * t <=? 200 * p then ("#ffc107", "⚠️ Test Results Summary")
  else if 99 * t <=? 200 * p then ("#ff9800", "❌ Test Results Summary")
  else ("#f44336", "❌ Test Results Summary").
(** * Properties of the validator *)

Section ValidatorFacts.

Variable inherited : value -> list (string * value).

Lemma js_in_object (k : string) (es : list (string * value)) :
  js_in inherited k (JObject es)
  = Normal (present inherited k (JObject es)).
Proof. reflexivity. Qed.

Lemma js_get_object (k : string) (es : list (string * value)) :
  js_get inherited (JObject es) k
  = Normal (member inherited k (JObject es)).
Proof.
  unfold js_get, member.
  destruct (lookup k (members inherited (JObject es))); reflexivity.
Qed.

Lemma check_required_object (es : list (string * value))
  (names : list string) (errs : list string) :
  check_required inherited (JObject es) names errs
  = Normal (errs ++ missing_required inherited (JObject es) names).
Proof.
  unfold check_required, missing_required.
  revert errs.
  induction names as [| name names IH]; intros errs;
    cbn [for_of filter map].
  - now rewrite app_nil_r.
  - rewrite js_in_object. cbn [bind].
    destruct (present inherited name (JObject es)); cbn [negb map bind].
    + apply IH.
    + rewrite IH. unfold push. now rewrite <- app_assoc.
Qed.

Lemma check_properties_object (es : list (string * value))
  (entries : list (string * schema)) (errs : list string) :
  check_properties inherited (JObject es) entries errs
  = Normal (errs
            ++ flat_map (property_errors inherited (JObject es)) entries).
Proof.
  unfold check_properties.
  revert errs.
  induction entries as [| [key propSchema] entries IH]; intros errs;
    cbn [for_of flat_map].
  - now rewrite app_nil_r.
  - rewrite js_in_object. cbn [bind].
    unfold property_errors at 1; cbn [fst snd].
    destruct (present inherited key (JObject es)).
    + rewrite js_get_object. cbn [bind]. rewrite IH.
      unfold push. now rewrite <- app_assoc.
    + apply IH.
Qed.

(** On an object value and an object schema the validator returns, and
    its errors are the missing required names followed by the errors of
    the declared properties. *)
Lemma validateAgainstSchema_object (s : schema)
  (es : list (string * value)) :
  type s = "object" ->
  validateAgainstSchema inherited (JObject es) s
  = Normal
      (let errs :=
         missing_required inherited (JObject es) (required_names s)
         ++ flat_map (property_errors inherited (JObject es)) (declared s)
       in {| valid := (List.length errs =? 0)%nat; errors := errs |}).
Proof.
  intros Ht. unfold validateAgainstSchema, required_names, declared.
  rewrite Ht. simpl.
  destruct (required s) as [names |]; simpl.
  - rewrite check_required_object. simpl.
    destruct (properties s) as [entries |]; simpl.
    + now rewrite check_properties_object.
    + now rewrite app_nil_r.
  - destruct (properties s) as [entries |]; simpl.
    + now rewrite check_properties_object.
    + reflexivity.
Qed.

(** *** What [validateProperty] looks at *)

Lemma validateProperty_tag (x : value) (c : schema) :
  validateProperty x c = validateProperty x (of_type (type c)).
Proof. reflexivity. Qed.

Lemma validateProperty_cases (x : value) (c : schema) :
  validateProperty x c = []
  \/ validateProperty x c
     = ["Expected " +++ type c +++ " but got " +++ typeof x].
Proof.
  unfold validateProperty, push.
  destruct (String.eqb_spec (type c) "string") as [-> |];
    [destruct (negb (typeof x =? "string")%string); cbn; auto |].
  destruct (String.eqb_spec (type c) "integer") as [-> |];
    [destruct (negb (Number_isInteger x)); cbn; auto |].
  destruct (String.eqb_spec (type c) "number") as [-> |];
    [destruct (negb (typeof x =? "number")%string); cbn; auto |].
  destruct (String.eqb_spec (type c) "array") as [-> |];
    [destruct (negb (Array_isArray x)); cbn; auto |].
  cbn; auto.
Qed.

Lemma validateProperty_length (x : value) (c : schema) :
  (List.length (validateProperty x c) <= 1)%nat.
Proof.
  destruct (validateProperty_cases x c) as [-> | ->]; simpl; lia.
Qed.

Lemma validateProperty_object (x : value) (c : schema) :
  type c = "object" -> validateProperty x c = [].
Proof. unfold validateProperty. now intros ->. Qed.

Lemma validateProperty_not_missing (x : value) (c : schema) (f e : string) :
  In e (validateProperty x c) -> e <> "Missing required field: " +++ f.
Proof.
  destruct (validateProperty_cases x c) as [-> | ->]; simpl.
  - tauto.
  - intros [<- | []]. discriminate.
Qed.

(** *** The messages for missing required names *)

Lemma append_inj_l (p a b : string) : p +++ a = p +++ b -> a = b.
Proof.
  induction p as [| c p IH]; simpl; intros H.
  - exact H.
  - injection H as H. now apply IH.
Qed.

Lemma In_missing_required (v : value) (names : list string) (f : string) :
  In ("Missing required field: " +++ f) (missing_required inherited v names)
  <-> In f names /\ present inherited f v = false.
Proof.
  unfold missing_required. rewrite in_map_iff. split.
  - intros (g & Hg & Hin). apply append_inj_l in Hg. subst g.
    apply filter_In in Hin as [Hin Hp].
    split; [exact Hin | now apply negb_true_iff].
  - intros [Hin Hp]. exists f. split; [reflexivity |].
    apply filter_In. split; [exact Hin | now apply negb_true_iff].
Qed.



End ValidatorFacts.

(** * The claims about the validator *)

Section ValidatorClaims.

Variable inherited : value -> list (string * value).

Lemma validateAgainstSchema_other_tag (v : value) (s : schema) :
  (type s =? "object")%string = false ->
  validateAgainstSchema inherited v s
  = Normal {| valid := true; errors := [] |}.
Proof. intros Ht. unfold validateAgainstSchema. now rewrite Ht. Qed.

(** C9.  Whatever the value, a schema whose top-level tag is not
    ['object'] (an array, string, integer, number or boolean schema, or any
    other tag) makes [validateAgainstSchema] return a valid result with no
    errors: the value is not looked at. *)
Theorem validateAgainstSchema_non_object_schema (v : value) (s : schema) :
  type s <> "object" ->
  validateAgainstSchema inherited v s
  = Normal {| valid := true; errors := [] |}.
Proof.
  intros Ht. apply validateAgainstSchema_other_tag.
  now apply String.eqb_neq.
Qed.

(** On [null] and an object schema with a required name the validator
    does not return a result: [typeof null] is ['object'], the guard lets
    it through and the first [field in response] throws a TypeError. *)
Lemma validateAgainstSchema_null_required (s : schema) (name : string)
  (names : list string) :
  type s = "object" ->
  required s = Some (name :: names) ->
  validateAgainstSchema inherited JNull s
  = Throw (TypeError ("'" +++ name +++ "' in null")).
Proof.
  intros Ht Hreq. unfold validateAgainstSchema.
  rewrite Ht, Hreq. reflexivity.
Qed.

(** Every value other than [null] gets a result, whatever the schema. *)
Lemma validateAgainstSchema_returns_unless_null (v : value) (s : schema) :
  v <> JNull ->
  exists r, validateAgainstSchema inherited v s = Normal r.
Proof.
  intros Hv.
  destruct (String.eqb_spec (type s) "object") as [Ht | Ht].
  - destruct v; try contradiction;
      try (unfold validateAgainstSchema; rewrite Ht; cbn; eauto; fail).
    rewrite (validateAgainstSchema_object inherited s entries Ht). eauto.
  - apply String.eqb_neq in Ht.
    rewrite (validateAgainstSchema_other_tag v s Ht). eauto.
Qed.

(** C10.  The validator does not return on every value: on [null] and
    [CategorySchema], an object schema with required names, it throws the
    TypeError of ['id' in null]. *)
Theorem validateAgainstSchema_null_CategorySchema :
  validateAgainstSchema inherited JNull CategorySchema
  = Throw (TypeError "'id' in null").
Proof. reflexivity. Qed.


(** On an object value the specification's validator gives the messages
    for the absent required names, then the errors of its own descent into
    every present declared property. *)
Lemma spec_validate_object (s : schema) (es : list (string * value)) :
  type s = "object" ->
  spec_validate inherited s (JObject es)
  = missing_required inherited (JObject es) (required_names s)
    ++ flat_map (spec_property_errors inherited (JObject es)) (declared s).
Proof.
  destruct s as [t props req elt fmt en].
  unfold required_names, declared. cbn [type required properties].
  intros ->. cbn [spec_validate String.eqb Ascii.eqb Bool.eqb].
  f_equal.
  - now destruct req.
  - destruct props as [entries |]; [| reflexivity].
    induction entries as [| [name child] entries IH]; [reflexivity |].
    cbn [flat_map]. rewrite <- IH. reflexivity.
Qed.



(** C1, as the source has it.  For an object schema and an object value
    the validator returns; its errors are the messages for the absent
    required names followed, for every declared property in the order of
    [Object.entries] whose name is present, by the errors of
    [validateProperty] on the member, with no prefix.  [validateProperty]
    looks at the tag of the child schema and at nothing else of it: it
    gives at most one error, and none for a child schema tagged
    ['object'], whose required names and properties are not visited. *)
Theorem declared_properties_checked_by_tag (s : schema)
  (es : list (string * value)) :
  type s = "object" ->
  (exists r,
      validateAgainstSchema inherited (JObject es) s = Normal r /\
      errors r
      = missing_required inherited (JObject es) (required_names s)
        ++ flat_map
             (fun entry =>
                if present inherited (fst entry) (JObject es)
                then validateProperty
                       (member inherited (fst entry) (JObject es))
                       (snd entry)
                else [])
             (declared s)) /\
  (forall x c,
      validateProperty x c = validateProperty x (of_type (type c)) /\
      (List.length (validateProperty x c) <= 1)%nat /\
      (type c = "object" -> validateProperty x c = [])).
Proof.
  intros Ht. split.
  - rewrite (validateAgainstSchema_object inherited s es Ht). cbv zeta.
    eexists. split; reflexivity.
  - intros x c. split; [| split].
    + apply validateProperty_tag.
    + apply validateProperty_length.
    + apply validateProperty_object.
Qed.

(** C2, as the source has it.  For a property whose schema is tagged
    ['array']: a value that is not an array draws exactly one error,
    "Expected array but got" and its [typeof]; an array draws none,
    whatever its elements and whatever element schema is declared. *)
Theorem array_property_checked_shallow (x : value) (c : schema) :
  type c = "array" ->
  validateProperty x c
  = if Array_isArray x then []
    else ["Expected array but got " +++ typeof x].
Proof.
  unfold validateProperty, push. intros ->. cbn.
  now destruct (Array_isArray x).
Qed.

(** C3, as the source has it.  For a property whose schema is tagged
    ['string'], ['integer'] or ['number'], a value of the wrong kind draws
    exactly one error, "Expected <tag> but got <typeof value>", and a value
    of the right kind none; the ['integer'] tag fails exactly on the values
    for which [Number.isInteger] is false; the kind reported is the
    [typeof] of the value, which is ['object'] for an array. *)
Theorem primitive_mismatch_reported (tag : string) (x : value)
  (c : schema) :
  type c = tag ->
  In tag ["string"; "integer"; "number"] ->
  validateProperty x c
  = (if has_kind tag x then []
     else ["Expected " +++ tag +++ " but got " +++ typeof x]) /\
  (tag = "integer" ->
   (validateProperty x c = [] <-> Number_isInteger x = true)) /\
  (forall elements,
      validateProperty (JArray elements) c
      = ["Expected " +++ tag +++ " but got object"]).
Proof.
  intros Ht Htag. unfold validateProperty, push, has_kind.
  rewrite Ht.
  destruct Htag as [<- | [<- | [<- | []]]]; cbn.
  - split; [| split].
    + now destruct (typeof x =? "string")%string.
    + discriminate.
    + reflexivity.
  - split; [| split].
    + now destruct (Number_isInteger x).
    + intros _. destruct (Number_isInteger x); cbn; split;
        congruence.
    + reflexivity.
  - split; [| split].
    + now destruct (typeof x =? "number")%string.
    + discriminate.
    + reflexivity.
Qed.

End ValidatorClaims.

(** The whole numbers among the doubles: [m * 2^e] with [e] negative is
    whole exactly when [2^(-e)] divides [m]. *)
Lemma number_isIntegral_spec (m e : Z) :
  number_isIntegral (Finite m e) = true
  <-> 0 <= e \/ (e < 0 /\ exists z, m = z * 2 ^ (- e)).
Proof.
  unfold number_isIntegral.
  destruct (Z.leb_spec 0 e) as [He | He].
  - split; [now left | reflexivity].
  - rewrite Z.eqb_eq. split.
    + intros Hm. right. split; [exact He |].
      exists (m / 2 ^ (- e)).
      assert (0 < 2 ^ (- e)) by (apply Z.pow_pos_nonneg; lia).
      rewrite (Z.div_mod m (2 ^ (- e))) at 1 by lia. lia.
    + intros [Hc | (_ & z & ->)]; [lia |].
      apply Z.mod_mul.
      assert (0 < 2 ^ (- e)) by (apply Z.pow_pos_nonneg; lia). lia.
Qed.

(** * The validator on concrete inputs *)

(** C1, as the specification words it, fails.  [ImageSchema] declares
    [favourite] as an object with an integer [id]; on an image whose
    [favourite.id] is a string the validator reports nothing, while the
    recursive validation of [favourite] gives one error. *)
Lemma nested_errors_not_appended :
  validateAgainstSchema plain_inherited image_bad_favourite ImageSchema
  = Normal {| valid := true; errors := [] |} /\
  spec_validate plain_inherited ImageSchema image_bad_favourite
  = ["Expected integer but got string"] /\
  spec_property_errors plain_inherited image_bad_favourite
    ("favourite", image_property "favourite")
  = ["Expected integer but got string"] /\
  ~ nested_errors_appended plain_inherited ImageSchema image_bad_favourite.
Proof.
  split; [reflexivity | split; [reflexivity | split; [reflexivity |]]].
  intros (r & Hr & Hincl).
  vm_compute in Hr. injection Hr as <-.
  apply (Hincl ("favourite", image_property "favourite")
           (or_intror (or_intror (or_intror (or_intror
              (or_intror (or_introl eq_refl))))))
           "Expected integer but got string").
  left. reflexivity.
Qed.

Lemma declared_properties_checked_by_tag_witness :
  type ImageSchema = "object" /\
  exists r,
    validateAgainstSchema plain_inherited image_bad_favourite ImageSchema
    = Normal r /\
    errors r = [].
Proof.
  split; [reflexivity |].
  destruct (declared_properties_checked_by_tag plain_inherited ImageSchema
              (image_entries
               ++ [("favourite", JObject [("id", JString "seven")])])
              eq_refl) as [(r & Hr & He) _].
  exists r. split; [exact Hr | exact He].
Defined.

(** C2, as the specification words it, fails.  [ImageSchema] declares
    [breeds] as an array of objects with a string [name]; on an image whose
    only breed has a number for its name the validator reports nothing,
    while the validation of the elements of [breeds] gives one error. *)
Lemma elements_not_validated :
  validateAgainstSchema plain_inherited image_bad_breed ImageSchema
  = Normal {| valid := true; errors := [] |} /\
  spec_validate plain_inherited ImageSchema image_bad_breed
  = ["Expected string but got number"] /\
  validateProperty (member plain_inherited "breeds" image_bad_breed)
    (image_property "breeds") = [] /\
  ~ elements_validated plain_inherited (image_property "breeds")
      (member plain_inherited "breeds" image_bad_breed).
Proof.
  split; [reflexivity | split; [reflexivity | split; [reflexivity |]]].
  unfold elements_validated. vm_compute. discriminate.
Qed.

Lemma array_property_checked_shallow_witness :
  type (image_property "breeds") = "array" /\
  validateProperty (JString "Bengal") (image_property "breeds")
  = ["Expected array but got string"].
Proof.
  split; [reflexivity |].
  exact (array_property_checked_shallow (JString "Bengal")
           (image_property "breeds") eq_refl).
Defined.

(** C3, as the specification words it, fails twice.  A string where a
    boolean is declared draws no error; an array where a string is declared
    is reported as ['object'], not as ['array']. *)
Lemma mismatch_not_reported :
  (validateProperty (JString "yes") (of_type "boolean") = [] /\
   ~ mismatch_reported "boolean" (JString "yes")) /\
  (validateProperty (JArray []) (of_type "string")
   = ["Expected string but got object"] /\
   ~ mismatch_reported "string" (JArray [])).
Proof.
  split; (split; [reflexivity |]);
    intros H; specialize (H eq_refl); discriminate H.
Qed.

Lemma primitive_mismatch_reported_witness :
  type (image_property "width") = "integer" /\
  In "integer" ["string"; "integer"; "number"] /\
  validateProperty (JNumber (Finite 1281 (-1))) (image_property "width")
  = ["Expected integer but got number"].
Proof.
  split; [reflexivity |].
  split; [right; left; reflexivity |].
  exact (proj1 (primitive_mismatch_reported "integer"
                  (JNumber (Finite 1281 (-1))) (image_property "width")
                  eq_refl (or_intror (or_introl eq_refl)))).
Defined.





Lemma validateAgainstSchema_non_object_schema_witness :
  type (image_property "breeds") <> "object" /\
  validateAgainstSchema plain_inherited (JString "not an array")
    (image_property "breeds")
  = Normal {| valid := true; errors := [] |}.
Proof.
  assert (type (image_property "breeds") <> "object") as Ht
    by (simpl; discriminate).
  split; [exact Ht |].
  exact (validateAgainstSchema_non_object_schema plain_inherited
           (JString "not an array") (image_property "breeds") Ht).
Defined.

(** * The validator and the store of objects *)

Module HeapFacts.

(** ** Lists as stores *)

Lemma update_length (l : Heap.ref) (c : Heap.cell) (st : Heap.store) :
  List.length (Heap.update l c st) = List.length st.
Proof.
  revert l. induction st as [| c0 st IH]; intros [| l]; cbn; auto.
Qed.

Lemma firstn_update (base : nat) (l : Heap.ref) (c : Heap.cell)
  (st : Heap.store) :
  (base <= l)%nat -> firstn base (Heap.update l c st) = firstn base st.
Proof.
  revert base l. induction st as [| c0 st IH]; intros base l Hle.
  - now destruct l.
  - destruct l as [| l].
    + assert (base = 0%nat) as -> by lia. reflexivity.
    + destruct base as [| base]; [reflexivity |].
      cbn. f_equal. apply IH. lia.
Qed.

Lemma nth_error_app_Some (st suffix : Heap.store) (r : Heap.ref)
  (c : Heap.cell) :
  nth_error st r = Some c -> nth_error (st ++ suffix) r = Some c.
Proof.
  intros H. rewrite nth_error_app1; [exact H |].
  apply nth_error_Some. congruence.
Qed.

Lemma nth_error_app_length (st rest : Heap.store) (c : Heap.cell) :
  nth_error (st ++ c :: rest) (List.length st) = Some c.
Proof.
  rewrite nth_error_app2 by lia. now rewrite Nat.sub_diag.
Qed.

Lemma update_app_length (st rest : Heap.store) (c c' : Heap.cell) :
  Heap.update (List.length st) c' (st ++ c :: rest) = st ++ c' :: rest.
Proof.
  induction st as [| c0 st IH]; cbn; [reflexivity | now rewrite IH].
Qed.

(** ** Each operation on a store of a known shape *)


Lemma read_app {A : Type} (st suffix : Heap.store) (r : Heap.ref)
  (n : Heap.node) (member : Heap.node -> A) :
  nth_error st r = Some (Heap.Schema_cell n) ->
  Heap.read r member (st ++ suffix) = (Normal (member n), st ++ suffix).
Proof.
  intros H. unfold Heap.read.
  now rewrite (nth_error_app_Some st suffix r _ H).
Qed.

Lemma read_here {A : Type} (st : Heap.store) (r : Heap.ref)
  (n : Heap.node) (member : Heap.node -> A) :
  nth_error st r = Some (Heap.Schema_cell n) ->
  Heap.read r member st = (Normal (member n), st).
Proof. intros H. unfold Heap.read. now rewrite H. Qed.

Lemma array_push_app (st rest : Heap.store) (elements items : list string) :
  Heap.array_push (List.length st) items
    (st ++ Heap.Array_cell elements :: rest)
  = (Normal tt, st ++ Heap.Array_cell (elements ++ items) :: rest).
Proof.
  unfold Heap.array_push.
  now rewrite nth_error_app_length, update_app_length.
Qed.

Lemma array_read_app (st rest : Heap.store) (elements : list string) :
  Heap.array_read (List.length st) (st ++ Heap.Array_cell elements :: rest)
  = (Normal elements, st ++ Heap.Array_cell elements :: rest).
Proof. unfold Heap.array_read. now rewrite nth_error_app_length. Qed.

Lemma bindM_normal {A B : Type} (m : Heap.M A) (k : A -> Heap.M B)
  (st st' : Heap.store) (a : A) :
  m st = (Normal a, st') -> Heap.bindM m k st = k a st'.
Proof. intros H. unfold Heap.bindM. now rewrite H. Qed.

Lemma bindM_throw {A B : Type} (m : Heap.M A) (k : A -> Heap.M B)
  (st st' : Heap.store) (e : exn) :
  m st = (Throw e, st') -> Heap.bindM m k st = (Throw e, st').
Proof. intros H. unfold Heap.bindM. now rewrite H. Qed.

(** A reference that holds a schema tree holds a schema object with the
    tag and the required names of its root, and references that hold the
    declared child schemas. *)
Lemma represents_node (st : Heap.store) (s : schema) (r : Heap.ref) :
  HeapValidator.represents st s r ->
  exists n,
    nth_error st r = Some (Heap.Schema_cell n) /\
    Heap.type n = type s /\
    Heap.required n = required s /\
    match properties s, Heap.properties n with
    | None, None => True
    | Some entries, Some refs =>
        HeapValidator.entries_represented st entries refs
    | _, _ => False
    end.
Proof.
  destruct s as [t props req elt fmt en]. cbn [HeapValidator.represents].
  destruct (nth_error st r) as [[n | xs] |]; try tauto.
  intros (Ht & Hr & _ & _ & Hp & _).
  exists n. repeat split; try assumption.
Qed.

(** On a reference that holds a schema object with the tag of [c],
    [validateProperty] allocates one array, at the end of the store, and
    leaves in it the errors of [validateProperty] on [c]. *)
Lemma validateProperty_run (st : Heap.store) (c : schema) (r : Heap.ref)
  (n : Heap.node) (x : value) :
  nth_error st r = Some (Heap.Schema_cell n) ->
  Heap.type n = type c ->
  HeapValidator.validateProperty x r st
  = (Normal (List.length st),
     st ++ [Heap.Array_cell (validateProperty x c)]).
Proof.
  intros Hn Ht.
  unfold HeapValidator.validateProperty, validateProperty, push.
  rewrite (bindM_normal Heap.new_array _ st (st ++ [Heap.Array_cell []])
             (List.length st) eq_refl).
  repeat
    (rewrite (bindM_normal _ _ _ _ _ (read_app st _ r n _ Hn)), Ht;
     match goal with
     | |- context [if ?b then _ else _] => destruct b
     end;
     [rewrite (bindM_normal _ _ _ _ _ (array_push_app st [] [] _));
      reflexivity |]).
  reflexivity.
Qed.

(** ** The frame rules *)

Import HeapValidator (framed).

Lemma framed_ret {A : Type} (base : nat) (a : A) (post : A -> Prop) :
  post a -> framed base (Heap.ret a) post.
Proof. intros Ha st Hst. cbn. auto. Qed.

Lemma framed_lift {A : Type} (base : nat) (c : completion A) :
  framed base (Heap.lift c) (fun _ => True).
Proof. intros st Hst. cbn. destruct c; auto. Qed.

Lemma framed_read {A : Type} (base : nat) (r : Heap.ref)
  (member : Heap.node -> A) :
  framed base (Heap.read r member) (fun _ => True).
Proof.
  intros st Hst. unfold Heap.read.
  destruct (nth_error st r) as [[n | xs] |]; cbn; auto.
Qed.

Lemma framed_array_read (base : nat) (arr : Heap.ref) :
  framed base (Heap.array_read arr) (fun _ => True).
Proof.
  intros st Hst. unfold Heap.array_read.
  destruct (nth_error st arr) as [[n | xs] |]; cbn; auto.
Qed.

Lemma framed_new_array (base : nat) :
  framed base Heap.new_array (fun r => (base <= r)%nat).
Proof.
  intros st Hst. unfold Heap.new_array. cbn [fst snd].
  split; [| split].
  - rewrite firstn_app.
    replace (base - List.length st)%nat with 0%nat by lia.
    cbn [firstn]. apply app_nil_r.
  - rewrite length_app. lia.
  - exact Hst.
Qed.

Lemma framed_array_push (base : nat) (arr : Heap.ref) (items : list string) :
  (base <= arr)%nat ->
  framed base (Heap.array_push arr items) (fun _ => True).
Proof.
  intros Harr st Hst. unfold Heap.array_push.
  destruct (nth_error st arr) as [[n | xs] |]; cbn [fst snd]; auto.
  split; [| split].
  - now apply firstn_update.
  - now rewrite update_length.
  - exact I.
Qed.

Lemma framed_bind {A B : Type} (base : nat) (m : Heap.M A)
  (k : A -> Heap.M B) (P : A -> Prop) (Q : B -> Prop) :
  framed base m P ->
  (forall a, P a -> framed base (k a) Q) ->
  framed base (Heap.bindM m k) Q.
Proof.
  intros Hm Hk st Hst. unfold Heap.bindM.
  destruct (Hm st Hst) as (Hfirst & Hlen & Hpost).
  destruct (m st) as [[a | e] st']; cbn [fst snd] in *.
  - destruct (Hk a Hpost st' Hlen) as (Hfirst' & Hlen' & Hpost').
    split; [congruence | split; assumption].
  - auto.
Qed.

Lemma framed_for_ofM {A : Type} (base : nat) (xs : list A)
  (body : A -> Heap.M unit) :
  (forall x, framed base (body x) (fun _ => True)) ->
  framed base (Heap.for_ofM xs body) (fun _ => True).
Proof.
  intros Hbody. induction xs as [| x xs IH]; cbn [Heap.for_ofM].
  - now apply framed_ret.
  - eapply framed_bind; [apply Hbody | intros _ _; exact IH].
Qed.

Ltac framed :=
  repeat
    match goal with
    | |- framed _ (Heap.bindM Heap.new_array _) _ =>
        eapply framed_bind; [apply framed_new_array | intros ? ?]
    | |- framed _ (Heap.bindM (Heap.read _ _) _) _ =>
        eapply framed_bind; [apply framed_read | intros ? _]
    | |- framed _ (Heap.bindM (Heap.array_read _) _) _ =>
        eapply framed_bind; [apply framed_array_read | intros ? _]
    | |- framed _ (Heap.bindM (Heap.lift _) _) _ =>
        eapply framed_bind; [apply framed_lift | intros ? _]
    | |- framed _ (Heap.bindM (Heap.array_push _ _) _) _ =>
        eapply framed_bind;
          [apply framed_array_push; assumption | intros ? _]
    | |- framed _ (Heap.array_push _ _) _ =>
        apply framed_array_push; assumption
    | |- framed _ (Heap.ret _) _ => apply framed_ret; auto
    | |- framed _ (Heap.lift _) _ => apply framed_lift
    | |- framed _ (if ?b then _ else _) _ => destruct b
    | |- framed _ (match ?o with Some _ => _ | None => _ end) _ =>
        destruct o
    end.

(** [validateProperty] writes above the base only, and the array it
    returns is above the base. *)
Lemma validateProperty_framed (base : nat) (x : value) (r : Heap.ref) :
  framed base (HeapValidator.validateProperty x r)
    (fun errors => (base <= errors)%nat).
Proof. unfold HeapValidator.validateProperty. framed. Qed.

Section WithMembers.

Variable inherited : value -> list (string * value).

Lemma check_required_framed (base : nat) (v : value)
  (names : list string) (errors : Heap.ref) :
  (base <= errors)%nat ->
  framed base (HeapValidator.check_required inherited v names errors)
    (fun _ => True).
Proof.
  intros He. unfold HeapValidator.check_required.
  apply framed_for_ofM. intros field. framed.
Qed.

Lemma check_properties_framed (base : nat) (v : value)
  (refs : list (string * Heap.ref)) (errors : Heap.ref) :
  (base <= errors)%nat ->
  framed base (HeapValidator.check_properties inherited v refs errors)
    (fun _ => True).
Proof.
  intros He. unfold HeapValidator.check_properties.
  apply framed_for_ofM. intros [key propSchema]. framed.
  eapply framed_bind; [apply validateProperty_framed | intros ? _].
  framed.
Qed.

Lemma validateAgainstSchema_framed (base : nat) (v : value) (r : Heap.ref) :
  framed base (HeapValidator.validateAgainstSchema inherited v r)
    (fun _ => True).
Proof.
  unfold HeapValidator.validateAgainstSchema. framed.
  eapply framed_bind with (P := fun _ => True).
  - framed. now apply check_required_framed.
  - intros _ _. framed.
    eapply framed_bind with (P := fun _ => True).
    + framed. now apply check_properties_framed.
    + intros _ _. framed.
Qed.

(** ** The run of the validator on a store that holds the schema *)

Lemma check_required_run (st : Heap.store) (v : value)
  (names : list string) :
  forall (errs : list string) (g : Heap.store),
  exists errs'',
    HeapValidator.check_required inherited v names (List.length st)
      (st ++ Heap.Array_cell errs :: g)
    = (Heap.outcome (check_required inherited v names errs) tt,
       st ++ Heap.Array_cell errs'' :: g) /\
    forall errs',
      check_required inherited v names errs = Normal errs' -> errs'' = errs'.
Proof.
  unfold HeapValidator.check_required, check_required.
  induction names as [| field names IH]; intros errs g;
    cbn [Heap.for_ofM for_of].
  - exists errs. split; [reflexivity | congruence].
  - destruct (js_in inherited field v) as [[|] | e] eqn:Hin; cbn [bind negb].
    + destruct (IH errs g) as (errs'' & Hrun & Hspec).
      exists errs''. split; [| exact Hspec].
      rewrite (bindM_normal _ _ _ (st ++ Heap.Array_cell errs :: g) tt);
        [exact Hrun |].
      now rewrite (bindM_normal (Heap.lift _) _ _ _ true eq_refl).
    + destruct (IH (push errs ["Missing required field: " +++ field]) g)
        as (errs'' & Hrun & Hspec).
      exists errs''. split; [| exact Hspec].
      rewrite (bindM_normal _ _ _
                 (st ++ Heap.Array_cell
                          (errs ++ ["Missing required field: " +++ field])
                       :: g) tt);
        [exact Hrun |].
      rewrite (bindM_normal (Heap.lift _) _ _ _ false eq_refl).
      apply array_push_app.
    + exists errs. split; [| discriminate].
      now rewrite (bindM_throw _ _ _ _ _
                     (bindM_throw (Heap.lift _) _ _ _ e eq_refl)).
Qed.

(** One turn of the loop over the declared properties, the name present:
    [validateProperty] allocates its array at the end of the store and the
    errors array takes its elements. *)
Lemma property_step (st g : Heap.store) (v x : value) (key : string)
  (c : schema) (r' : Heap.ref) (n : Heap.node) (errs : list string) :
  nth_error st r' = Some (Heap.Schema_cell n) ->
  Heap.type n = type c ->
  (v0 <~ Heap.lift (Normal x) ;;
   propErrors <~ HeapValidator.validateProperty v0 r' ;;
   items <~ Heap.array_read propErrors ;;
   Heap.array_push (List.length st) items)
    (st ++ Heap.Array_cell errs :: g)
  = (Normal tt,
     st ++ Heap.Array_cell (errs ++ validateProperty x c)
        :: (g ++ [Heap.Array_cell (validateProperty x c)])).
Proof.
  intros Hn Ht.
  rewrite (bindM_normal (Heap.lift _) _ _ _ x eq_refl).
  rewrite (bindM_normal _ _ _ _ _
             (validateProperty_run _ c r' n x
                (nth_error_app_Some st _ r' _ Hn) Ht)).
  rewrite (bindM_normal _ _ _ _ _ (array_read_app _ [] _)).
  rewrite <- app_assoc. cbn [app].
  apply array_push_app.
Qed.

Lemma check_properties_run (st : Heap.store) (v : value)
  (entries : list (string * schema)) :
  forall (refs : list (string * Heap.ref)) (errs : list string)
         (g : Heap.store),
    HeapValidator.entries_represented st entries refs ->
    exists errs'' g',
      HeapValidator.check_properties inherited v refs (List.length st)
        (st ++ Heap.Array_cell errs :: g)
      = (Heap.outcome (check_properties inherited v entries errs) tt,
         st ++ Heap.Array_cell errs'' :: g') /\
      forall errs',
        check_properties inherited v entries errs = Normal errs' ->
        errs'' = errs'.
Proof.
  unfold HeapValidator.check_properties, check_properties.
  induction entries as [| [key c] entries IH];
    intros [| [key' r'] refs] errs g H; cbn in H; try contradiction;
    cbn [Heap.for_ofM for_of].
  - exists errs, g. split; [reflexivity | congruence].
  - destruct H as (<- & Hc & Hrest).
    apply represents_node in Hc as (n & Hn & Ht & _).
    destruct (js_in inherited key v) as [[|] | e] eqn:Hin; cbn [bind].
    + destruct (js_get inherited v key) as [x | e] eqn:Hget; cbn [bind].
      * destruct (IH refs (push errs (validateProperty x c))
                    (g ++ [Heap.Array_cell (validateProperty x c)]) Hrest)
          as (errs'' & g' & Hrun & Hspec).
        exists errs'', g'. split; [| exact Hspec].
        rewrite (bindM_normal _ _ _
                   (st ++ Heap.Array_cell (errs ++ validateProperty x c)
                       :: (g ++ [Heap.Array_cell (validateProperty x c)]))
                   tt);
          [exact Hrun |].
        rewrite (bindM_normal (Heap.lift _) _ _ _ true eq_refl).
        now apply (property_step st g v x key c r' n errs).
      * exists errs, g. split; [| discriminate].
        apply bindM_throw.
        rewrite (bindM_normal (Heap.lift _) _ _ _ true eq_refl).
        now rewrite (bindM_throw (Heap.lift _) _ _ _ e eq_refl).
    + destruct (IH refs errs g Hrest) as (errs'' & g' & Hrun & Hspec).
      exists errs'', g'. split; [| exact Hspec].
      rewrite (bindM_normal _ _ _ (st ++ Heap.Array_cell errs :: g) tt);
        [exact Hrun |].
      now rewrite (bindM_normal (Heap.lift _) _ _ _ false eq_refl).
    + exists errs, g. split; [| discriminate].
      now rewrite (bindM_throw _ _ _ _ _
                     (bindM_throw (Heap.lift _) _ _ _ e eq_refl)).
Qed.

Lemma required_phase_run (st : Heap.store) (r : Heap.ref) (n : Heap.node)
  (v : value) (s : schema) :
  nth_error st r = Some (Heap.Schema_cell n) ->
  Heap.required n = required s ->
  forall (errs : list string) (g : Heap.store),
  exists errs'',
    match required s with
    | Some _ =>
        names <~ Heap.read r Heap.required ;;
        match names with
        | Some names =>
            HeapValidator.check_required inherited v names (List.length st)
        | None => Heap.lift (Throw (TypeError "iteration of undefined"))
        end
    | None => Heap.ret tt
    end (st ++ Heap.Array_cell errs :: g)
    = (Heap.outcome match required s with
               | Some req => check_required inherited v req errs
               | None => Normal errs
               end tt,
       st ++ Heap.Array_cell errs'' :: g) /\
    forall errs',
      match required s with
      | Some req => check_required inherited v req errs
      | None => Normal errs
      end = Normal errs' -> errs'' = errs'.
Proof.
  intros Hn Hr errs g.
  destruct (required s) as [names |].
  - destruct (check_required_run st v names errs g)
      as (errs'' & Hrun & Hspec).
    exists errs''. split; [| exact Hspec].
    now rewrite (bindM_normal _ _ _ _ _ (read_app st _ r n _ Hn)), Hr.
  - exists errs. split; [reflexivity | congruence].
Qed.

Lemma properties_phase_run (st : Heap.store) (r : Heap.ref) (n : Heap.node)
  (v : value) (s : schema) :
  nth_error st r = Some (Heap.Schema_cell n) ->
  match properties s, Heap.properties n with
  | None, None => True
  | Some entries, Some refs =>
      HeapValidator.entries_represented st entries refs
  | _, _ => False
  end ->
  forall (errs : list string) (g : Heap.store),
  exists errs'' g',
    match Heap.properties n with
    | Some _ =>
        props <~ Heap.read r Heap.properties ;;
        match props with
        | Some entries =>
            HeapValidator.check_properties inherited v entries
              (List.length st)
        | None => Heap.lift (Throw (TypeError "Object.entries of undefined"))
        end
    | None => Heap.ret tt
    end (st ++ Heap.Array_cell errs :: g)
    = (Heap.outcome match properties s with
               | Some props => check_properties inherited v props errs
               | None => Normal errs
               end tt,
       st ++ Heap.Array_cell errs'' :: g') /\
    forall errs',
      match properties s with
      | Some props => check_properties inherited v props errs
      | None => Normal errs
      end = Normal errs' -> errs'' = errs'.
Proof.
  intros Hn Hp errs g.
  destruct (properties s) as [entries |],
           (Heap.properties n) as [refs |] eqn:Hrefs; try contradiction.
  - destruct (check_properties_run st v entries refs errs g Hp)
      as (errs'' & g' & Hrun & Hspec).
    exists errs'', g'. split; [| exact Hspec].
    now rewrite (bindM_normal _ _ _ _ _ (read_app st _ r n _ Hn)), Hrefs.
  - exists errs, g. split; [reflexivity | congruence].
Qed.

(** On a reference that holds the schema tree [s], the validator
    allocates its errors array at the end of the store, writes nowhere
    else in what was there, and returns what [validateAgainstSchema]
    returns on [s], the errors in that array. *)
Lemma validateAgainstSchema_run (st : Heap.store) (s : schema)
  (r : Heap.ref) (v : value) :
  HeapValidator.represents st s r ->
  exists errs g,
    HeapValidator.validateAgainstSchema inherited v r st
    = (match validateAgainstSchema inherited v s with
       | Normal res =>
           Normal {| HeapValidator.valid := valid res;
                     HeapValidator.errors := List.length st |}
       | Throw e => Throw e
       end,
       st ++ Heap.Array_cell errs :: g) /\
    forall res,
      validateAgainstSchema inherited v s = Normal res -> errs = errors res.
Proof.
  intros H. apply represents_node in H as (n & Hn & Ht & Hr & Hp).
  unfold HeapValidator.validateAgainstSchema, validateAgainstSchema, push.
  rewrite (bindM_normal Heap.new_array _ st (st ++ [Heap.Array_cell []])
             (List.length st) eq_refl).
  rewrite (bindM_normal _ _ _ _ _ (read_app st _ r n _ Hn)), Ht.
  destruct (type s =? "object")%string.
  - destruct (negb (typeof v =? "object")%string || Array_isArray v).
    + rewrite (bindM_normal _ _ _ _ _ (array_push_app st [] [] _)).
      eexists _, []. split; [reflexivity |].
      intros res Hres. injection Hres as <-. reflexivity.
    + rewrite (bindM_normal _ _ _ _ _ (read_app st _ r n _ Hn)), Hr.
      destruct (required_phase_run st r n v s Hn Hr [] [])
        as (errs1 & Hrun1 & Hspec1).
      destruct (match required s with
                | Some req => check_required inherited v req []
                | None => Normal []
                end) as [errs1' | e]; cbn [Heap.outcome bind] in *.
      * rewrite (bindM_normal _ _ _ _ _ Hrun1).
        rewrite (Hspec1 errs1' eq_refl). clear Hrun1 Hspec1.
        rewrite (bindM_normal _ _ _ _ _ (read_app st _ r n _ Hn)).
        destruct (properties_phase_run st r n v s Hn Hp errs1' [])
          as (errs2 & g2 & Hrun2 & Hspec2).
        destruct (match properties s with
                  | Some props => check_properties inherited v props errs1'
                  | None => Normal errs1'
                  end) as [errs2' | e]; cbn [Heap.outcome bind] in *.
        -- rewrite (bindM_normal _ _ _ _ _ Hrun2).
           rewrite (Hspec2 errs2' eq_refl).
           rewrite (bindM_normal _ _ _ _ _ (array_read_app st g2 errs2')).
           exists errs2', g2. split; [reflexivity |].
           intros res Hres. injection Hres as <-. reflexivity.
        -- rewrite (bindM_throw _ _ _ _ _ Hrun2).
           exists errs2, g2. split; [reflexivity | discriminate].
      * rewrite (bindM_throw _ _ _ _ _ Hrun1).
        exists errs1, []. split; [reflexivity | discriminate].
  - rewrite (bindM_normal _ _ _ _ _ (array_read_app st [] [])).
    exists [], []. split; [reflexivity |].
    intros res Hres. injection Hres as <-. reflexivity.
Qed.

(** A schema tree that a store holds is held by every extension of the
    store. *)
Lemma represents_app (st suffix : Heap.store) :
  forall (s : schema) (r : Heap.ref),
    HeapValidator.represents st s r ->
    HeapValidator.represents (st ++ suffix) s r.
Proof.
  fix IH 1. intros [t props req elt fmt en] r.
  cbn [HeapValidator.represents].
  destruct (nth_error st r) as [[n | xs] |] eqn:Hn; try contradiction.
  rewrite (nth_error_app_Some st suffix r _ Hn).
  intros (Ht & Hr & Hf & He & Hp & Hi).
  repeat (split; [assumption |]). split.
  - destruct props as [entries |], (Heap.properties n) as [refs |];
      try assumption.
    revert refs Hp.
    induction entries as [| [k child] entries IHentries];
      intros [| [k' r'] refs] Hp; try assumption.
    destruct Hp as (Hk & Hchild & Hrest).
    split; [exact Hk | split].
    + apply IH. exact Hchild.
    + apply IHentries. exact Hrest.
  - destruct elt as [child |], (Heap.items n) as [r' |]; try assumption.
    apply IH. exact Hi.
Qed.

(** C8.  Running the validator leaves every object that was in the store
    as it was: the store after the call is the store before it, followed
    by the arrays the call allocated.  So a schema tree held at the
    reference passed in is, node for node, still held there; and on that
    tree the call returns what [validateAgainstSchema] returns, its errors
    in a new array. *)
Theorem validateAgainstSchema_leaves_schema (v : value) (r : Heap.ref)
  (st : Heap.store) :
  (exists allocated,
      snd (HeapValidator.validateAgainstSchema inherited v r st)
      = st ++ allocated) /\
  forall s,
    HeapValidator.represents st s r ->
    HeapValidator.represents
      (snd (HeapValidator.validateAgainstSchema inherited v r st)) s r /\
    match validateAgainstSchema inherited v s with
    | Normal res =>
        exists result,
          fst (HeapValidator.validateAgainstSchema inherited v r st)
          = Normal result /\
          HeapValidator.valid result = valid res /\
          nth_error
            (snd (HeapValidator.validateAgainstSchema inherited v r st))
            (HeapValidator.errors result)
          = Some (Heap.Array_cell (errors res))
    | Throw e =>
        fst (HeapValidator.validateAgainstSchema inherited v r st) = Throw e
    end.
Proof.
  assert (exists allocated,
             snd (HeapValidator.validateAgainstSchema inherited v r st)
             = st ++ allocated) as Hframe.
  { destruct (validateAgainstSchema_framed (List.length st) v r
                st (le_n _)) as (Hfirst & Hlen & _).
    exists (skipn (List.length st)
              (snd (HeapValidator.validateAgainstSchema inherited v r st))).
    rewrite <- (firstn_skipn (List.length st)
                  (snd (HeapValidator.validateAgainstSchema inherited v r st)))
      at 1.
    rewrite Hfirst. now rewrite firstn_all. }
  split; [exact Hframe |].
  intros s Hs. split.
  - destruct Hframe as (allocated & ->). now apply represents_app.
  - destruct (validateAgainstSchema_run st s r v Hs)
      as (errs & g & Hrun & Hspec).
    rewrite Hrun. cbn [fst snd].
    destruct (validateAgainstSchema inherited v s) as [res | e];
      [| reflexivity].
    eexists. split; [reflexivity |]. cbn [HeapValidator.valid
                                          HeapValidator.errors].
    split; [reflexivity |].
    rewrite nth_error_app_length. now rewrite (Hspec res eq_refl).
Qed.

End WithMembers.

End HeapFacts.

Lemma validateAgainstSchema_leaves_schema_witness :
  HeapValidator.represents HeapValidator.category_store CategorySchema 0%nat /\
  HeapValidator.represents
    (snd (HeapValidator.validateAgainstSchema plain_inherited
            (JObject [("id", JString "five")]) 0%nat
            HeapValidator.category_store))
    CategorySchema 0%nat.
Proof.
  assert (HeapValidator.represents HeapValidator.category_store
            CategorySchema 0%nat) as Hs
    by (simpl; repeat split; reflexivity).
  split; [exact Hs |].
  exact (proj1 (proj2 (HeapFacts.validateAgainstSchema_leaves_schema
                         plain_inherited (JObject [("id", JString "five")])
                         0%nat HeapValidator.category_store)
                  CategorySchema Hs)).
Defined.

(** The run of the witness: the store after the call is the store of
    [CategorySchema] followed by the errors array and the array of the one
    [validateProperty] call. *)
Lemma validateAgainstSchema_category_store_run :
  HeapValidator.validateAgainstSchema plain_inherited
    (JObject [("id", JString "five")]) 0%nat HeapValidator.category_store
  = (Normal {| HeapValidator.valid := false; HeapValidator.errors := 3%nat |},
     HeapValidator.category_store
     ++ [ Heap.Array_cell ["Missing required field: name";
                           "Expected integer but got string"];
          Heap.Array_cell ["Expected integer but got string"] ]).
Proof. reflexivity. Qed.
(** * The claims about the client *)

Section ClientClaims.

Variable engine_String : value -> completion string.

(** The loop of [buildUrl] over the parameters: the entries whose value is
    neither undefined nor null, each with the text of its value, are
    appended in order. *)
Lemma queryParams_loop (entries : list (string * value)) :
  forall q : URLSearchParams,
    for_of entries q (fun queryParams entry =>
      let '(key, value) := entry in
      if negb (nullish value)
      then
        text <- js_String engine_String value ;;
        Normal (append queryParams key text)
      else Normal queryParams)
    = (pairs <- traverse
                  (fun entry =>
                     text <- js_String engine_String (snd entry) ;;
                     Normal (fst entry, text))
                  (filter (fun entry => negb (nullish (snd entry))) entries) ;;
       Normal (q ++ pairs)).
Proof.
  induction entries as [| [key v] entries IH]; intros q;
    cbn [for_of filter traverse bind fst snd].
  - now rewrite app_nil_r.
  - destruct (nullish v); cbn [negb bind traverse fst snd].
    + apply IH.
    + destruct (js_String engine_String v) as [text | e]; cbn [bind];
        [| reflexivity].
      rewrite IH. unfold append.
      destruct (traverse _ _) as [pairs | e]; cbn [bind]; [| reflexivity].
      now rewrite <- app_assoc.
Qed.

Lemma queryParams_of_params (entries : list (string * value))
  (apiKey : option string) :
  queryParams_of engine_String (Some entries) apiKey
  = (pairs <- traverse
                (fun entry =>
                   text <- js_String engine_String (snd entry) ;;
                   Normal (fst entry, text))
                (filter (fun entry => negb (nullish (snd entry)))
                   (entries_order entries)) ;;
     Normal (api_key_pair apiKey ++ pairs)).
Proof.
  unfold queryParams_of. rewrite queryParams_loop.
  destruct apiKey as [key |]; [| reflexivity].
  unfold api_key_pair. destruct (truthy (Some key)); reflexivity.
Qed.

Lemma has_key_app {A : Type} (k : string) (xs ys : list (string * A)) :
  has_key k (xs ++ ys) = has_key k xs || has_key k ys.
Proof.
  unfold has_key. induction xs as [| [k' a] xs IH]; cbn [lookup app].
  - reflexivity.
  - destruct (k =? k')%string; [reflexivity | exact IH].
Qed.

Lemma has_key_api_key_pair (name : string) (apiKey : option string) :
  name <> "api_key" -> has_key name (api_key_pair apiKey) = false.
Proof.
  intros Hne. unfold api_key_pair.
  destruct apiKey as [key |]; [| reflexivity].
  destruct (truthy (Some key)); [| reflexivity].
  unfold has_key. cbn [lookup].
  now destruct (String.eqb_spec name "api_key").
Qed.

Lemma traverse_keys (entries : list (string * value)) :
  forall pairs,
    traverse (fun entry =>
                text <- js_String engine_String (snd entry) ;;
                Normal (fst entry, text)) entries = Normal pairs ->
    map fst pairs = map fst entries.
Proof.
  induction entries as [| [key v] entries IH]; intros pairs;
    cbn [traverse fst snd].
  - intros H. injection H as <-. reflexivity.
  - destruct (js_String engine_String v) as [text | e]; cbn [bind];
      [| discriminate].
    destruct (traverse _ entries) as [rest | e]; cbn [bind];
      [| discriminate].
    intros H. injection H as <-. cbn [map fst]. f_equal. now apply IH.
Qed.

Lemma has_key_In {A : Type} (k : string) (xs : list (string * A)) :
  has_key k xs = true -> In k (map fst xs).
Proof.
  unfold has_key. induction xs as [| [k' a] xs IH]; cbn [lookup map fst].
  - discriminate.
  - destruct (String.eqb_spec k k') as [-> |]; [now left |].
    intros H. right. now apply IH.
Qed.

Lemma truthy_append (a b : string) (c : ascii) :
  truthy (Some (a +++ String c b)) = true.
Proof. now destruct a. Qed.

Lemma URLSearchParams_toString_truthy (q : URLSearchParams) :
  truthy (Some (URLSearchParams_toString q))
  = match q with
    | [] => false
    | _ :: _ => true
    end.
Proof.
  destruct q as [| [k v] [| p rest]]; [reflexivity | |];
    cbn [URLSearchParams_toString]; apply truthy_append.
Qed.

Lemma buildUrl_of_query (this : APIClient) (endpoint : string)
  (params : option (list (string * value))) (apiKey : option string)
  (q : URLSearchParams) :
  queryParams_of engine_String params apiKey = Normal q ->
  buildUrl engine_String this endpoint params apiKey
  = Normal match q with
           | [] => baseURL this +++ endpoint
           | _ :: _ =>
               (baseURL this +++ endpoint) +++ "?"
               +++ URLSearchParams_toString q
           end.
Proof.
  intros Hq. unfold buildUrl. rewrite Hq. cbn [bind].
  rewrite URLSearchParams_toString_truthy. now destruct q.
Qed.

(** [buildUrl] on a parameter object, by the pairs of its query. *)
Lemma buildUrl_of_params (this : APIClient) (endpoint : string)
  (entries : list (string * value)) (apiKey : option string) :
  buildUrl engine_String this endpoint (Some entries) apiKey
  = (pairs <- parameter_pairs engine_String (entries_order entries) ;;
     Normal (with_query (baseURL this +++ endpoint)
               (api_key_pair apiKey ++ pairs))).
Proof.
  pose proof (queryParams_of_params entries apiKey) as Hq.
  fold (parameter_pairs engine_String (entries_order entries)) in Hq.
  destruct (parameter_pairs engine_String (entries_order entries))
    as [pairs | e] eqn:Hp;
    cbn [bind] in *.
  - now rewrite (buildUrl_of_query this endpoint _ _ _ Hq).
  - unfold buildUrl. now rewrite Hq.
Qed.

(** An index entry put among the sorted ones is the first of its key. *)
Lemma lookup_insert_index {A : Type} (k : string) (n : N)
  (entry : string * A) (sorted : list (N * (string * A))) :
  array_index (fst entry) = Some n ->
  Forall (fun ne => array_index (fst (snd ne)) = Some (fst ne)) sorted ->
  lookup k (map snd (insert_index n entry sorted))
  = if (k =? fst entry)%string then Some (snd entry)
    else lookup k (map snd sorted).
Proof.
  intros Hn Hall. destruct entry as [k' v]. cbn [fst snd] in *.
  induction sorted as [| [m [k'' w]] rest IH];
    cbn [insert_index map snd lookup]; [reflexivity |].
  destruct (n <=? m)%N eqn:Hle; cbn [map snd lookup]; [reflexivity |].
  apply Forall_cons_iff in Hall as [Hm Hrest]. cbn [fst snd] in Hm.
  rewrite (IH Hrest).
  destruct (String.eqb_spec k k'') as [-> | Hne]; [| reflexivity].
  destruct (String.eqb_spec k'' k') as [-> | Hne']; [| reflexivity].
  rewrite Hn in Hm. injection Hm as ->.
  rewrite N.leb_refl in Hle. discriminate.
Qed.

Lemma insert_index_indices {A : Type} (n : N) (entry : string * A)
  (sorted : list (N * (string * A))) :
  array_index (fst entry) = Some n ->
  Forall (fun ne => array_index (fst (snd ne)) = Some (fst ne)) sorted ->
  Forall (fun ne => array_index (fst (snd ne)) = Some (fst ne))
    (insert_index n entry sorted).
Proof.
  intros Hn Hall.
  induction sorted as [| [m e] rest IH]; cbn [insert_index].
  - now repeat constructor.
  - destruct (n <=? m)%N.
    + now constructor.
    + apply Forall_cons_iff in Hall as [Hm Hrest].
      constructor; [exact Hm | now apply IH].
Qed.

Lemma index_entries_indices {A : Type} (created : list (string * A)) :
  Forall (fun ne => array_index (fst (snd ne)) = Some (fst ne))
    (index_entries created).
Proof.
  induction created as [| entry rest IH]; cbn [index_entries];
    [constructor |].
  destruct (array_index (fst entry)) as [n |] eqn:Hn; [| exact IH].
  now apply insert_index_indices.
Qed.

Lemma lookup_app_first {A : Type} (k : string) (xs ys : list (string * A)) :
  lookup k (xs ++ ys)
  = match lookup k xs with
    | Some a => Some a
    | None => lookup k ys
    end.
Proof.
  induction xs as [| [k' a] xs IH]; cbn [lookup app]; [reflexivity |].
  destruct (k =? k')%string; [reflexivity | exact IH].
Qed.

Lemma lookup_index_entries_none {A : Type} (k : string)
  (sorted : list (N * (string * A))) :
  array_index k = None ->
  Forall (fun ne => array_index (fst (snd ne)) = Some (fst ne)) sorted ->
  lookup k (map snd sorted) = None.
Proof.
  intros Hk Hall.
  induction Hall as [| [m [k' w]] sorted Hm _ IH]; [reflexivity |].
  cbn [map snd lookup]. cbn [fst snd] in Hm.
  destruct (String.eqb_spec k k') as [-> | _]; [congruence | exact IH].
Qed.

(** The order of the properties does not change what is read at a key. *)
Lemma lookup_entries_order {A : Type} (k : string)
  (created : list (string * A)) :
  lookup k (entries_order created) = lookup k created.
Proof.
  unfold entries_order. rewrite lookup_app_first.
  induction created as [| [k' v] rest IH];
    cbn [index_entries filter fst lookup map]; [reflexivity |].
  destruct (array_index k') as [n |] eqn:Hn.
  - rewrite (lookup_insert_index k n (k', v) _ Hn
               (index_entries_indices rest)).
    cbn [fst snd]. destruct (k =? k')%string; [reflexivity | exact IH].
  - cbn [lookup].
    destruct (String.eqb_spec k k') as [-> | Hne]; [| exact IH].
    now rewrite (lookup_index_entries_none k' _ Hn
                   (index_entries_indices rest)).
Qed.

Lemma In_insert_index {A : Type} (x : N * (string * A)) (n : N)
  (entry : string * A) (sorted : list (N * (string * A))) :
  In x (insert_index n entry sorted) -> x = (n, entry) \/ In x sorted.
Proof.
  induction sorted as [| [m e] rest IH]; cbn [insert_index].
  - intros [<- | []]. now left.
  - destruct (n <=? m)%N.
    + intros [<- | H]; [now left | now right].
    + intros [<- | H]; [right; now left |].
      destruct (IH H) as [-> | Hin]; [now left | right; now right].
Qed.

(** The properties yielded are properties of the object. *)
Lemma In_entries_order {A : Type} (entry : string * A)
  (created : list (string * A)) :
  In entry (entries_order created) -> In entry created.
Proof.
  unfold entries_order. rewrite in_app_iff. intros [H | H].
  - apply in_map_iff in H as ([n e] & <- & Hin). cbn [snd].
    induction created as [| e' rest IH]; cbn [index_entries] in Hin;
      [contradiction |].
    destruct (array_index (fst e')) as [m |].
    + apply In_insert_index in Hin as [Heq | Hin].
      * injection Heq as _ ->. now left.
      * right. now apply IH.
    + right. now apply IH.
  - now apply filter_In in H as [H _].
Qed.

(** Without a key that is an array index the properties are yielded in
    the order of their creation. *)
Lemma entries_order_insertion {A : Type} (created : list (string * A)) :
  (forall entry, In entry created -> array_index (fst entry) = None) ->
  entries_order created = created.
Proof.
  intros Hnone. unfold entries_order.
  induction created as [| entry rest IH]; [reflexivity |].
  cbn [index_entries filter].
  rewrite (Hnone entry (or_introl eq_refl)).
  cbn [app]. change (entry :: ?l) with ([entry] ++ l).
  rewrite app_assoc.
  replace (map snd (index_entries rest) ++ [entry])
    with ([entry] ++ map snd (index_entries rest)).
  - rewrite <- app_assoc. cbn [app]. f_equal.
    apply IH. intros e He. apply Hnone. now right.
  - assert (index_entries rest = []) as ->; [| reflexivity].
    clear IH. induction rest as [| e rest IHr]; [reflexivity |].
    cbn [index_entries].
    rewrite (Hnone e (or_intror (or_introl eq_refl))).
    apply IHr. intros e' [<- | He'].
    + apply Hnone. now left.
    + apply Hnone. right. now right.
Qed.

Lemma insert_index_sorted {A : Type} (n : N) (entry : string * A)
  (sorted : list (N * (string * A))) :
  array_index (fst entry) = Some n -> index_sorted sorted ->
  index_sorted (insert_index n entry sorted).
Proof.
  intros Hn. induction sorted as [| [m e] rest IH]; cbn [insert_index].
  - intros _. cbn. auto.
  - intros Hs. destruct (n <=? m)%N eqn:Hle.
    + apply N.leb_le in Hle. cbn [index_sorted]. auto.
    + apply N.leb_gt in Hle. destruct Hs as (Hm & Hnext & Hrest).
      specialize (IH Hrest). cbn [index_sorted]. repeat split; auto.
      destruct rest as [| [k e'] rest']; cbn [insert_index].
      * lia.
      * destruct (n <=? k)%N; lia.
Qed.

Lemma index_entries_sorted {A : Type} (created : list (string * A)) :
  index_sorted (index_entries created).
Proof.
  induction created as [| entry rest IH]; cbn [index_entries]; [exact I |].
  destruct (array_index (fst entry)) as [n |] eqn:Hn; [| exact IH].
  now apply insert_index_sorted.
Qed.

Lemma entries_order_sorted {A : Type} (sorted : list (N * (string * A)))
  (others : list (string * A)) :
  index_sorted sorted ->
  (forall entry, In entry others -> array_index (fst entry) = None) ->
  entries_order (map snd sorted ++ others) = map snd sorted ++ others.
Proof.
  intros Hs Hnone. unfold entries_order.
  assert (index_entries (map snd sorted ++ others) = sorted) as ->.
  { induction sorted as [| [n entry] rest IH]; cbn [map app snd].
    - induction others as [| e rest IH]; [reflexivity |].
      cbn [index_entries]. rewrite (Hnone e (or_introl eq_refl)).
      apply IH. intros e' He'. apply Hnone. now right.
    - destruct Hs as (Hn & Hnext & Hrest). cbn [index_entries].
      rewrite Hn, (IH Hrest).
      destruct rest as [| [m e] rest']; [reflexivity |].
      cbn [insert_index]. apply N.leb_le in Hnext. now rewrite Hnext. }
  f_equal. rewrite filter_app.
  assert (filter
            (fun entry : string * A =>
               match array_index (fst entry) with
               | Some _ => false
               | None => true
               end) (map snd sorted) = []) as ->.
  { induction sorted as [| [n entry] rest IH]; [reflexivity |].
    destruct Hs as (Hn & _ & Hrest). cbn [map snd filter].
    rewrite Hn. now apply IH. }
  cbn [app]. induction others as [| e rest IH]; [reflexivity |].
  cbn [filter]. rewrite (Hnone e (or_introl eq_refl)). f_equal.
  apply IH. intros e' He'. apply Hnone. now right.
Qed.

(** Properties already in the order in which they are yielded are yielded
    in that order. *)
Lemma entries_order_idempotent {A : Type} (created : list (string * A)) :
  entries_order (entries_order created) = entries_order created.
Proof.
  unfold entries_order at 2 3. apply entries_order_sorted.
  - apply index_entries_sorted.
  - intros entry Hin. apply filter_In in Hin as [_ Hin].
    now destruct (array_index (fst entry)).
Qed.

(** C5, as the source has it.  [buildUrl] returns the base URL and the
    endpoint, followed when there is a pair by a question mark and the
    serialized pairs: first the API key if one is given, then the entries
    of the parameter object whose value is neither undefined nor null,
    each with the text [String] gives its value, in the order in which
    [Object.entries] yields them.  That order is the order of insertion
    when no key is an array index; keys that are array indices come first,
    in ascending order.  A name whose values are all undefined or null is
    not among the pairs; the text of a string is the string, of a boolean
    [true] or [false], of a safe integer its decimal numeral.  For
    [{limit: 5, page: undefined, order: "RAND"}] the URL is the base URL
    and the endpoint followed by [?limit=5&order=RAND], and it has no
    [page]. *)
Theorem buildUrl_query_parameters (this : APIClient) (endpoint : string) :
  (forall created apiKey,
      buildUrl engine_String this endpoint (Some created) apiKey
      = (pairs <- parameter_pairs engine_String (entries_order created) ;;
         Normal (with_query (baseURL this +++ endpoint)
                   (api_key_pair apiKey ++ pairs)))) /\
  (forall apiKey,
      buildUrl engine_String this endpoint None apiKey
      = Normal (with_query (baseURL this +++ endpoint)
                  (api_key_pair apiKey))) /\
  (forall created apiKey pairs name,
      parameter_pairs engine_String (entries_order created) = Normal pairs ->
      name <> "api_key" ->
      (forall v, In (name, v) created -> nullish v = true) ->
      has_key name (api_key_pair apiKey ++ pairs) = false) /\
  (forall created : list (string * value),
      (forall entry, In entry created -> array_index (fst entry) = None) ->
      entries_order created = created) /\
  (forall s b z,
      js_String engine_String (JString s) = Normal s /\
      js_String engine_String (JBool b)
      = Normal (if b then "true" else "false") /\
      js_String engine_String (JInt z)
      = if Z.abs z <=? MAX_SAFE_INTEGER
        then Normal (NilZero.string_of_int (Z.to_int z))
        else engine_String (JInt z)) /\
  (forall CAT_API_KEY,
      entries_order search_params = search_params /\
      buildUrl engine_String (new_APIClient CAT_API_KEY None)
        ENDPOINTS.IMAGES_SEARCH (Some search_params) None
      = Normal search_url /\
      contains "limit=5&order=RAND" search_url = true /\
      contains "page" search_url = false).
Proof.
  split; [| split; [| split; [| split; [| split]]]].
  - apply buildUrl_of_params.
  - intros apiKey.
    rewrite (buildUrl_of_query this endpoint None apiKey
               (api_key_pair apiKey)).
    + unfold with_query. now destruct (api_key_pair apiKey).
    + unfold queryParams_of, api_key_pair.
      destruct apiKey as [key |]; [| reflexivity].
      now destruct (truthy (Some key)).
  - intros entries apiKey pairs name Ht Hne Hnull.
    rewrite has_key_app, (has_key_api_key_pair name apiKey Hne).
    cbn [orb].
    destruct (has_key name pairs) eqn:Hk; [| reflexivity].
    apply has_key_In in Hk. unfold parameter_pairs in Ht.
    rewrite (traverse_keys _ _ Ht) in Hk.
    apply in_map_iff in Hk as ([k v] & Hfst & Hin). cbn [fst] in Hfst.
    subst k. apply filter_In in Hin as [Hin Hv]. cbn [snd] in Hv.
    rewrite (Hnull v (In_entries_order _ _ Hin)) in Hv. discriminate.
  - apply entries_order_insertion.
  - intros s b z. split; [reflexivity | split].
    + now destruct b.
    + unfold JInt, js_String. cbn [number_isIntegral number_toZ Z.leb].
      cbn [andb]. now rewrite Z.pow_0_r, Z.mul_1_r.
  - intros CAT_API_KEY. repeat split; reflexivity.
Qed.

End ClientClaims.

(** C5, as the specification words it, fails.  In [{limit: 5, 1: "a"}]
    the property [limit] is inserted first, but [Object.entries] yields
    the array index [1] before it, and so does the query. *)
Lemma insertion_order_not_kept :
  entries_order indexed_params = [ ("1", JString "a"); ("limit", JInt 5) ] /\
  buildUrl engine_rejects (new_APIClient None None) ENDPOINTS.IMAGES_SEARCH
    (Some indexed_params) None
  = Normal "https://api.thecatapi.com/v1/images/search?1=a&limit=5" /\
  ~ serialized_in_insertion_order engine_rejects (new_APIClient None None)
      ENDPOINTS.IMAGES_SEARCH indexed_params.
Proof.
  split; [reflexivity | split; [reflexivity |]].
  unfold serialized_in_insertion_order. vm_compute. discriminate.
Qed.

Lemma buildUrl_query_parameters_witness :
  parameter_pairs engine_rejects search_params
  = Normal [("limit", "5"); ("order", "RAND")] /\
  (forall v, In ("page", v) search_params -> nullish v = true) /\
  has_key "page" [("limit", "5"); ("order", "RAND")] = false /\
  buildUrl engine_rejects (new_APIClient None None) ENDPOINTS.IMAGES_SEARCH
    (Some search_params) None
  = Normal search_url.
Proof.
  assert (forall v, In ("page", v) search_params -> nullish v = true) as Hnull.
  { simpl. intros v [H | [H | [H | []]]]; try discriminate H.
    injection H as <-. reflexivity. }
  destruct (buildUrl_query_parameters engine_rejects
              (new_APIClient None None) ENDPOINTS.IMAGES_SEARCH)
    as (Hurl & _ & Homit & _).
  split; [reflexivity | split; [exact Hnull | split]].
  - refine (Homit search_params None [("limit", "5"); ("order", "RAND")]
              "page" eq_refl _ Hnull).
    discriminate.
  - rewrite Hurl. reflexivity.
Defined.

Section TransportClaims.

Variable engine_String : value -> completion string.
Variable JSON_stringify
  : list (string * value) -> completion (option string).
Variable fetch : string -> FetchOptions -> completion APIResponse.

(** What [makeRequest] returns is built from one response of the
    transport: its status and its [ok()]. *)
Lemma makeRequest_result (this : APIClient) (options : RequestOptions)
  (result : ApiResponse) :
  makeRequest engine_String JSON_stringify fetch this options = Normal result ->
  exists url fetchOptions response,
    fetch url fetchOptions = Normal response /\
    status result = APIResponse_status response /\
    ok result = APIResponse_ok response.
Proof.
  unfold makeRequest. intros H.
  destruct (buildUrl _ _ _ _ _) as [url | e]; cbn [bind] in H;
    [| discriminate].
  destruct (request_data JSON_stringify (data options)) as [d | e];
    cbn [bind] in H; [| discriminate].
  match type of H with
  | context [fetch ?u ?o] =>
      destruct (fetch u o) as [response | e] eqn:Hf
  end; cbn [bind] in H; [| discriminate].
  destruct (parseResponseBody response) as [b | e]; cbn [bind] in H;
    [| discriminate].
  injection H as <-. cbn [status ok].
  do 3 eexists. split; [exact Hf | split; reflexivity].
Qed.

(** A failure of the transport is not caught: [makeRequest] throws what
    [fetch] threw. *)
Lemma makeRequest_rethrows (this : APIClient) (options : RequestOptions)
  (e : exn) :
  (forall url fetchOptions, fetch url fetchOptions = Throw e) ->
  (exists url,
      buildUrl engine_String this (endpoint options) (params options)
        (apiKey options) = Normal url) ->
  (exists d, request_data JSON_stringify (data options) = Normal d) ->
  makeRequest engine_String JSON_stringify fetch this options = Throw e.
Proof.
  intros Hf (url & Hurl) (d & Hd). unfold makeRequest.
  rewrite Hurl. cbn [bind]. rewrite Hd. cbn [bind]. now rewrite Hf.
Qed.

(** The assertion of success passes exactly on the responses whose [ok]
    is true and whose status is in 200..299. *)
Lemma assertSuccess_passes (response : ApiResponse) :
  ApiAssertions.assertSuccess response = Normal tt
  <-> ok response = true /\ 200 <= status response < 300.
Proof.
  unfold ApiAssertions.assertSuccess, expect.
  destruct (ok response); cbn [Bool.eqb bind].
  - destruct (Z.geb_spec (status response) 200); cbn [bind].
    + destruct (Z.ltb_spec (status response) 300).
      * split; [intros _; split; [reflexivity | lia] | reflexivity].
      * split; [discriminate | intros [_ ?]; lia].
    + split; [discriminate | intros [_ ?]; lia].
  - split; [discriminate | intros [? _]; discriminate].
Qed.

(** C6.  When the transport's [ok()] is its status being in 200..299,
    every response [makeRequest] returns has [ok] equal to
    [200 <= status < 300], and [assertSuccess] passes on it exactly when
    [ok] is true. *)
Theorem makeRequest_ok_iff_2xx (this : APIClient) (options : RequestOptions)
  (result : ApiResponse) :
  transport_ok_contract fetch ->
  makeRequest engine_String JSON_stringify fetch this options = Normal result ->
  ok result = (200 <=? status result) && (status result <? 300) /\
  (ApiAssertions.assertSuccess result = Normal tt <-> ok result = true).
Proof.
  intros Hcontract Hres.
  destruct (makeRequest_result this options result Hres)
    as (url & fetchOptions & response & Hf & Hs & Ho).
  assert (ok result = (200 <=? status result) && (status result <? 300))
    as Hok.
  { rewrite Ho, Hs, (Hcontract url fetchOptions response Hf).
    f_equal.
    destruct (Z.leb_spec (APIResponse_status response) 299),
             (Z.ltb_spec (APIResponse_status response) 300);
      (reflexivity || lia). }
  split; [exact Hok |].
  rewrite assertSuccess_passes. split; [tauto |].
  intros Ht. split; [exact Ht |].
  rewrite Ht in Hok. symmetry in Hok.
  apply andb_true_iff in Hok as [H1 H2].
  apply Z.leb_le in H1. apply Z.ltb_lt in H2. lia.
Qed.

End TransportClaims.

(** A request for what is not there: the status is 404, [ok] is false, the
    body is the text of the response, and the assertion of an error
    response passes. *)
Lemma makeRequest_not_found :
  exists result,
    get engine_rejects (fun _ => Normal (Some "{}")) (fetch_fixed response_404)
      (new_APIClient None None) "/invalid/endpoint/path" None None
    = Normal result /\
    status result = 404 /\
    ok result = false /\
    body result = JString "404 - please consult the documentation" /\
    ApiAssertions.assertErrorResponse result (Some 404) = Normal tt.
Proof. eexists. repeat split. Qed.

(** [assertSuccess] reads the status as well as [ok]: on a response that
    [makeRequest] could not have returned the two disagree. *)
Lemma assertSuccess_reads_status :
  ApiAssertions.assertSuccess
    {| status := 404; statusText := "Not Found"; response_headers := [];
       body := JObject []; ok := true |}
  = Throw (AssertionError "toBeLessThan").
Proof. reflexivity. Qed.

Lemma makeRequest_ok_iff_2xx_witness :
  transport_ok_contract (fetch_fixed response_200) /\
  exists result,
    get engine_rejects (fun _ => Normal (Some "{}")) (fetch_fixed response_200)
      (new_APIClient None None) ENDPOINTS.CATEGORIES_LIST
      (Some [("limit", JInt 5)]) None = Normal result /\
    status result = 200 /\
    ok result = true /\
    ApiAssertions.assertSuccess result = Normal tt.
Proof.
  assert (transport_ok_contract (fetch_fixed response_200)) as Hc.
  { intros url options response H. injection H as <-. reflexivity. }
  split; [exact Hc |].
  eexists. split; [reflexivity |].
  split; [reflexivity |]. split; [reflexivity |].
  apply (makeRequest_ok_iff_2xx engine_rejects (fun _ => Normal (Some "{}"))
           (fetch_fixed response_200) (new_APIClient None None)
           {| method := GET; endpoint := ENDPOINTS.CATEGORIES_LIST;
              headers := None; data := None;
              params := Some [("limit", JInt 5)]; apiKey := None |}
           _ Hc eq_refl).
  reflexivity.
Defined.

(** * Further properties of the validator *)

Section ValidatorExtras.

Variable inherited : value -> list (string * value).

Lemma lookup_app {A : Type} (k : string) (xs ys : list (string * A)) :
  lookup k (xs ++ ys)
  = match lookup k xs with
    | Some a => Some a
    | None => lookup k ys
    end.
Proof.
  induction xs as [| [k' a] xs IH]; cbn [lookup app]; [reflexivity |].
  now destruct (k =? k')%string.
Qed.

Lemma flat_map_ext_In {A B : Type} (f g : A -> list B) (xs : list A) :
  (forall x, In x xs -> f x = g x) -> flat_map f xs = flat_map g xs.
Proof.
  induction xs as [| x xs IH]; intros H; cbn [flat_map]; [reflexivity |].
  rewrite (H x (or_introl eq_refl)). f_equal.
  apply IH. intros y Hy. apply H. now right.
Qed.

(** X1.  Whatever the value and the schema, a result that
    [validateAgainstSchema] returns is valid exactly when its list of
    errors is empty: the three places that build a result agree on it. *)
Theorem valid_iff_no_errors (v : value) (s : schema) (r : ValidationResult) :
  validateAgainstSchema inherited v s = Normal r ->
  (valid r = true <-> errors r = []).
Proof.
  unfold validateAgainstSchema, push.
  destruct (type s =? "object")%string.
  - destruct (negb (typeof v =? "object")%string || Array_isArray v).
    + intros H. injection H as <-. cbn. split; discriminate.
    + destruct (match required s with
                | Some req => check_required inherited v req []
                | None => Normal []
                end) as [errs1 | e]; cbn [bind]; [| discriminate].
      destruct (match properties s with
                | Some props => check_properties inherited v props errs1
                | None => Normal errs1
                end) as [errs2 | e]; cbn [bind]; [| discriminate].
      intros H. injection H as <-. cbn [valid errors].
      destruct errs2; cbn; split; congruence.
  - intros H. injection H as <-. cbn. split; reflexivity.
Qed.


(** X3.  On an object value and an object schema, the message "Missing
    required field: f" is among the errors exactly when [f] is a required
    name that is not present ([f in response] is false); a name that is
    present is never reported missing, whatever its value, [undefined] and
    [null] included. *)
Theorem missing_reported_iff_absent (s : schema) (es : list (string * value))
  (f : string) :
  type s = "object" ->
  exists r,
    validateAgainstSchema inherited (JObject es) s = Normal r /\
    (In ("Missing required field: " +++ f) (errors r)
     <-> In f (required_names s)
         /\ present inherited f (JObject es) = false).
Proof.
  intros Ht. rewrite (validateAgainstSchema_object inherited s es Ht).
  eexists. split; [reflexivity |]. cbn [errors].
  rewrite in_app_iff, In_missing_required. split; [| tauto].
  intros [H | H]; [exact H |].
  apply in_flat_map in H as (entry & _ & H).
  unfold property_errors in H.
  destruct (present inherited (fst entry) (JObject es)); [| destruct H].
  now apply validateProperty_not_missing with (f := f) in H.
Qed.

(** The errors of an object value depend on the value only through the
    members at the required and the declared names. *)
Lemma errors_agree (s : schema) (es es' : list (string * value)) :
  inherited (JObject es) = inherited (JObject es') ->
  (forall name,
      In name (required_names s ++ map fst (declared s)) ->
      lookup name es = lookup name es') ->
  missing_required inherited (JObject es) (required_names s)
  ++ flat_map (property_errors inherited (JObject es)) (declared s)
  = missing_required inherited (JObject es') (required_names s)
    ++ flat_map (property_errors inherited (JObject es')) (declared s).
Proof.
  intros Hinh Hagree.
  assert (forall name,
             In name (required_names s ++ map fst (declared s)) ->
             lookup name (members inherited (JObject es))
             = lookup name (members inherited (JObject es'))) as Hmem.
  { intros name Hin. unfold members. cbn [own_properties].
    now rewrite !lookup_app, Hinh, (Hagree name Hin). }
  f_equal.
  - unfold missing_required. f_equal. apply filter_ext_in.
    intros name Hin. unfold present, has_key.
    rewrite (Hmem name); [reflexivity |]. apply in_or_app. now left.
  - apply flat_map_ext_In. intros [name child] Hin.
    assert (In name (required_names s ++ map fst (declared s))) as Hname.
    { apply in_or_app. right. apply in_map_iff. now exists (name, child). }
    unfold property_errors, present, has_key, member. cbn [fst snd].
    now rewrite (Hmem name Hname).
Qed.

(** X4.  The validator reads an object value only at the names the schema
    requires or declares: two objects with the same members at those names
    get the same result.  In particular a field the schema does not
    mention never causes an error. *)
Theorem undeclared_fields_ignored (s : schema)
  (es es' : list (string * value)) :
  inherited (JObject es) = inherited (JObject es') ->
  (forall name,
      In name (required_names s ++ map fst (declared s)) ->
      lookup name es = lookup name es') ->
  validateAgainstSchema inherited (JObject es) s
  = validateAgainstSchema inherited (JObject es') s.
Proof.
  intros Hinh Hagree.
  destruct (String.eqb_spec (type s) "object") as [Ht | Ht].
  - rewrite !(validateAgainstSchema_object inherited s _ Ht). cbv zeta.
    now rewrite (errors_agree s es es' Hinh Hagree).
  - apply String.eqb_neq in Ht.
    now rewrite !(validateAgainstSchema_other_tag inherited _ s Ht).
Qed.

(** X5.  On an object value the validator reports at most one error for
    each required name and at most one for each declared property. *)
Theorem errors_bounded (s : schema) (es : list (string * value))
  (r : ValidationResult) :
  validateAgainstSchema inherited (JObject es) s = Normal r ->
  (List.length (errors r)
   <= List.length (required_names s) + List.length (declared s))%nat.
Proof.
  destruct (String.eqb_spec (type s) "object") as [Ht | Ht].
  - rewrite (validateAgainstSchema_object inherited s es Ht).
    intros H. injection H as <-. cbn [errors].
    rewrite length_app. apply Nat.add_le_mono.
    + unfold missing_required. rewrite length_map. apply filter_length_le.
    + induction (declared s) as [| entry entries IH]; [apply le_n |].
      cbn [flat_map]. rewrite length_app. cbn [List.length].
      assert (List.length (property_errors inherited (JObject es) entry)
              <= 1)%nat.
      { unfold property_errors.
        destruct (present inherited (fst entry) (JObject es));
          [apply validateProperty_length | cbn; lia]. }
      lia.
  - apply String.eqb_neq in Ht.
    rewrite (validateAgainstSchema_other_tag inherited _ s Ht).
    intros H. injection H as <-. cbn. lia.
Qed.

End ValidatorExtras.

Lemma valid_iff_no_errors_witness :
  validateAgainstSchema plain_inherited (JObject [("id", JInt 5)])
    CategorySchema
  = Normal {| valid := false; errors := ["Missing required field: name"] |} /\
  (false = true <-> ["Missing required field: name"] = @nil string).
Proof.
  split; [reflexivity |].
  exact (valid_iff_no_errors plain_inherited (JObject [("id", JInt 5)])
           CategorySchema
           {| valid := false; errors := ["Missing required field: name"] |}
           eq_refl).
Defined.


Lemma missing_reported_iff_absent_witness :
  exists r,
    validateAgainstSchema plain_inherited
      (JObject [("id", JNull); ("name", JUndefined)]) CategorySchema
    = Normal r /\
    ~ In "Missing required field: name" (errors r).
Proof.
  destruct (missing_reported_iff_absent plain_inherited CategorySchema
              [("id", JNull); ("name", JUndefined)] "name" eq_refl)
    as (r & Hr & Hiff).
  exists r. split; [exact Hr |].
  intros Hin. apply Hiff in Hin as [_ Hp]. discriminate Hp.
Defined.

Lemma undeclared_fields_ignored_witness :
  validateAgainstSchema plain_inherited
    (JObject [("id", JInt 5); ("name", JString "boxes");
              ("mime_type", JInt 0)]) CategorySchema
  = validateAgainstSchema plain_inherited
      (JObject [("name", JString "boxes"); ("id", JInt 5)]) CategorySchema.
Proof.
  apply undeclared_fields_ignored.
  - reflexivity.
  - simpl. intros name [<- | [<- | [<- | [<- | []]]]]; reflexivity.
Defined.

Lemma errors_bounded_witness :
  (List.length ["Missing required field: name";
                "Expected integer but got string"]
   <= List.length (required_names CategorySchema)
      + List.length (declared CategorySchema))%nat.
Proof.
  exact (errors_bounded plain_inherited CategorySchema
           [("id", JString "five")]
           {| valid := false;
              errors := ["Missing required field: name";
                         "Expected integer but got string"] |}
           eq_refl).
Defined.

(** * Further properties of the validator on the store *)

Module HeapExtras.

Import HeapReturns.

Lemma returns_ret {A : Type} (a : A) (post : A -> Prop) :
  post a -> returns_with (Heap.ret a) post.
Proof. intros H st. exact H. Qed.

Lemma returns_bind {A B : Type} (m : Heap.M A) (k : A -> Heap.M B)
  (post : B -> Prop) :
  (forall a, returns_with (k a) post) ->
  returns_with (Heap.bindM m k) post.
Proof.
  intros Hk st. unfold Heap.bindM.
  destruct (m st) as [[a | e] st']; [apply Hk | exact I].
Qed.

Lemma shrinks_ret {A : Type} (a : A) : never_shrinks (Heap.ret a).
Proof. intros st. apply le_n. Qed.

Lemma shrinks_lift {A : Type} (c : completion A) :
  never_shrinks (Heap.lift c).
Proof. intros st. apply le_n. Qed.

Lemma shrinks_read {A : Type} (r : Heap.ref) (member : Heap.node -> A) :
  never_shrinks (Heap.read r member).
Proof.
  intros st. unfold Heap.read.
  destruct (nth_error st r) as [[n | xs] |]; apply le_n.
Qed.

Lemma shrinks_array_read (arr : Heap.ref) :
  never_shrinks (Heap.array_read arr).
Proof.
  intros st. unfold Heap.array_read.
  destruct (nth_error st arr) as [[n | xs] |]; apply le_n.
Qed.

Lemma shrinks_new_array : never_shrinks Heap.new_array.
Proof. intros st. cbn. rewrite length_app. lia. Qed.

Lemma shrinks_array_push (arr : Heap.ref) (items : list string) :
  never_shrinks (Heap.array_push arr items).
Proof.
  intros st. unfold Heap.array_push.
  destruct (nth_error st arr) as [[n | xs] |]; cbn [snd];
    try apply le_n.
  rewrite HeapFacts.update_length. apply le_n.
Qed.

Lemma shrinks_bind {A B : Type} (m : Heap.M A) (k : A -> Heap.M B) :
  never_shrinks m -> (forall a, never_shrinks (k a)) ->
  never_shrinks (Heap.bindM m k).
Proof.
  intros Hm Hk st. unfold Heap.bindM. specialize (Hm st).
  destruct (m st) as [[a | e] st']; cbn [snd] in *.
  - specialize (Hk a st'). lia.
  - exact Hm.
Qed.

Lemma shrinks_for_ofM {A : Type} (xs : list A) (body : A -> Heap.M unit) :
  (forall x, never_shrinks (body x)) ->
  never_shrinks (Heap.for_ofM xs body).
Proof.
  intros Hbody. induction xs as [| x xs IH]; cbn [Heap.for_ofM].
  - apply shrinks_ret.
  - apply shrinks_bind; [apply Hbody | intros _; exact IH].
Qed.

Ltac never_shrinks :=
  repeat first
    [ apply shrinks_ret | apply shrinks_lift | apply shrinks_read
    | apply shrinks_array_read | apply shrinks_new_array
    | apply shrinks_array_push
    | apply shrinks_bind; [| intros ?]
    | match goal with
      | |- never_shrinks (if ?b then _ else _) => destruct b
      | |- never_shrinks (match ?o with Some _ => _ | None => _ end) =>
          destruct o
      end ].

Lemma validateProperty_never_shrinks (x : value) (r : Heap.ref) :
  never_shrinks (HeapValidator.validateProperty x r).
Proof. unfold HeapValidator.validateProperty. never_shrinks. Qed.

Section WithMembers.

Variable inherited : value -> list (string * value).

(** The errors array of a result is the array the call allocated first:
    the first free reference of the store it started from. *)
Lemma result_errors_allocated (v : value) (r : Heap.ref) (st : Heap.store) :
  match fst (HeapValidator.validateAgainstSchema inherited v r st) with
  | Normal res => HeapValidator.errors res = List.length st
  | Throw _ => True
  end.
Proof.
  unfold HeapValidator.validateAgainstSchema.
  rewrite (HeapFacts.bindM_normal Heap.new_array _ st
             (st ++ [Heap.Array_cell []]) (List.length st) eq_refl).
  generalize (st ++ [Heap.Array_cell []]). generalize (List.length st).
  intros a.
  match goal with
  | |- forall st', match fst (@?m st') with _ => _ end =>
      change (returns_with m (fun res => HeapValidator.errors res = a))
  end.
  repeat first
    [ apply returns_ret; reflexivity
    | apply returns_bind; intros ?
    | match goal with
      | |- returns_with (if ?b then _ else _) _ => destruct b
      end ].
Qed.

Lemma check_required_never_shrinks (v : value) (names : list string)
  (errors : Heap.ref) :
  never_shrinks (HeapValidator.check_required inherited v names errors).
Proof.
  unfold HeapValidator.check_required.
  apply shrinks_for_ofM. intros field. never_shrinks.
Qed.

Lemma check_properties_never_shrinks (v : value)
  (refs : list (string * Heap.ref)) (errors : Heap.ref) :
  never_shrinks (HeapValidator.check_properties inherited v refs errors).
Proof.
  unfold HeapValidator.check_properties.
  apply shrinks_for_ofM. intros [key propSchema]. never_shrinks.
Qed.

(** The call allocates its errors array, so the store grows. *)
Lemma store_grows (v : value) (r : Heap.ref) (st : Heap.store) :
  (List.length st
   < List.length (snd (HeapValidator.validateAgainstSchema inherited v r st)))%nat.
Proof.
  unfold HeapValidator.validateAgainstSchema.
  rewrite (HeapFacts.bindM_normal Heap.new_array _ st
             (st ++ [Heap.Array_cell []]) (List.length st) eq_refl).
  match goal with
  | |- (_ < List.length (snd (?m ?st')))%nat =>
      assert (never_shrinks m) as Hgrow
  end.
  { never_shrinks;
      first [ apply check_required_never_shrinks
            | apply check_properties_never_shrinks ]. }
  specialize (Hgrow (st ++ [Heap.Array_cell []])).
  rewrite length_app in Hgrow. cbn [List.length] in Hgrow. lia.
Qed.

(** X6.  Every call of the validator returns a new errors array: a second
    call, on any value and schema, returns an array other than the first
    call's and leaves the first call's array, like the rest of the store,
    as it was. *)
Theorem results_do_not_alias (v1 v2 : value) (r1 r2 : Heap.ref)
  (st : Heap.store) (res1 res2 : HeapValidator.ValidationResult) :
  let st1 := snd (HeapValidator.validateAgainstSchema inherited v1 r1 st) in
  let st2 := snd (HeapValidator.validateAgainstSchema inherited v2 r2 st1) in
  fst (HeapValidator.validateAgainstSchema inherited v1 r1 st) = Normal res1 ->
  fst (HeapValidator.validateAgainstSchema inherited v2 r2 st1) = Normal res2 ->
  HeapValidator.errors res1 <> HeapValidator.errors res2 /\
  nth_error st2 (HeapValidator.errors res1)
  = nth_error st1 (HeapValidator.errors res1) /\
  nth_error st (HeapValidator.errors res1) = None.
Proof.
  intros st1 st2 H1 H2.
  pose proof (result_errors_allocated v1 r1 st) as He1.
  pose proof (result_errors_allocated v2 r2 st1) as He2.
  rewrite H1 in He1. fold st1 in H2. rewrite H2 in He2.
  pose proof (store_grows v1 r1 st) as Hgrow. fold st1 in Hgrow.
  split; [lia | split].
  - destruct (HeapFacts.validateAgainstSchema_framed inherited
                (List.length st1) v2 r2 st1 (le_n _)) as (Hfirst & _ & _).
    fold st2 in Hfirst. rewrite firstn_all in Hfirst.
    transitivity (nth_error (firstn (List.length st1) st2)
                    (HeapValidator.errors res1)).
    + rewrite nth_error_firstn.
      destruct (Nat.ltb_spec (HeapValidator.errors res1)
                  (List.length st1)); [reflexivity | lia].
    + now rewrite Hfirst.
  - apply nth_error_None. lia.
Qed.

End WithMembers.

End HeapExtras.

Lemma results_do_not_alias_witness :
  exists res1 res2 st1 st2,
    HeapValidator.validateAgainstSchema plain_inherited
      (JObject [("id", JString "five")]) 0%nat HeapValidator.category_store
    = (Normal res1, st1) /\
    HeapValidator.validateAgainstSchema plain_inherited
      (JObject [("name", JInt 7)]) 0%nat st1
    = (Normal res2, st2) /\
    HeapValidator.errors res1 <> HeapValidator.errors res2 /\
    nth_error st2 (HeapValidator.errors res1)
    = nth_error st1 (HeapValidator.errors res1).
Proof.
  do 4 eexists. split; [reflexivity |]. split; [reflexivity |].
  destruct (HeapExtras.results_do_not_alias plain_inherited
              (JObject [("id", JString "five")]) (JObject [("name", JInt 7)])
              0%nat 0%nat HeapValidator.category_store _ _ eq_refl eq_refl)
    as (Hne & Hsame & _).
  split; [exact Hne | exact Hsame].
Defined.

(** * Further properties of the client *)

Lemma count_char_append (c : ascii) (a b : string) :
  count_char c (a +++ b) = (count_char c a + count_char c b)%nat.
Proof.
  induction a as [| c' a IH]; cbn [String.append count_char];
    [reflexivity |].
  rewrite IH. lia.
Qed.

(** The serializer writes neither [&] nor [=] for a byte of a name or of
    a value. *)
Lemma urlencoded_byte_separators (c : ascii) :
  count_char "&" (urlencoded_byte c) = 0%nat /\
  count_char "=" (urlencoded_byte c) = 0%nat.
Proof.
  destruct c as [[] [] [] [] [] [] [] []]; split; reflexivity.
Qed.

Lemma urlencoded_separators (s : string) :
  count_char "&" (urlencoded s) = 0%nat /\
  count_char "=" (urlencoded s) = 0%nat.
Proof.
  induction s as [| c s [IHa IHe]]; [split; reflexivity |].
  cbn [urlencoded]. rewrite !count_char_append, IHa, IHe.
  destruct (urlencoded_byte_separators c) as [-> ->]. split; reflexivity.
Qed.

Lemma pair_separators (k v : string) :
  count_char "&" (urlencoded k +++ "=" +++ urlencoded v) = 0%nat /\
  count_char "=" (urlencoded k +++ "=" +++ urlencoded v) = 1%nat.
Proof.
  rewrite !count_char_append.
  destruct (urlencoded_separators k) as [-> ->].
  destruct (urlencoded_separators v) as [-> ->].
  split; reflexivity.
Qed.

Lemma toString_separators (q : URLSearchParams) :
  count_char "&" (URLSearchParams_toString q) = Nat.pred (List.length q) /\
  count_char "=" (URLSearchParams_toString q) = List.length q.
Proof.
  induction q as [| [k v] q [IHa IHe]]; [split; reflexivity |].
  destruct q as [| p rest].
  - cbn [URLSearchParams_toString List.length Nat.pred].
    apply pair_separators.
  - change (URLSearchParams_toString ((k, v) :: p :: rest))
      with (urlencoded k +++ "=" +++ urlencoded v +++ "&"
            +++ URLSearchParams_toString (p :: rest)).
    assert (forall c,
      count_char c (urlencoded k +++ "=" +++ urlencoded v +++ "&"
                    +++ URLSearchParams_toString (p :: rest))
      = (count_char c (urlencoded k +++ "=" +++ urlencoded v)
         + (count_char c "&"
            + count_char c (URLSearchParams_toString (p :: rest))))%nat)
      as Hsplit.
    { intros c. rewrite !count_char_append. lia. }
    rewrite !Hsplit, IHa, IHe.
    destruct (pair_separators k v) as [-> ->].
    cbn [List.length Nat.pred]. split; reflexivity.
Qed.

Section ClientExtras.

Variable engine_String : value -> completion string.

(** X7.  [buildUrl] writes a question mark exactly when it has appended a
    parameter: with no parameter appended the URL is the base URL and the
    endpoint, otherwise these are followed by [?] and the serialized
    parameters.  In particular, with no key (or an empty one) and
    parameters that are all undefined or null, or no parameter object, no
    question mark is written. *)
Theorem buildUrl_question_mark (this : APIClient) (endpoint : string) :
  (forall params apiKey q,
      queryParams_of engine_String params apiKey = Normal q ->
      buildUrl engine_String this endpoint params apiKey
      = Normal match q with
               | [] => baseURL this +++ endpoint
               | _ :: _ =>
                   (baseURL this +++ endpoint) +++ "?"
                   +++ URLSearchParams_toString q
               end) /\
  (forall apiKey,
      truthy apiKey = false ->
      buildUrl engine_String this endpoint None apiKey
      = Normal (baseURL this +++ endpoint)) /\
  (forall entries apiKey,
      truthy apiKey = false ->
      Forall (fun entry => nullish (snd entry) = true) entries ->
      buildUrl engine_String this endpoint (Some entries) apiKey
      = Normal (baseURL this +++ endpoint)).
Proof.
  pose proof (buildUrl_of_query engine_String this endpoint) as Hmark.
  assert (forall apiKey, truthy apiKey = false -> api_key_pair apiKey = [])
    as Hkey.
  { intros apiKey H. unfold api_key_pair. rewrite H. now destruct apiKey. }
  split; [exact Hmark | split].
  - intros apiKey Hk. apply (Hmark None apiKey []).
    unfold queryParams_of. rewrite Hk. now destruct apiKey.
  - intros entries apiKey Hk Hnull.
    apply (Hmark (Some entries) apiKey []).
    rewrite queryParams_of_params, (Hkey apiKey Hk).
    assert (filter (fun entry => negb (nullish (snd entry)))
              (entries_order entries) = []) as ->; [| reflexivity].
    rewrite Forall_forall in Hnull.
    assert (forall entry,
               In entry (entries_order entries) ->
               nullish (snd entry) = true) as Hall
      by (intros entry Hin; apply Hnull; now apply In_entries_order).
    induction (entries_order entries) as [| entry rest IH]; [reflexivity |].
    cbn [filter]. rewrite (Hall entry (or_introl eq_refl)). cbn [negb].
    apply IH. intros e He. apply Hall. now right.
Qed.

(** X8.  Names and values cannot add parameters to the query string:
    when [buildUrl] has appended [n] parameters, [n] at least one, the URL
    is the base URL and the endpoint, a question mark, and a query string
    with exactly [n] equals signs and [n - 1] ampersands, whatever
    characters the names and the values contain. *)
Theorem query_separators (this : APIClient) (endpoint : string)
  (params : option (list (string * value))) (apiKey : option string)
  (q : URLSearchParams) :
  queryParams_of engine_String params apiKey = Normal q ->
  q <> [] ->
  exists queryString,
    buildUrl engine_String this endpoint params apiKey
    = Normal ((baseURL this +++ endpoint) +++ "?" +++ queryString) /\
    count_char "=" queryString = List.length q /\
    count_char "&" queryString = Nat.pred (List.length q).
Proof.
  intros Hq Hne. exists (URLSearchParams_toString q).
  rewrite (buildUrl_of_query engine_String this endpoint params apiKey q Hq).
  destruct (toString_separators q) as [Ha He].
  destruct q; [contradiction | now repeat split].
Qed.

End ClientExtras.

Lemma buildUrl_question_mark_witness :
  buildUrl engine_rejects (new_APIClient None None) ENDPOINTS.IMAGES_SEARCH
    (Some [("page", JUndefined); ("limit", JNull)]) (Some EmptyString)
  = Normal "https://api.thecatapi.com/v1/images/search".
Proof.
  apply (proj2 (proj2 (buildUrl_question_mark engine_rejects
                         (new_APIClient None None)
                         ENDPOINTS.IMAGES_SEARCH))).
  - reflexivity.
  - repeat constructor.
Defined.

Lemma query_separators_witness :
  buildUrl engine_rejects (new_APIClient None None) ENDPOINTS.IMAGES_SEARCH
    (Some [("breed_ids", JString "beng&limit=100")]) (Some "a=b")
  = Normal
      ("https://api.thecatapi.com/v1/images/search?"
       +++ "api_key=a%3Db&breed_ids=beng%26limit%3D100") /\
  exists queryString,
    buildUrl engine_rejects (new_APIClient None None) ENDPOINTS.IMAGES_SEARCH
      (Some [("breed_ids", JString "beng&limit=100")]) (Some "a=b")
    = Normal ((API_CONFIG.baseURL +++ ENDPOINTS.IMAGES_SEARCH) +++ "?"
              +++ queryString) /\
    count_char "=" queryString = 2%nat /\
    count_char "&" queryString = 1%nat.
Proof.
  split; [reflexivity |].
  apply (query_separators engine_rejects (new_APIClient None None)
           ENDPOINTS.IMAGES_SEARCH
           (Some [("breed_ids", JString "beng&limit=100")]) (Some "a=b")
           [("api_key", "a=b"); ("breed_ids", "beng&limit=100")] eq_refl).
  discriminate.
Defined.

Lemma lookup_map_override {A : Type} (k : string) (a b : list (string * A)) :
  lookup k
    (map (fun entry =>
            match lookup (fst entry) b with
            | Some v => (fst entry, v)
            | None => entry
            end) a)
  = match lookup k a with
    | Some va => Some match lookup k b with
                      | Some vb => vb
                      | None => va
                      end
    | None => None
    end.
Proof.
  induction a as [| [k' va] a IH]; cbn [map lookup fst]; [reflexivity |].
  destruct (String.eqb_spec k k') as [-> | Hne].
  - destruct (lookup k' b); cbn [lookup]; now rewrite String.eqb_refl.
  - apply String.eqb_neq in Hne.
    destruct (lookup k' b); cbn [lookup]; now rewrite Hne.
Qed.

Lemma lookup_filter_new {A : Type} (k : string) (a b : list (string * A)) :
  has_key k a = false ->
  lookup k (filter (fun entry => negb (has_key (fst entry) a)) b)
  = lookup k b.
Proof.
  intros Hk. induction b as [| [k' vb] b IH]; [reflexivity |].
  cbn [filter fst lookup].
  destruct (String.eqb_spec k k') as [<- | Hne].
  - rewrite Hk. cbn [negb lookup]. now rewrite String.eqb_refl.
  - apply String.eqb_neq in Hne.
    destruct (negb (has_key k' a)); cbn [lookup]; now rewrite ?Hne.
Qed.

(** [{ ...a, ...b }] read at a key: the value of [b] if it has the key,
    the value of [a] otherwise. *)
Lemma lookup_spread {A : Type} (k : string) (a b : list (string * A)) :
  lookup k (spread a b)
  = match lookup k b with
    | Some v => Some v
    | None => lookup k a
    end.
Proof.
  unfold spread. rewrite lookup_entries_order.
  rewrite lookup_app, lookup_map_override.
  destruct (lookup k a) as [va |] eqn:Ha.
  - now destruct (lookup k b).
  - rewrite lookup_filter_new by (unfold has_key; now rewrite Ha).
    now destruct (lookup k b).
Qed.

Section RequestExtras.

Variable engine_String : value -> completion string.
Variable JSON_stringify
  : list (string * value) -> completion (option string).
Variable fetch : string -> FetchOptions -> completion APIResponse.

(** [makeRequest] step by step: the URL, the text of the data, one call of
    the transport, the body, the result. *)
Lemma makeRequest_steps (this : APIClient) (options : RequestOptions) :
  makeRequest engine_String JSON_stringify fetch this options
  = (url <- buildUrl engine_String this (endpoint options) (params options)
              (apiKey options) ;;
     data <- request_data JSON_stringify (data options) ;;
     response <- fetch url (fetchOptions_of this options data) ;;
     responseBody <- parseResponseBody response ;;
     Normal {| status := APIResponse_status response;
               statusText := APIResponse_statusText response;
               response_headers := APIResponse_headers response;
               body := responseBody;
               ok := APIResponse_ok response |}).
Proof. reflexivity. Qed.

(** X9.  The headers [makeRequest] sends are the client's default
    headers overridden by the headers of the call: at every name the value
    the call gives wins, and the default is sent when the call gives none.
    The API key of a call goes into the URL only: it changes neither the
    headers nor anything else the transport is given besides the URL, so
    the [x-api-key] header stays the client's own key. *)
Theorem request_headers (this : APIClient) (options : RequestOptions) :
  (exists k,
      makeRequest engine_String JSON_stringify fetch this options
      = (url <- buildUrl engine_String this (endpoint options)
                  (params options) (apiKey options) ;;
         data <- request_data JSON_stringify (data options) ;;
         response <- fetch url (fetchOptions_of this options data) ;;
         k response)) /\
  (forall text name,
      lookup name (fetch_headers (fetchOptions_of this options text))
      = match lookup name match headers options with
                          | Some h => h
                          | None => []
                          end with
        | Some v => Some v
        | None => lookup name (defaultHeaders this)
        end) /\
  (forall key text,
      fetchOptions_of this
        {| method := method options; endpoint := endpoint options;
           headers := headers options; data := data options;
           params := params options; apiKey := key |} text
      = fetchOptions_of this options text) /\
  (forall CAT_API_KEY key text,
      this = new_APIClient CAT_API_KEY key ->
      lookup "x-api-key" match headers options with
                         | Some h => h
                         | None => []
                         end = None ->
      lookup "x-api-key" (fetch_headers (fetchOptions_of this options text))
      = Some (client_apiKey this)).
Proof.
  split; [| split; [| split]].
  - eexists. rewrite makeRequest_steps. reflexivity.
  - intros d name. unfold fetchOptions_of. cbn [fetch_headers].
    apply lookup_spread.
  - reflexivity.
  - intros CAT_API_KEY key d -> Hnone.
    unfold fetchOptions_of. cbn [fetch_headers].
    rewrite lookup_spread, Hnone. unfold new_APIClient.
    cbn [defaultHeaders client_apiKey]. now rewrite lookup_spread.
Qed.

(** X10.  [makeRequest] throws in four cases only: [buildUrl] throws;
    there are data and [JSON.stringify] throws on them, and then the
    transport is not asked; the transport throws; or the content type is
    not JSON and reading the text of the body throws.  It throws what was
    thrown there.  A body of content type JSON that cannot be parsed is
    not a failure: the body of the result is then the empty object. *)
Theorem makeRequest_failures (this : APIClient) (options : RequestOptions) :
  (forall e,
      makeRequest engine_String JSON_stringify fetch this options = Throw e
      <-> buildUrl engine_String this (endpoint options) (params options)
            (apiKey options) = Throw e
          \/ exists url,
               buildUrl engine_String this (endpoint options)
                 (params options) (apiKey options) = Normal url /\
               ((exists d, data options = Some d /\
                           JSON_stringify d = Throw e)
                \/ exists text,
                     request_data JSON_stringify (data options)
                     = Normal text /\
                     (fetch url (fetchOptions_of this options text)
                      = Throw e
                      \/ exists response,
                           fetch url (fetchOptions_of this options text)
                           = Normal response /\
                           contains "application/json"
                             (contentType_of response) = false /\
                           APIResponse_text response = Throw e))) /\
  (forall e d,
      data options = Some d ->
      JSON_stringify d = Throw e ->
      forall fetch',
        makeRequest engine_String JSON_stringify fetch' this options
        = makeRequest engine_String JSON_stringify fetch this options) /\
  (forall url text response e,
      buildUrl engine_String this (endpoint options) (params options)
        (apiKey options) = Normal url ->
      request_data JSON_stringify (data options) = Normal text ->
      fetch url (fetchOptions_of this options text) = Normal response ->
      contains "application/json" (contentType_of response) = true ->
      APIResponse_json response = Throw e ->
      exists result,
        makeRequest engine_String JSON_stringify fetch this options
        = Normal result /\
        body result = JObject []).
Proof.
  split; [| split].
  - intros e. rewrite makeRequest_steps. split.
    + destruct (buildUrl engine_String this (endpoint options)
                  (params options) (apiKey options)) as [url | e0];
        cbn [bind]; intros H; [| left; congruence].
      right. exists url. split; [reflexivity |].
      unfold request_data in *.
      destruct (data options) as [d |].
      * destruct (JSON_stringify d) as [text | e1] eqn:Hd; cbn [bind] in *.
        -- right. exists text. split; [reflexivity |].
           destruct (fetch url (fetchOptions_of this options text))
             as [response | e2]; cbn [bind] in H; [| left; congruence].
           right. exists response. split; [reflexivity |].
           unfold parseResponseBody in H.
           fold (contentType_of response) in H.
           destruct (contains "application/json" (contentType_of response)).
           ++ destruct (APIResponse_json response); discriminate H.
           ++ split; [reflexivity |].
              destruct (APIResponse_text response); cbn [bind] in H;
                [discriminate H | congruence].
        -- left. exists d. split; [reflexivity | congruence].
      * cbn [bind] in H. right. exists None. split; [reflexivity |].
        destruct (fetch url (fetchOptions_of this options None))
          as [response | e2]; cbn [bind] in H; [| left; congruence].
        right. exists response. split; [reflexivity |].
        unfold parseResponseBody in H.
        fold (contentType_of response) in H.
        destruct (contains "application/json" (contentType_of response)).
        -- destruct (APIResponse_json response); discriminate H.
        -- split; [reflexivity |].
           destruct (APIResponse_text response); cbn [bind] in H;
             [discriminate H | congruence].
    + intros [Hu | (url & Hu & Hrest)]; rewrite Hu; cbn [bind];
        [reflexivity |].
      destruct Hrest as [(d & Hd & He)
                        | (text & Ht & [Hf | (response & Hf & Hct & Htext)])].
      * unfold request_data. now rewrite Hd, He.
      * rewrite Ht. cbn [bind]. now rewrite Hf.
      * rewrite Ht. cbn [bind]. rewrite Hf. cbn [bind].
        unfold parseResponseBody.
        fold (contentType_of response). now rewrite Hct, Htext.
  - intros e d Hd He fetch'. unfold makeRequest.
    destruct (buildUrl engine_String this (endpoint options)
                (params options) (apiKey options)); cbn [bind];
      [| reflexivity].
    unfold request_data. now rewrite Hd, He.
  - intros url text response e Hu Ht Hf Hct Hjson.
    rewrite makeRequest_steps, Hu. cbn [bind]. rewrite Ht. cbn [bind].
    rewrite Hf. cbn [bind].
    unfold parseResponseBody. fold (contentType_of response).
    rewrite Hct, Hjson. cbn [bind]. eexists. split; reflexivity.
Qed.

End RequestExtras.

(** X11.  The key of a client is never empty: it is the key given to the
    constructor if that is not empty, else [CAT_API_KEY] of the environment
    if that is not empty, else [DEMO-API-KEY]; and it is the [x-api-key]
    among the default headers, beside the content type and the accepted
    type of the configuration. *)
Theorem client_key_never_empty (CAT_API_KEY apiKey : option string) :
  client_apiKey (new_APIClient CAT_API_KEY apiKey) <> EmptyString /\
  client_apiKey (new_APIClient CAT_API_KEY apiKey)
  = (if truthy apiKey then match apiKey with
                           | Some key => key
                           | None => EmptyString
                           end
     else if truthy CAT_API_KEY then match CAT_API_KEY with
                                     | Some key => key
                                     | None => EmptyString
                                     end
     else "DEMO-API-KEY") /\
  defaultHeaders (new_APIClient CAT_API_KEY apiKey)
  = [ ("Content-Type", "application/json");
      ("Accept", "application/json");
      ("x-api-key", client_apiKey (new_APIClient CAT_API_KEY apiKey)) ].
Proof.
  unfold new_APIClient, API_CONFIG.apiKey. cbn [client_apiKey defaultHeaders].
  destruct apiKey as [[| c key] |], CAT_API_KEY as [[| c' env] |];
    cbn; repeat split; discriminate.
Qed.

Lemma request_headers_witness :
  lookup "x-api-key"
    (fetch_headers
       (fetchOptions_of (new_APIClient None None)
          {| method := GET; endpoint := ENDPOINTS.IMAGES_SEARCH;
             headers := None; data := None; params := Some [];
             apiKey := Some "invalid_key_12345" |} None))
  = Some "DEMO-API-KEY".
Proof.
  exact (proj2 (proj2 (proj2
           (request_headers engine_rejects (fun _ => Normal (Some "{}"))
              (fetch_fixed response_200) (new_APIClient None None)
              {| method := GET; endpoint := ENDPOINTS.IMAGES_SEARCH;
                 headers := None; data := None; params := Some [];
                 apiKey := Some "invalid_key_12345" |})))
           None None None eq_refl eq_refl).
Defined.

Lemma makeRequest_failures_witness :
  (exists result,
      get engine_rejects (fun _ => Normal (Some "{}"))
        (fetch_fixed response_unparseable)
        (new_APIClient None None) ENDPOINTS.CATEGORIES_LIST None None
      = Normal result /\
      body result = JObject []) /\
  post engine_rejects stringify_rejects (fetch_fixed response_200)
    (new_APIClient None None) "/votes" (Some [("value", JFunction)])
    None
  = Throw (TypeError "Do not know how to serialize a BigInt").
Proof.
  split.
  - exact (proj2 (proj2
             (makeRequest_failures engine_rejects (fun _ => Normal (Some "{}"))
                (fetch_fixed response_unparseable)
                (new_APIClient None None)
                {| method := GET; endpoint := ENDPOINTS.CATEGORIES_LIST;
                   headers := None; data := None; params := None;
                   apiKey := None |}))
             "https://api.thecatapi.com/v1/categories" None
             response_unparseable
             (TypeError "body is not JSON") eq_refl eq_refl eq_refl eq_refl
             eq_refl).
  - apply (proj1 (makeRequest_failures engine_rejects stringify_rejects
                    (fetch_fixed response_200) (new_APIClient None None)
                    {| method := POST; endpoint := "/votes";
                       headers := None;
                       data := Some [("value", JFunction)];
                       params := None; apiKey := None |})).
    right. exists "https://api.thecatapi.com/v1/votes".
    split; [reflexivity |]. left.
    exists [("value", JFunction)]. split; reflexivity.
Defined.

(** * Properties of the assertions on fields *)

Lemma split_on_not_nil (sep : ascii) (s : string) : split_on sep s <> [].
Proof.
  destruct s as [| c s]; cbn [split_on]; [discriminate |].
  destruct (Ascii.eqb c sep); [discriminate |].
  destruct (split_on sep s); discriminate.
Qed.

Lemma split_on_append (sep : ascii) (p q : string) :
  split_on sep (p +++ String sep q) = split_on sep p ++ split_on sep q.
Proof.
  induction p as [| c p IH]; cbn [String.append split_on].
  - now rewrite Ascii.eqb_refl.
  - destruct (Ascii.eqb c sep); [now rewrite IH |].
    rewrite IH.
    destruct (split_on sep p) as [| piece pieces] eqn:Hp; [| reflexivity].
    now apply split_on_not_nil in Hp.
Qed.

Lemma split_on_no_separator (sep : ascii) (s : string) :
  count_char sep s = 0%nat -> split_on sep s = [s].
Proof.
  induction s as [| c s IH]; cbn [count_char split_on]; [reflexivity |].
  rewrite (Ascii.eqb_sym c sep).
  destruct (Ascii.eqb sep c); [discriminate |].
  intros H. now rewrite (IH H).
Qed.

Lemma for_of_app {A S : Type} (xs ys : list A) (s : S)
  (body : S -> A -> completion S) :
  for_of (xs ++ ys) s body = (s' <- for_of xs s body ;; for_of ys s' body).
Proof.
  revert s. induction xs as [| x xs IH]; intros s; cbn [app for_of bind];
    [reflexivity |].
  destruct (body s x) as [s' | e]; cbn [bind]; [apply IH | reflexivity].
Qed.

Section FieldAssertionFacts.

Variable inherited : value -> list (string * value).
Variable engine_String : value -> completion string.
Variable toHaveProperty : value -> string -> bool.


Lemma optional_get_nullish (current : value) (prop : string) :
  nullish current = true ->
  FieldAssertions.optional_get inherited current prop = Normal JUndefined.
Proof. intros H. unfold FieldAssertions.optional_get. now rewrite H. Qed.


Lemma walk_from_nullish (props : list string) (current : value) :
  props <> [] ->
  nullish current = true ->
  for_of props current (FieldAssertions.optional_get inherited)
  = Normal JUndefined.
Proof.
  intros Hne Hnull.
  destruct props as [| prop props]; [contradiction |]. cbn [for_of].
  rewrite (optional_get_nullish current prop Hnull). cbn [bind].
  clear Hne. induction props as [| prop' props IH]; [reflexivity |].
  cbn [for_of]. rewrite (optional_get_nullish JUndefined prop' eq_refl).
  exact IH.
Qed.

Lemma getNestedValue_object (es : list (string * value)) (name : string) :
  count_char "." name = 0%nat ->
  FieldAssertions.getNestedValue inherited (JObject es) name
  = Normal (member inherited name (JObject es)).
Proof.
  intros Hdot. unfold FieldAssertions.getNestedValue.
  rewrite (split_on_no_separator "." name Hdot). cbn [for_of].
  unfold FieldAssertions.optional_get. cbn [nullish].
  rewrite js_get_object. reflexivity.
Qed.

Lemma getNestedValue_compose (obj : value) (p q : string) :
  FieldAssertions.getNestedValue inherited obj (p +++ "." +++ q)
  = (x <- FieldAssertions.getNestedValue inherited obj p ;;
     FieldAssertions.getNestedValue inherited x q).
Proof.
  unfold FieldAssertions.getNestedValue.
  change (p +++ "." +++ q) with (p +++ String "." q).
  rewrite split_on_append. apply for_of_app.
Qed.

Lemma getNestedValue_past_nullish (obj v : value) (p q : string) :
  FieldAssertions.getNestedValue inherited obj p = Normal v ->
  nullish v = true ->
  FieldAssertions.getNestedValue inherited obj (p +++ "." +++ q)
  = Normal JUndefined.
Proof.
  intros Hp Hnull. rewrite getNestedValue_compose, Hp. cbn [bind].
  apply walk_from_nullish; [apply split_on_not_nil | exact Hnull].
Qed.


(** X13.  On a field of an object body named without a dot,
    [assertFieldType] with the type ['string'], ['number'] or ['array'] and
    [validateProperty] with a schema of that tag agree: the assertion passes
    exactly when the validator reports no error for the member.  For
    ['object'] they differ: the validator reports nothing whatever the
    member, while the assertion fails on an array. *)
Theorem assertFieldType_agrees_with_validateProperty
  (response : ApiResponse) (es : list (string * value)) (name tag : string) :
  body response = JObject es ->
  count_char "." name = 0%nat ->
  (In tag ["string"; "number"; "array"] ->
   (FieldAssertions.assertFieldType inherited response name tag = Normal tt
    <-> validateProperty (member inherited name (JObject es)) (of_type tag)
        = [])) /\
  (validateProperty (member inherited name (JObject es)) (of_type "object")
   = []) /\
  (Array_isArray (member inherited name (JObject es)) = true ->
   FieldAssertions.assertFieldType inherited response name "object"
   = Throw (AssertionError "toBe")).
Proof.
  intros Hbody Hdot.
  assert (forall t,
      FieldAssertions.assertFieldType inherited response name t
      = expect (kind_of (member inherited name (JObject es)) =? t)%string
          "toBe") as Hassert.
  { intros t. unfold FieldAssertions.assertFieldType.
    now rewrite Hbody, (getNestedValue_object es name Hdot). }
  split; [| split].
  - intros Htag. rewrite Hassert. unfold expect, validateProperty, push.
    cbn [type of_type].
    destruct (member inherited name (JObject es));
      destruct Htag as [<- | [<- | [<- | []]]]; cbn;
      split; (reflexivity || discriminate).
  - reflexivity.
  - intros Harr. rewrite Hassert.
    now destruct (member inherited name (JObject es)).
Qed.

(** X14.  [assertIsObject] passes exactly on a body that is an object
    or [null]: [typeof null] is ['object'] and [null] is no array. *)
Theorem assertIsObject_passes (response : ApiResponse) :
  FieldAssertions.assertIsObject response = Normal tt
  <-> (exists es, body response = JObject es) \/ body response = JNull.
Proof.
  unfold FieldAssertions.assertIsObject, expect.
  destruct (body response); cbn; split;
    try discriminate; try (intros _; eauto; fail);
    intros [(es & H) | H]; discriminate.
Qed.

(** X15.  [assertArrayLength] compares inclusively: with the operator
    [greaterThan] it passes exactly on an array of at least the given
    length, with [lessThan] on an array of at most that length, with
    [equals] on an array of that length; so all three pass on an array of
    exactly the given length, and none passes on a body that is no
    array. *)
Theorem assertArrayLength_inclusive (response : ApiResponse) (length : Z)
  (operator : Operator) :
  FieldAssertions.assertArrayLength response length operator = Normal tt
  <-> exists elements,
        body response = JArray elements /\
        match operator with
        | equals => Z.of_nat (List.length elements) = length
        | greaterThan => length <= Z.of_nat (List.length elements)
        | lessThan => Z.of_nat (List.length elements) <= length
        end.
Proof.
  unfold FieldAssertions.assertArrayLength, FieldAssertions.body_length,
    expect.
  destruct (body response) as [| | b | n | s | elements | es |];
    cbn [Array_isArray Bool.eqb bind];
    try (split; [discriminate | intros (xs & H & _); discriminate]).
  destruct operator.
  - destruct (Z.eqb_spec (Z.of_nat (List.length elements)) length).
    + split; [intros _; now exists elements | reflexivity].
    + split; [discriminate |].
      intros (xs & Hb & Hlen). injection Hb as <-. contradiction.
  - destruct (Z.geb_spec (Z.of_nat (List.length elements)) length).
    + split; [intros _; exists elements; split; [reflexivity | lia]
             | reflexivity].
    + split; [discriminate |].
      intros (xs & Hb & Hlen). injection Hb as <-. lia.
  - destruct (Z.leb_spec (Z.of_nat (List.length elements)) length).
    + split; [intros _; now exists elements | reflexivity].
    + split; [discriminate |].
      intros (xs & Hb & Hlen). injection Hb as <-. lia.
Qed.

(** X16.  [assertFieldContains] compares the text [String] gives the
    member it reads at the field.  For a name without a dot on an object
    body: when [in] does not find the name (the body does not hold it and
    its prototype chain does not supply it) the member is [undefined] and
    the assertion passes exactly when the expected text occurs in
    "undefined"; when the body does not hold the name but its prototype
    chain supplies it (as it does [toString]) the inherited member is
    compared, not "undefined".  A path that goes on past an undefined or
    null value is compared as "undefined". *)
Theorem assertFieldContains_missing (response : ApiResponse)
  (expected : string) :
  (forall es name,
      body response = JObject es ->
      count_char "." name = 0%nat ->
      FieldAssertions.assertFieldContains inherited engine_String response
        name expected
      = (text <- js_String engine_String
                   (member inherited name (JObject es)) ;;
         expect (contains expected text) "toContain")) /\
  (forall es name,
      body response = JObject es ->
      count_char "." name = 0%nat ->
      present inherited name (JObject es) = false ->
      FieldAssertions.assertFieldContains inherited engine_String response
        name expected
      = expect (contains expected "undefined") "toContain") /\
  (forall es name v,
      body response = JObject es ->
      count_char "." name = 0%nat ->
      lookup name es = None ->
      lookup name (inherited (JObject es)) = Some v ->
      FieldAssertions.assertFieldContains inherited engine_String response
        name expected
      = (text <- js_String engine_String v ;;
         expect (contains expected text) "toContain")) /\
  (forall p q v,
      FieldAssertions.getNestedValue inherited (body response) p = Normal v ->
      nullish v = true ->
      FieldAssertions.assertFieldContains inherited engine_String response
        (p +++ "." +++ q) expected
      = expect (contains expected "undefined") "toContain").
Proof.
  assert (forall es name,
      body response = JObject es ->
      count_char "." name = 0%nat ->
      FieldAssertions.assertFieldContains inherited engine_String response
        name expected
      = (text <- js_String engine_String
                   (member inherited name (JObject es)) ;;
         expect (contains expected text) "toContain")) as Hread.
  { intros es name Hbody Hdot.
    unfold FieldAssertions.assertFieldContains.
    now rewrite Hbody, (getNestedValue_object es name Hdot). }
  split; [exact Hread | split; [| split]].
  - intros es name Hbody Hdot Hp. rewrite (Hread es name Hbody Hdot).
    unfold member. unfold present, has_key in Hp.
    destruct (lookup name (members inherited (JObject es)));
      [discriminate | reflexivity].
  - intros es name v Hbody Hdot Hown Hinh.
    rewrite (Hread es name Hbody Hdot).
    unfold member, members. cbn [own_properties].
    now rewrite lookup_app, Hown, Hinh.
  - intros p q v Hv Hnull. unfold FieldAssertions.assertFieldContains.
    now rewrite (getNestedValue_past_nullish _ v p q Hv Hnull).
Qed.

Lemma for_of_unit {A : Type} (xs : list A) (f : unit -> A -> completion unit) :
  for_of xs tt f = Normal tt <-> Forall (fun x => f tt x = Normal tt) xs.
Proof.
  induction xs as [| x xs IH]; cbn [for_of].
  - split; [constructor | reflexivity].
  - destruct (f tt x) as [[] | e] eqn:Hx; cbn [bind].
    + rewrite IH. split.
      * intros H. now constructor.
      * intros H. now inversion H.
    + split; [discriminate |].
      intros H. inversion H. congruence.
Qed.

Lemma first_of_array (x : value) (rest : list value) :
  js_get inherited (JArray (x :: rest)) "0" = Normal x.
Proof. reflexivity. Qed.

(** X17.  [assertMatchesSchema] passes exactly when, for every field of
    the flat schema, the test runner finds the property and the kind of
    the member ([array] for an array, [typeof] otherwise) is the one the
    schema names.  Of an array body it examines the first element only:
    the elements after the first never change the outcome. *)
Theorem assertMatchesSchema_first_element (schema : list (string * string)) :
  (forall response b,
      FieldAssertions.first_or_body inherited response = Normal b ->
      (FieldAssertions.assertMatchesSchema inherited toHaveProperty
         response schema = Normal tt
       <-> Forall (fun entry =>
                     toHaveProperty b (fst entry) = true /\
                     exists v,
                       js_get inherited b (fst entry) = Normal v /\
                       kind_of v = snd entry) schema)) /\
  (forall x rest rest',
      FieldAssertions.assertMatchesSchema inherited toHaveProperty
        (response_with (JArray (x :: rest))) schema
      = FieldAssertions.assertMatchesSchema inherited toHaveProperty
          (response_with (JArray (x :: rest'))) schema).
Proof.
  split.
  - intros response b Hb. unfold FieldAssertions.assertMatchesSchema.
    rewrite Hb. cbn [bind]. rewrite for_of_unit.
    split; intros H; (eapply Forall_impl; [| exact H]);
      intros [field type] Hentry; cbn [fst snd] in *; unfold expect in *.
    + destruct (toHaveProperty b field); cbn [bind] in Hentry;
        [| discriminate].
      split; [reflexivity |].
      destruct (js_get inherited b field) as [v | e]; cbn [bind] in Hentry;
        [| discriminate].
      exists v. split; [reflexivity |].
      destruct (String.eqb_spec (kind_of v) type);
        [assumption | discriminate].
    + destruct Hentry as (-> & v & -> & <-). cbn [bind].
      now rewrite String.eqb_refl.
  - intros x rest rest'. unfold FieldAssertions.assertMatchesSchema,
      FieldAssertions.first_or_body, response_with.
    cbn [body Array_isArray]. now rewrite !first_of_array.
Qed.

End FieldAssertionFacts.

Section OutcomeAssertions.

Variable engine_String : value -> completion string.
Variable JSON_stringify
  : list (string * value) -> completion (option string).
Variable fetch : string -> FetchOptions -> completion APIResponse.

Lemma assertErrorResponse_unchecked (response : ApiResponse) :
  ApiAssertions.assertErrorResponse response None = Normal tt
  <-> ok response = false.
Proof.
  unfold ApiAssertions.assertErrorResponse, expect.
  destruct (ok response); cbn; split; congruence.
Qed.

(** X18.  [assertErrorResponse] passes exactly on a response whose [ok]
    is false and whose status is the expected one, where an expected
    status that is left out or is 0 is not compared.  It never passes
    together with [assertSuccess]; and on a response that [makeRequest]
    returned, the transport's [ok()] being its status in 200..299, exactly
    one of [assertSuccess] and [assertErrorResponse] without a status
    passes. *)
Theorem assertErrorResponse_passes (response : ApiResponse) :
  (forall expected,
      ApiAssertions.assertErrorResponse response expected = Normal tt
      <-> ok response = false /\
          (expected = None \/ expected = Some 0
           \/ expected = Some (status response))) /\
  (forall expected,
      ApiAssertions.assertSuccess response = Normal tt ->
      ApiAssertions.assertErrorResponse response expected <> Normal tt) /\
  (forall this options,
      transport_ok_contract fetch ->
      makeRequest engine_String JSON_stringify fetch this options
      = Normal response ->
      (ApiAssertions.assertSuccess response = Normal tt
       <-> ApiAssertions.assertErrorResponse response None <> Normal tt)).
Proof.
  assert (forall expected,
      ApiAssertions.assertErrorResponse response expected = Normal tt
      <-> ok response = false /\
          (expected = None \/ expected = Some 0
           \/ expected = Some (status response))) as Hiff.
  { intros expected. unfold ApiAssertions.assertErrorResponse, expect.
    destruct (ok response); cbn [Bool.eqb bind].
    - split; [discriminate | intros [H _]; discriminate].
    - destruct expected as [z |]; [| tauto].
      destruct (Z.eqb_spec z 0) as [-> | Hz]; cbn [negb]; [tauto |].
      destruct (Z.eqb_spec (status response) z) as [<- | Hs].
      + tauto.
      + split; [discriminate |].
        intros [_ [H | [H | H]]]; congruence. }
  split; [exact Hiff | split].
  - intros expected Hs He. apply Hiff in He as [He _].
    apply assertSuccess_passes in Hs as [Hs _]. congruence.
  - intros this options Hcontract Hres.
    destruct (makeRequest_result engine_String JSON_stringify fetch this
                options response Hres)
      as (url & fetchOptions & r & Hf & Hs & Ho).
    pose proof (Hcontract url fetchOptions r Hf) as Hok.
    rewrite <- Ho, <- Hs in Hok.
    rewrite assertSuccess_passes, assertErrorResponse_unchecked.
    destruct (ok response).
    + symmetry in Hok. apply andb_true_iff in Hok as [H1 H2].
      apply Z.leb_le in H1. apply Z.leb_le in H2.
      split; [discriminate | intros _; split; [reflexivity | lia]].
    + split; [intros [H _]; discriminate | intros H; now contradiction H].
Qed.

End OutcomeAssertions.

Lemma assertFieldContains_missing_witness :
  FieldAssertions.assertFieldContains plain_inherited engine_native
    (response_with (JObject [])) "name" "undefined"
  = Normal tt /\
  FieldAssertions.assertFieldContains plain_inherited engine_native
    (response_with (JObject [])) "toString" "undefined"
  = Throw (AssertionError "toContain") /\
  FieldAssertions.assertFieldContains plain_inherited engine_native
    (response_with (JObject [])) "toString" "native code"
  = Normal tt.
Proof.
  split; [| split].
  - destruct (assertFieldContains_missing plain_inherited engine_native
                (response_with (JObject [])) "undefined")
      as (_ & Habsent & _).
    rewrite (Habsent [] "name" eq_refl eq_refl eq_refl). reflexivity.
  - destruct (assertFieldContains_missing plain_inherited engine_native
                (response_with (JObject [])) "undefined")
      as (_ & _ & Hinherited & _).
    rewrite (Hinherited [] "toString" JFunction eq_refl eq_refl eq_refl
               eq_refl).
    reflexivity.
  - destruct (assertFieldContains_missing plain_inherited engine_native
                (response_with (JObject [])) "native code")
      as (_ & _ & Hinherited & _).
    rewrite (Hinherited [] "toString" JFunction eq_refl eq_refl eq_refl
               eq_refl).
    reflexivity.
Defined.

Lemma assertFieldType_agrees_with_validateProperty_witness :
  FieldAssertions.assertFieldType plain_inherited
    (response_with (JObject [("breeds", JArray [])])) "breeds" "object"
  = Throw (AssertionError "toBe") /\
  validateProperty
    (member plain_inherited "breeds" (JObject [("breeds", JArray [])]))
    (of_type "object")
  = [] /\
  FieldAssertions.assertFieldType plain_inherited
    (response_with (JObject [("breeds", JArray [])])) "breeds" "array"
  = Normal tt.
Proof.
  destruct (assertFieldType_agrees_with_validateProperty plain_inherited
              (response_with (JObject [("breeds", JArray [])]))
              [("breeds", JArray [])] "breeds" "array" eq_refl eq_refl)
    as (Hagree & Hobject & Harray).
  split; [apply Harray; reflexivity | split; [exact Hobject |]].
  apply Hagree; [right; right; left; reflexivity | reflexivity].
Defined.

(** * Properties of the Slack reporter *)

Module SlackReporterFacts.

Lemma after_results_snoc (this : SlackReporter.reporter)
  (results : list (SlackReporter.TestCase * SlackReporter.TestResult))
  (test : SlackReporter.TestCase) (result : SlackReporter.TestResult) :
  SlackReporter.after_results this (results ++ [(test, result)])
  = SlackReporter.onTestEnd (SlackReporter.after_results this results)
      test result.
Proof.
  unfold SlackReporter.after_results. now rewrite fold_left_app.
Qed.

Lemma with_status_snoc (s : string)
  (results : list (SlackReporter.TestCase * SlackReporter.TestResult))
  (test : SlackReporter.TestCase) (result : SlackReporter.TestResult) :
  SlackReporter.with_status s (results ++ [(test, result)])
  = SlackReporter.with_status s results
    ++ (if (SlackReporter.status result =? s)%string
        then [(test, result)] else []).
Proof.
  unfold SlackReporter.with_status. rewrite filter_app. cbn [filter snd].
  reflexivity.
Qed.

Lemma with_status_length (s : string)
  (results : list (SlackReporter.TestCase * SlackReporter.TestResult)) :
  (List.length (SlackReporter.with_status s results)
   <= List.length results)%nat.
Proof. apply filter_length_le. Qed.

Lemma increment_below (n : Z) :
  n < 2 ^ 53 -> SlackReporter.increment n = n + 1.
Proof.
  intros H. unfold SlackReporter.increment.
  destruct (Z.ltb_spec n (2 ^ 53)); [reflexivity | lia].
Qed.

(** What a run leaves in the reporter, for at most [2^53] results. *)
Lemma after_results_state (env : string -> option string)
  (results : list (SlackReporter.TestCase * SlackReporter.TestResult)) :
  Z.of_nat (List.length results) <= 2 ^ 53 ->
  let this :=
    SlackReporter.after_results (SlackReporter.new_reporter env) results in
  let count s :=
    Z.of_nat (List.length (SlackReporter.with_status s results)) in
  SlackReporter.total (SlackReporter.testStats this)
  = Z.of_nat (List.length results) /\
  SlackReporter.passed (SlackReporter.testStats this) = count "passed" /\
  SlackReporter.failed (SlackReporter.testStats this) = count "failed" /\
  SlackReporter.skipped (SlackReporter.testStats this) = count "skipped" /\
  SlackReporter.failedTests this
  = map (fun tr => {| SlackReporter.name := SlackReporter.title (fst tr) |})
      (SlackReporter.with_status "failed" results) /\
  SlackReporter.slackWebhookUrl this
  = SlackReporter.slackWebhookUrl (SlackReporter.new_reporter env) /\
  SlackReporter.channel this
  = SlackReporter.channel (SlackReporter.new_reporter env).
Proof.
  induction results as [| [test result] results IH] using rev_ind.
  - intros _. cbn. repeat split; reflexivity.
  - rewrite length_app. cbn [List.length]. intros Hlen.
    destruct IH as (Ht & Hp & Hf & Hs & Hl & Hu & Hc); [lia |].
    cbv zeta. rewrite after_results_snoc, !with_status_snoc, !length_app.
    pose proof (with_status_length "passed" results) as Bp.
    pose proof (with_status_length "failed" results) as Bf.
    pose proof (with_status_length "skipped" results) as Bs.
    set (this := SlackReporter.after_results
                   (SlackReporter.new_reporter env) results) in *.
    unfold SlackReporter.onTestEnd.
    destruct (String.eqb_spec (SlackReporter.status result) "passed")
      as [E1 | E1].
    + rewrite ?E1. cbn -[Z.of_nat Z.pow SlackReporter.increment].
      rewrite !increment_below by lia.
      repeat split; try assumption; try lia.
      rewrite Hl. now rewrite app_nil_r.
    + destruct (String.eqb_spec (SlackReporter.status result) "failed")
        as [E2 | E2].
      * rewrite ?E2. cbn -[Z.of_nat Z.pow SlackReporter.increment].
        rewrite !increment_below by lia.
        repeat split; try assumption; try lia.
        rewrite Hl, map_app. reflexivity.
      * destruct (String.eqb_spec (SlackReporter.status result) "skipped")
          as [E3 | E3].
        -- rewrite ?E3. cbn -[Z.of_nat Z.pow SlackReporter.increment].
           rewrite !increment_below by lia.
           repeat split; try assumption; try lia.
           rewrite Hl. now rewrite app_nil_r.
        -- cbn -[Z.of_nat Z.pow SlackReporter.increment].
           rewrite !increment_below by lia.
           repeat split; try assumption; try lia.
           rewrite Hl. now rewrite app_nil_r.
Qed.

Lemma status_partition
  (results : list (SlackReporter.TestCase * SlackReporter.TestResult)) :
  let count s :=
    Z.of_nat (List.length (SlackReporter.with_status s results)) in
  count "passed" + count "failed" + count "skipped"
  <= Z.of_nat (List.length results) /\
  (count "passed" + count "failed" + count "skipped"
   = Z.of_nat (List.length results)
   <-> Forall (fun tr =>
                 In (SlackReporter.status (snd tr))
                   ["passed"; "failed"; "skipped"]) results).
Proof.
  cbv zeta. induction results as [| [test result] results [IHle IHeq]].
  - cbn. split; [lia | split; [constructor | reflexivity]].
  - unfold SlackReporter.with_status in *. cbn [filter snd List.length].
    destruct (String.eqb_spec (SlackReporter.status result) "passed")
      as [E1 | E1];
      [| destruct (String.eqb_spec (SlackReporter.status result) "failed")
           as [E2 | E2];
         [| destruct (String.eqb_spec (SlackReporter.status result)
                        "skipped") as [E3 | E3]]].
    1: assert ((SlackReporter.status result =? "failed")%string = false
               /\ (SlackReporter.status result =? "skipped")%string = false)
         as [-> ->] by (now rewrite E1).
    2: assert ((SlackReporter.status result =? "skipped")%string = false)
         as -> by (now rewrite E2).
    1-3: cbn [List.length]; split; [lia |]; split;
      [ intros H; constructor;
        [cbn [snd In]; intuition congruence | apply IHeq; lia]
      | intros H; apply Forall_inv_tail in H; apply IHeq in H; lia ].
    split; [lia |]. split.
    + intros H. lia.
    + intros H. apply Forall_inv in H. cbn in H.
      destruct H as [H | [H | [H | []]]]; congruence.
Qed.

(** X19.  After the results of a run (at most [2^53] of them) the counters
    of a new reporter are what they are called: [total] is the number of
    results, [passed], [failed] and [skipped] the numbers of results with
    that status, and [failedTests] holds the titles of the failed tests in
    the order in which they failed, as many as [failed] counts.  A result
    with another status ([timedOut], [interrupted]) is counted in [total]
    only: the three counters add up to [total] exactly when no result has
    another status. *)
Theorem run_counts (env : string -> option string)
  (results : list (SlackReporter.TestCase * SlackReporter.TestResult)) :
  Z.of_nat (List.length results) <= 2 ^ 53 ->
  let this :=
    SlackReporter.after_results (SlackReporter.new_reporter env) results in
  let stats := SlackReporter.testStats this in
  let count s :=
    Z.of_nat (List.length (SlackReporter.with_status s results)) in
  SlackReporter.total stats = Z.of_nat (List.length results) /\
  SlackReporter.passed stats = count "passed" /\
  SlackReporter.failed stats = count "failed" /\
  SlackReporter.skipped stats = count "skipped" /\
  map SlackReporter.name (SlackReporter.failedTests this)
  = map (fun tr => SlackReporter.title (fst tr))
      (SlackReporter.with_status "failed" results) /\
  Z.of_nat (List.length (SlackReporter.failedTests this))
  = SlackReporter.failed stats /\
  SlackReporter.passed stats + SlackReporter.failed stats
  + SlackReporter.skipped stats <= SlackReporter.total stats /\
  (SlackReporter.passed stats + SlackReporter.failed stats
   + SlackReporter.skipped stats = SlackReporter.total stats
   <-> Forall (fun tr =>
                 In (SlackReporter.status (snd tr))
                   ["passed"; "failed"; "skipped"]) results).
Proof.
  intros Hlen.
  destruct (after_results_state env results Hlen)
    as (Ht & Hp & Hf & Hs & Hl & _).
  destruct (status_partition results) as [Hle Heq].
  cbv zeta in *. rewrite Ht, Hp, Hf, Hs, Hl.
  repeat split; try assumption; try reflexivity.
  - rewrite map_map. reflexivity.
  - now rewrite length_map.
  - apply Heq.
  - apply Heq.
Qed.

(** ** The pass rate *)

Lemma digits2_pos_spec (n : positive) :
  2 ^ (Zpos (SpecFloat.digits2_pos n) - 1) <= Zpos n
  < 2 ^ Zpos (SpecFloat.digits2_pos n).
Proof.
  induction n as [n IH | n IH |]; cbn [SpecFloat.digits2_pos].
  - rewrite Pos2Z.inj_succ.
    replace (Z.succ (Zpos (SpecFloat.digits2_pos n)) - 1)
      with (Z.succ (Zpos (SpecFloat.digits2_pos n) - 1)) by lia.
    rewrite !Z.pow_succ_r by lia. lia.
  - rewrite Pos2Z.inj_succ.
    replace (Z.succ (Zpos (SpecFloat.digits2_pos n)) - 1)
      with (Z.succ (Zpos (SpecFloat.digits2_pos n) - 1)) by lia.
    rewrite !Z.pow_succ_r by lia. lia.
  - cbn. lia.
Qed.

Lemma digits2_pos_shift (n k : positive) :
  SpecFloat.digits2_pos (Pos.iter xO n k)
  = (SpecFloat.digits2_pos n + k)%positive.
Proof.
  revert n. induction k as [| k IH] using Pos.peano_ind; intros n.
  - cbn. lia.
  - rewrite Pos.iter_succ. cbn [SpecFloat.digits2_pos]. rewrite IH. lia.
Qed.

(** A mantissa of 53 bits with an exponent in range is not rounded. *)
Lemma binary_round_aux_canonical (m : positive) (e : Z) :
  SpecFloat.digits2_pos m = 53%positive ->
  -1074 <= e <= 971 ->
  SpecFloat.binary_round_aux 53 1024 false (Zpos m) e SpecFloat.loc_Exact
  = SpecFloat.S754_finite false m e.
Proof.
  intros Hd He.
  assert (SpecFloat.fexp 53 1024 (53 + e) - e = 0) as Hshift.
  { unfold SpecFloat.fexp, SpecFloat.emin. lia. }
  unfold SpecFloat.binary_round_aux, SpecFloat.shr_fexp.
  cbn [SpecFloat.Zdigits2 SpecFloat.shr_record_of_loc]. rewrite Hd, Hshift.
  cbn [SpecFloat.shr SpecFloat.shr_m SpecFloat.loc_of_shr_record
       SpecFloat.round_nearest_even SpecFloat.Zdigits2
       SpecFloat.shr_record_of_loc].
  rewrite Hd, Hshift.
  cbn [SpecFloat.shr SpecFloat.shr_m].
  destruct (Z.leb_spec e (1024 - 53)); [reflexivity | lia].
Qed.

(** The double of a counter that is not 0 is a positive finite double. *)
Lemma of_Z_finite (z : Z) :
  0 < z <= 2 ^ 53 ->
  exists m e, SlackReporter.of_Z z = SpecFloat.S754_finite false m e.
Proof.
  intros Hz. destruct z as [| n | n]; try lia.
  destruct (Z.eq_dec (Zpos n) (2 ^ 53)) as [E | E].
  - injection E as ->. eexists; eexists. vm_compute. reflexivity.
  - pose proof (digits2_pos_spec n) as [Hlow Hhigh].
    assert (Zpos (SpecFloat.digits2_pos n) <= 53) as Hd.
    { apply Z.nlt_ge. intros H.
      assert (2 ^ 53 <= 2 ^ (Zpos (SpecFloat.digits2_pos n) - 1))
        by (apply Z.pow_le_mono_r; lia).
      lia. }
    unfold SlackReporter.of_Z, SpecFloat.binary_normalize,
      SpecFloat.binary_round.
    assert (SpecFloat.fexp 53 1024 (Zpos (SpecFloat.digits2_pos n) + 0)
            = Zpos (SpecFloat.digits2_pos n) - 53) as ->.
    { unfold SpecFloat.fexp, SpecFloat.emin. lia. }
    unfold SpecFloat.shl_align. rewrite Z.sub_0_r.
    destruct (Zpos (SpecFloat.digits2_pos n) - 53) as [| k | k] eqn:Hk;
      try lia.
    + eexists; eexists. apply binary_round_aux_canonical; lia.
    + eexists; eexists. apply binary_round_aux_canonical; [| lia].
      rewrite digits2_pos_shift. lia.
Qed.

(** The quotient of a positive double by itself is 1. *)
Lemma divide_self (m : positive) (e : Z) :
  SlackReporter.divide (SpecFloat.S754_finite false m e)
    (SpecFloat.S754_finite false m e)
  = SlackReporter.of_Z 1.
Proof.
  unfold SlackReporter.divide, SpecFloat.SFdiv, SpecFloat.SFdiv_core_binary.
  rewrite !Z.sub_diag.
  change (Z.min (SpecFloat.fexp 53 1024 0) 0) with (-53).
  change (0 - -53) with 53.
  cbv iota beta.
  assert (Z.div_eucl (Z.shiftl (Zpos m) 53) (Zpos m) = (2 ^ 53, 0)) as ->.
  { rewrite Z.shiftl_mul_pow2 by lia.
    pose proof (Z.div_eucl_eq (Zpos m * 2 ^ 53) (Zpos m) ltac:(lia)) as Heq.
    pose proof (Z.mod_pos_bound (Zpos m * 2 ^ 53) (Zpos m) ltac:(lia))
      as Hbound.
    unfold Z.modulo in Hbound.
    destruct (Z.div_eucl (Zpos m * 2 ^ 53) (Zpos m)) as [q r].
    assert (r = 0 /\ q = 2 ^ 53) as [-> ->]; [| reflexivity].
    assert (Zpos m * (2 ^ 53 - q) = r) as Hr by lia.
    assert (2 ^ 53 - q = 0) by nia. lia. }
  assert (SpecFloat.new_location (Zpos m) 0 = SpecFloat.loc_Exact) as ->.
  { unfold SpecFloat.new_location, SpecFloat.new_location_even,
      SpecFloat.new_location_odd.
    now destruct (Z.even (Zpos m)). }
  vm_compute. reflexivity.
Qed.

(** The pass rate of a run in which every test passed, and of one in which
    none did. *)
Lemma passRate_of_all (s : SlackReporter.TestStats) :
  0 < SlackReporter.total s <= 2 ^ 53 ->
  SlackReporter.passed s = SlackReporter.total s ->
  SlackReporter.passRate_of s = SlackReporter.of_Z 100.
Proof.
  intros Ht Hp. unfold SlackReporter.passRate_of. rewrite Hp.
  destruct (Z.gtb_spec (SlackReporter.total s) 0); [| lia].
  destruct (of_Z_finite _ Ht) as (m & e & ->).
  rewrite divide_self. vm_compute. reflexivity.
Qed.

Lemma passRate_of_none (s : SlackReporter.TestStats) :
  SlackReporter.total s <= 2 ^ 53 ->
  SlackReporter.passed s = 0 ->
  SlackReporter.passRate_of s = SlackReporter.of_Z 0.
Proof.
  intros Ht Hp. unfold SlackReporter.passRate_of. rewrite Hp.
  destruct (Z.gtb_spec (SlackReporter.total s) 0); [| reflexivity].
  destruct (of_Z_finite (SlackReporter.total s)) as (m & e & ->); [lia |].
  vm_compute. reflexivity.
Qed.

(** ** Division and multiplication round to the nearest double *)

Lemma nearest_even_cases (n d : Z) :
  0 < d ->
  let q := n / d in
  let r := n mod d in
  n = d * q + r /\ 0 <= r < d /\
  ((2 * r < d /\ nearest_even n d = q) \/
   (d < 2 * r /\ nearest_even n d = q + 1) \/
   (2 * r = d /\ Z.even q = true /\ nearest_even n d = q) \/
   (2 * r = d /\ Z.even q = false /\ nearest_even n d = q + 1)).
Proof.
  intros Hd. cbv zeta.
  pose proof (Z.div_mod n d ltac:(lia)) as Hdiv.
  pose proof (Z.mod_pos_bound n d Hd) as Hr.
  split; [exact Hdiv |]. split; [exact Hr |].
  unfold nearest_even.
  destruct (Z.ltb_spec (2 * (n mod d)) d); [now left |].
  destruct (Z.ltb_spec d (2 * (n mod d))); [right; now left |].
  destruct (Z.even (n / d)) eqn:He.
  - right; right; left. repeat split; lia.
  - right; right; right. repeat split; lia.
Qed.

(** The nearest integer is increasing. *)

Lemma nearest_even_mono (n1 n2 d : Z) :
  0 < d -> n1 <= n2 -> nearest_even n1 d <= nearest_even n2 d.
Proof.
  intros Hd Hn.
  destruct (nearest_even_cases n1 d Hd) as (E1 & R1 & C1).
  destruct (nearest_even_cases n2 d Hd) as (E2 & R2 & C2).
  assert (n1 / d <= n2 / d) as Hq by (apply Z.div_le_mono; lia).
  destruct (Z.eq_dec (n1 / d) (n2 / d)) as [Heq | Hne].
  - rewrite Heq in *.
    destruct C1 as [[? ->] | [[? ->] | [(? & ? & ->) | (? & ? & ->)]]];
      destruct C2 as [[? ->] | [[? ->] | [(? & ? & ->) | (? & ? & ->)]]];
      try lia; try congruence; nia.
  - assert (n1 / d + 1 <= n2 / d) by lia.
    destruct C1 as [[? ->] | [[? ->] | [(? & ? & ->) | (? & ? & ->)]]];
      destruct C2 as [[? ->] | [[? ->] | [(? & ? & ->) | (? & ? & ->)]]];
      lia.
Qed.

Lemma nearest_even_scale (n d c : Z) :
  0 < d -> 0 < c -> nearest_even (n * c) (d * c) = nearest_even n d.
Proof.
  intros Hd Hc. unfold nearest_even.
  rewrite Z.div_mul_cancel_r by lia.
  rewrite Z.mul_mod_distr_r by lia.
  destruct (Z.ltb_spec (2 * (n mod d * c)) (d * c));
    destruct (Z.ltb_spec (2 * (n mod d)) d); try nia; try reflexivity.
  destruct (Z.ltb_spec (d * c) (2 * (n mod d * c)));
    destruct (Z.ltb_spec d (2 * (n mod d))); try nia; reflexivity.
Qed.

Lemma nearest_even_exact (k d : Z) :
  0 < d -> nearest_even (k * d) d = k.
Proof.
  intros Hd. unfold nearest_even.
  rewrite Z.div_mul, Z.mod_mul by lia.
  destruct (Z.ltb_spec (2 * 0) d); [reflexivity | lia].
Qed.

(** It is increasing in the ratio. *)

Lemma nearest_even_ratio (n1 d1 n2 d2 : Z) :
  0 < d1 -> 0 < d2 -> n1 * d2 <= n2 * d1 ->
  nearest_even n1 d1 <= nearest_even n2 d2.
Proof.
  intros H1 H2 H.
  rewrite <- (nearest_even_scale n1 d1 d2 H1 H2).
  rewrite <- (nearest_even_scale n2 d2 d1 H2 H1).
  rewrite (Z.mul_comm d2 d1). apply nearest_even_mono; lia.
Qed.

Lemma nearest_even_ratio_eq (n1 d1 n2 d2 : Z) :
  0 < d1 -> 0 < d2 -> n1 * d2 = n2 * d1 ->
  nearest_even n1 d1 = nearest_even n2 d2.
Proof.
  intros H1 H2 H. apply Z.le_antisymm; apply nearest_even_ratio; lia.
Qed.

Lemma nearest_even_between (n d lo hi : Z) :
  0 < d -> lo * d <= n -> n <= hi * d ->
  lo <= nearest_even n d <= hi.
Proof.
  intros Hd Hlo Hhi. split.
  - rewrite <- (nearest_even_exact lo d Hd). now apply nearest_even_mono.
  - rewrite <- (nearest_even_exact hi d Hd). now apply nearest_even_mono.
Qed.

Lemma shr_1_spec (m : Z) (r s : bool) :
  0 <= m ->
  SpecFloat.shr_1 (SpecFloat.Build_shr_record m r s)
  = SpecFloat.Build_shr_record (m / 2) (Z.odd m) (r || s).
Proof.
  intros Hm. rewrite <- Z.div2_div.
  destruct m as [| [p | p |] | p]; try lia; reflexivity.
Qed.

Lemma iter_pos_nat {A : Type} (f : A -> A) (p : positive) (x : A) :
  SpecFloat.iter_pos f p x = Nat.iter (Pos.to_nat p) f x.
Proof.
  revert x. induction p as [p IH | p IH |]; intros x; cbn [SpecFloat.iter_pos].
  - rewrite !IH, Pos2Nat.inj_xI.
    replace (S (2 * Pos.to_nat p))%nat
      with (Pos.to_nat p + (Pos.to_nat p + 1))%nat by lia.
    rewrite !Nat.iter_add. reflexivity.
  - rewrite !IH, Pos2Nat.inj_xO.
    replace (2 * Pos.to_nat p)%nat
      with (Pos.to_nat p + Pos.to_nat p)%nat by lia.
    rewrite Nat.iter_add. reflexivity.
  - reflexivity.
Qed.

(** [k + 1] steps to the right from an exact mantissa. *)

Lemma shr_steps (m : Z) (k : nat) :
  0 <= m ->
  Nat.iter (S k) SpecFloat.shr_1 (SpecFloat.Build_shr_record m false false)
  = SpecFloat.Build_shr_record (m / 2 ^ Z.of_nat (S k))
      (Z.odd (m / 2 ^ Z.of_nat k))
      (negb (m mod 2 ^ Z.of_nat k =? 0)).
Proof.
  intros Hm. induction k as [| k IH].
  - cbn [Nat.iter]. rewrite shr_1_spec by exact Hm.
    change (2 ^ Z.of_nat 1) with 2. change (2 ^ Z.of_nat 0) with 1.
    rewrite Z.div_1_r, Z.mod_1_r. reflexivity.
  - rewrite Nat.iter_succ, IH.
    assert (0 < 2 ^ Z.of_nat k) as Hk by (apply Z.pow_pos_nonneg; lia).
    assert (2 ^ Z.of_nat (S k) = 2 ^ Z.of_nat k * 2) as Hs
      by (rewrite Nat2Z.inj_succ, Z.pow_succ_r; lia).
    assert (2 ^ Z.of_nat (S (S k)) = 2 ^ Z.of_nat (S k) * 2) as Hss
      by (rewrite (Nat2Z.inj_succ (S k)), Z.pow_succ_r; lia).
    rewrite shr_1_spec by (apply Z.div_pos; lia).
    f_equal.
    + rewrite Hss, Z.div_div by lia. reflexivity.
    + assert (m mod 2 ^ Z.of_nat (S k)
              = m mod 2 ^ Z.of_nat k
                + 2 ^ Z.of_nat k * ((m / 2 ^ Z.of_nat k) mod 2)) as ->
        by (rewrite Hs; apply Z.rem_mul_r; lia).
      set (a := m mod 2 ^ Z.of_nat k).
      set (q := m / 2 ^ Z.of_nat k).
      assert (0 <= a < 2 ^ Z.of_nat k) as Ha
        by (apply Z.mod_pos_bound; exact Hk).
      pose proof (Zmod_odd q) as Hodd.
      destruct (Z.odd q); rewrite Hodd; destruct (Z.eqb_spec a 0);
        destruct (Z.eqb_spec (a + 2 ^ Z.of_nat k * 1) 0);
        destruct (Z.eqb_spec (a + 2 ^ Z.of_nat k * 0) 0);
        cbn; try reflexivity; lia.
Qed.

(** Rounding after a shift to the right by [k > 0] places. *)

Lemma round_shifted (m : Z) (k : positive) :
  0 <= m ->
  let mrs := SpecFloat.iter_pos SpecFloat.shr_1 k
               (SpecFloat.Build_shr_record m false false) in
  SpecFloat.round_nearest_even (SpecFloat.shr_m mrs)
    (SpecFloat.loc_of_shr_record mrs)
  = nearest_even m (2 ^ Zpos k).
Proof.
  intros Hm. cbv zeta. rewrite iter_pos_nat.
  destruct (Pos2Nat.is_succ k) as [j Hj]. rewrite Hj.
  rewrite shr_steps by exact Hm.
  assert (Zpos k = Z.of_nat (S j)) as -> by lia.
  assert (0 < 2 ^ Z.of_nat j) as Hk by (apply Z.pow_pos_nonneg; lia).
  assert (2 ^ Z.of_nat (S j) = 2 ^ Z.of_nat j * 2) as Hs
    by (rewrite Nat2Z.inj_succ, Z.pow_succ_r; lia).
  unfold nearest_even.
  assert (m mod 2 ^ Z.of_nat (S j)
          = m mod 2 ^ Z.of_nat j
            + 2 ^ Z.of_nat j * ((m / 2 ^ Z.of_nat j) mod 2)) as Hrem
    by (rewrite Hs; apply Z.rem_mul_r; lia).
  assert (m / 2 ^ Z.of_nat (S j) = m / 2 ^ Z.of_nat j / 2) as Hquo
    by (rewrite Hs, Z.div_div; lia).
  rewrite Hrem, Hquo, Hs.
  set (a := m mod 2 ^ Z.of_nat j) in *.
  set (q := m / 2 ^ Z.of_nat j) in *.
  assert (0 <= a < 2 ^ Z.of_nat j) as Ha
    by (apply Z.mod_pos_bound; exact Hk).
  pose proof (Zmod_odd q) as Hodd.
  cbn [SpecFloat.shr_m SpecFloat.loc_of_shr_record].
  destruct (Z.odd q); rewrite Hodd; destruct (Z.eqb_spec a 0) as [E | E];
    cbn [negb SpecFloat.round_nearest_even];
    repeat match goal with
      | |- context [Z.ltb ?x ?y] => destruct (Z.ltb_spec x y)
      end; try reflexivity; try lia.
Qed.

Lemma digits2_pos_range (n : positive) (k : Z) :
  2 ^ (k - 1) <= Zpos n < 2 ^ k -> Zpos (SpecFloat.digits2_pos n) = k.
Proof.
  intros [Hlow Hhigh].
  pose proof (digits2_pos_spec n) as [Dlow Dhigh].
  assert (0 < k).
  { destruct (Z.ltb_spec 0 k); [assumption |].
    rewrite Z.pow_neg_r in Hlow by lia.
    destruct (Z.eq_dec k 0) as [-> | ]; [cbn in Hhigh; lia |].
    rewrite Z.pow_neg_r in Hhigh by lia. lia. }
  destruct (Z.lt_trichotomy (Zpos (SpecFloat.digits2_pos n)) k)
    as [Hlt | [Heq | Hgt]]; [| exact Heq |].
  - assert (2 ^ Zpos (SpecFloat.digits2_pos n) <= 2 ^ (k - 1))
      by (apply Z.pow_le_mono_r; lia).
    lia.
  - assert (2 ^ k <= 2 ^ (Zpos (SpecFloat.digits2_pos n) - 1))
      by (apply Z.pow_le_mono_r; lia).
    lia.
Qed.

Lemma loc_of_shr_record_of_loc (m : Z) (l : SpecFloat.location) :
  SpecFloat.loc_of_shr_record (SpecFloat.shr_record_of_loc m l) = l.
Proof. now destruct l as [| []]. Qed.

Lemma shr_m_of_loc (m : Z) (l : SpecFloat.location) :
  SpecFloat.shr_m (SpecFloat.shr_record_of_loc m l) = m.
Proof. now destruct l as [| []]. Qed.

(** The second half of [binary_round_aux]: a rounded mantissa that has
    reached [2^53] is halved. *)

Lemma renormalized (M E : Z) :
  2 ^ 52 <= M <= 2 ^ 53 -> -1074 <= E <= 970 ->
  (let '(mrs, e) := SpecFloat.shr_fexp 53 1024 M E SpecFloat.loc_Exact in
   match SpecFloat.shr_m mrs with
   | Z0 => SpecFloat.S754_zero false
   | Zpos m =>
       if e <=? 1024 - 53 then SpecFloat.S754_finite false m e
       else SpecFloat.S754_infinity false
   | Zneg _ => SpecFloat.S754_nan
   end) = with_mantissa M E.
Proof.
  intros HM HE. unfold with_mantissa, SpecFloat.shr_fexp.
  destruct M as [| m | m]; try lia.
  destruct (Z.ltb_spec (Zpos m) (2 ^ 53)) as [Hlt | Hge].
  - cbn [SpecFloat.Zdigits2].
    rewrite (digits2_pos_range m 53) by (change (53 - 1) with 52; lia).
    assert (SpecFloat.fexp 53 1024 (53 + E) - E = 0) as ->
      by (unfold SpecFloat.fexp, SpecFloat.emin; lia).
    cbn [SpecFloat.shr SpecFloat.shr_record_of_loc SpecFloat.shr_m].
    destruct (Z.leb_spec E (1024 - 53)); [| lia].
    now rewrite Pos2Z.id.
  - assert (Zpos m = 2 ^ 53) as Hm by lia.
    injection Hm as ->.
    cbn [SpecFloat.Zdigits2 SpecFloat.digits2_pos Pos.succ].
    assert (SpecFloat.fexp 53 1024 (54 + E) - E = 1) as ->
      by (unfold SpecFloat.fexp, SpecFloat.emin; lia).
    cbn [SpecFloat.shr SpecFloat.shr_record_of_loc SpecFloat.iter_pos
         SpecFloat.shr_1 SpecFloat.shr_m].
    destruct (Z.leb_spec (E + 1) (1024 - 53)); [| lia].
    reflexivity.
Qed.

(** [binary_round_aux] on a mantissa of [53 + k] bits: [k] steps to the
    right, rounding, and the halving of a mantissa that reached [2^53]. *)

Lemma binary_round_aux_steps (mx : positive) (ex k : Z)
  (lx : SpecFloat.location) :
  0 <= k ->
  Zpos (SpecFloat.digits2_pos mx) = 53 + k ->
  -1074 <= ex + k <= 970 ->
  let mrs := fst (SpecFloat.shr (SpecFloat.shr_record_of_loc (Zpos mx) lx)
                    ex k) in
  let M := SpecFloat.round_nearest_even (SpecFloat.shr_m mrs)
             (SpecFloat.loc_of_shr_record mrs) in
  2 ^ 52 <= M <= 2 ^ 53 ->
  SpecFloat.binary_round_aux 53 1024 false (Zpos mx) ex lx
  = with_mantissa M (ex + k).
Proof.
  intros Hk Hd He. cbv zeta. intros HM.
  unfold SpecFloat.binary_round_aux.
  unfold SpecFloat.shr_fexp at 1. cbn [SpecFloat.Zdigits2]. rewrite Hd.
  assert (SpecFloat.fexp 53 1024 (53 + k + ex) - ex = k) as ->
    by (unfold SpecFloat.fexp, SpecFloat.emin; lia).
  assert (snd (SpecFloat.shr (SpecFloat.shr_record_of_loc (Zpos mx) lx) ex k)
          = ex + k) as Hsnd.
  { unfold SpecFloat.shr. destruct k; cbn [snd]; lia. }
  destruct (SpecFloat.shr (SpecFloat.shr_record_of_loc (Zpos mx) lx) ex k)
    as [mrs e'] eqn:Hshr.
  cbn [fst snd] in *. subst e'.
  apply renormalized; assumption.
Qed.

Lemma new_location_cases (T r : Z) :
  0 < T -> 0 <= r < T ->
  SpecFloat.new_location T r
  = if r =? 0 then SpecFloat.loc_Exact
    else SpecFloat.loc_Inexact (2 * r ?= T).
Proof.
  intros HT Hr. unfold SpecFloat.new_location, SpecFloat.new_location_even,
    SpecFloat.new_location_odd.
  destruct (Z.even T) eqn:Hev; [reflexivity |].
  destruct (Z.eqb_spec r 0); [reflexivity |]. f_equal.
  assert (Z.odd T = true) as Hodd by (now rewrite <- Z.negb_even, Hev).
  apply Z.odd_spec in Hodd as [c Hc].
  destruct (Z.compare_spec (2 * r + 1) T); destruct (Z.compare_spec (2 * r) T);
    try reflexivity; lia.
Qed.

Lemma quotient_unique (T q r : Z) :
  0 < T -> 0 <= r < T -> (T * q + r) / T = q /\ (T * q + r) mod T = r.
Proof.
  intros HT Hr. split.
  - symmetry. apply (Z.div_unique_pos _ _ q r); lia.
  - symmetry. apply (Z.mod_unique_pos _ _ q r); lia.
Qed.

(** Rounding a quotient with its remainder, without a shift. *)

Lemma round_quotient (T q r : Z) :
  0 < T -> 0 <= r < T ->
  SpecFloat.round_nearest_even q (SpecFloat.new_location T r)
  = nearest_even (T * q + r) T.
Proof.
  intros HT Hr. rewrite new_location_cases by assumption.
  unfold nearest_even.
  destruct (quotient_unique T q r HT Hr) as [-> ->].
  destruct (Z.eqb_spec r 0) as [-> | Hr0].
  - cbn [SpecFloat.round_nearest_even].
    destruct (Z.ltb_spec (2 * 0) T); [reflexivity | lia].
  - cbn [SpecFloat.round_nearest_even].
    destruct (Z.compare_spec (2 * r) T);
      destruct (Z.ltb_spec (2 * r) T); destruct (Z.ltb_spec T (2 * r));
      try lia; reflexivity.
Qed.

(** Rounding a quotient with its remainder after one step to the right. *)

Lemma round_quotient_shifted (T q r : Z) :
  0 < T -> 0 <= r < T -> 0 <= q ->
  let mrs := SpecFloat.shr_1
               (SpecFloat.shr_record_of_loc q (SpecFloat.new_location T r)) in
  SpecFloat.round_nearest_even (SpecFloat.shr_m mrs)
    (SpecFloat.loc_of_shr_record mrs)
  = nearest_even (T * q + r) (2 * T).
Proof.
  intros HT Hr Hq. cbv zeta. rewrite new_location_cases by assumption.
  assert (SpecFloat.shr_1
            (SpecFloat.shr_record_of_loc q
               (if r =? 0 then SpecFloat.loc_Exact
                else SpecFloat.loc_Inexact (2 * r ?= T)))
          = SpecFloat.Build_shr_record (q / 2) (Z.odd q) (negb (r =? 0)))
    as ->.
  { destruct (Z.eqb_spec r 0).
    - cbn [SpecFloat.shr_record_of_loc]. now rewrite shr_1_spec.
    - destruct (2 * r ?= T); cbn [SpecFloat.shr_record_of_loc];
        now rewrite shr_1_spec. }
  cbn [SpecFloat.shr_m SpecFloat.loc_of_shr_record]. unfold nearest_even.
  pose proof (Zmod_odd q) as Hodd.
  pose proof (Z.div_mod q 2 ltac:(lia)) as Hq2.
  assert ((T * q + r) / (2 * T) = q / 2 /\
          (T * q + r) mod (2 * T) = T * (q mod 2) + r) as [-> ->].
  { assert (0 <= T * (q mod 2) + r < 2 * T)
      by (destruct (Z.odd q); rewrite Hodd; lia).
    split; symmetry.
    - apply (Z.div_unique_pos _ _ _ (T * (q mod 2) + r)); [assumption | nia].
    - apply (Z.mod_unique_pos _ _ (q / 2)); [assumption | nia]. }
  destruct (Z.odd q); rewrite Hodd; destruct (Z.eqb_spec r 0);
    cbn [negb SpecFloat.round_nearest_even];
    repeat match goal with
      | |- context [Z.ltb ?x ?y] => destruct (Z.ltb_spec x y)
      end; try reflexivity; try lia.
Qed.

Lemma div_eucl_div_mod (a b : Z) : Z.div_eucl a b = (a / b, a mod b).
Proof. unfold Z.div, Z.modulo. now destruct (Z.div_eucl a b). Qed.

(** The quotient of two doubles with mantissas of 53 bits. *)

Lemma divide_canonical (P T : positive) (a b : Z) :
  Zpos (SpecFloat.digits2_pos P) = 53 ->
  Zpos (SpecFloat.digits2_pos T) = 53 ->
  -400 <= a - b <= 400 ->
  let n := Zpos P * 2 ^ 53 in
  SlackReporter.divide (SpecFloat.S754_finite false P a)
    (SpecFloat.S754_finite false T b)
  = if n / Zpos T <? 2 ^ 53
    then with_mantissa (nearest_even n (Zpos T)) (a - b - 53)
    else with_mantissa (nearest_even n (2 * Zpos T)) (a - b - 52).
Proof.
  intros HP HT Hab. cbv zeta.
  pose proof (digits2_pos_spec P) as BP. rewrite HP in BP.
  pose proof (digits2_pos_spec T) as BT. rewrite HT in BT.
  change (53 - 1) with 52 in *.
  set (n := Zpos P * 2 ^ 53).
  assert (2 ^ 52 <= n / Zpos T < 2 ^ 54) as Hq.
  { split.
    - apply Z.div_le_lower_bound; [lia |]. unfold n. nia.
    - apply Z.div_lt_upper_bound; [lia |]. unfold n. nia. }
  pose proof (Z.div_mod n (Zpos T) ltac:(lia)) as Hdiv.
  pose proof (Z.mod_pos_bound n (Zpos T) ltac:(lia)) as Hrem.
  unfold SlackReporter.divide, SpecFloat.SFdiv, SpecFloat.SFdiv_core_binary.
  cbn [SpecFloat.Zdigits2 xorb]. rewrite HP, HT.
  assert (Z.min (SpecFloat.fexp 53 1024 (53 + a - (53 + b))) (a - b)
          = a - b - 53) as ->
    by (unfold SpecFloat.fexp, SpecFloat.emin; lia).
  replace (a - b - (a - b - 53)) with 53 by lia.
  cbv iota. rewrite Z.shiftl_mul_pow2 by lia. fold n.
  rewrite div_eucl_div_mod.
  destruct (n / Zpos T) as [| q | q] eqn:Eq; try lia.
  destruct (Z.ltb_spec (Zpos q) (2 ^ 53)) as [Hlt | Hge].
  - rewrite (binary_round_aux_steps q (a - b - 53) 0).
    + rewrite Z.add_0_r. f_equal. cbn [SpecFloat.shr fst].
      rewrite shr_m_of_loc, loc_of_shr_record_of_loc.
      rewrite round_quotient by lia. f_equal. lia.
    + lia.
    + rewrite (digits2_pos_range q 53); [lia |]. change (53 - 1) with 52. lia.
    + lia.
    + cbn [SpecFloat.shr fst].
      rewrite shr_m_of_loc, loc_of_shr_record_of_loc.
      rewrite round_quotient by lia.
      apply nearest_even_between; [lia | nia | nia].
  - rewrite (binary_round_aux_steps q (a - b - 53) 1).
    + replace (a - b - 53 + 1) with (a - b - 52) by lia. f_equal.
      cbn [SpecFloat.shr fst SpecFloat.iter_pos].
      rewrite round_quotient_shifted by lia. f_equal. lia.
    + lia.
    + rewrite (digits2_pos_range q 54); [lia |]. change (54 - 1) with 53. lia.
    + lia.
    + cbn [SpecFloat.shr fst SpecFloat.iter_pos].
      rewrite round_quotient_shifted by lia.
      apply nearest_even_between; [lia | nia | nia].
Qed.

Lemma iter_xO (n k : positive) :
  Zpos (Pos.iter xO n k) = Zpos n * 2 ^ Zpos k.
Proof.
  induction k as [| k IH] using Pos.peano_ind.
  - cbn. lia.
  - rewrite Pos.iter_succ, Pos2Z.inj_xO, IH, Pos2Z.inj_succ, Z.pow_succ_r; lia.
Qed.

Lemma binary_round_aux_unrounded (m : positive) (e : Z) :
  Zpos (SpecFloat.digits2_pos m) = 53 ->
  -1074 <= e <= 970 ->
  SpecFloat.binary_round_aux 53 1024 false (Zpos m) e SpecFloat.loc_Exact
  = SpecFloat.S754_finite false m e.
Proof.
  intros Hd He.
  pose proof (digits2_pos_spec m) as B. rewrite Hd in B.
  change (53 - 1) with 52 in B.
  rewrite (binary_round_aux_steps m e 0); cbn [SpecFloat.shr fst];
    rewrite ?shr_m_of_loc, ?loc_of_shr_record_of_loc;
    cbn [SpecFloat.round_nearest_even]; try lia.
  rewrite Z.add_0_r. unfold with_mantissa.
  destruct (Z.ltb_spec (Zpos m) (2 ^ 53)); [reflexivity | lia].
Qed.

(** The double of a positive integer below [2^53]: the integer, moved
    to the left until it has 53 bits. *)

Lemma of_Z_canonical (z : Z) :
  0 < z < 2 ^ 53 ->
  exists m e,
    SlackReporter.of_Z z = SpecFloat.S754_finite false m e /\
    Zpos (SpecFloat.digits2_pos m) = 53 /\
    -52 <= e <= 0 /\
    Zpos m = z * 2 ^ (- e).
Proof.
  intros Hz. destruct z as [| n | n]; try lia.
  pose proof (digits2_pos_spec n) as [Hlow Hhigh].
  assert (Zpos (SpecFloat.digits2_pos n) <= 53) as Hd.
  { apply Z.nlt_ge. intros H.
    assert (2 ^ 53 <= 2 ^ (Zpos (SpecFloat.digits2_pos n) - 1))
      by (apply Z.pow_le_mono_r; lia).
    lia. }
  unfold SlackReporter.of_Z, SpecFloat.binary_normalize, SpecFloat.binary_round.
  assert (SpecFloat.fexp 53 1024 (Zpos (SpecFloat.digits2_pos n) + 0)
          = Zpos (SpecFloat.digits2_pos n) - 53) as ->
    by (unfold SpecFloat.fexp, SpecFloat.emin; lia).
  unfold SpecFloat.shl_align. rewrite Z.sub_0_r.
  destruct (Zpos (SpecFloat.digits2_pos n) - 53) as [| k | k] eqn:Hk;
    try lia.
  - exists n, 0. split; [apply binary_round_aux_unrounded; lia |].
    split; [lia |]. split; [lia |]. cbn. lia.
  - assert (Zpos (SpecFloat.digits2_pos (Pos.iter xO n k)) = 53) as Hdk.
    { apply digits2_pos_range. rewrite iter_xO. change (53 - 1) with 52.
      assert (2 ^ 52 = 2 ^ (Zpos (SpecFloat.digits2_pos n) - 1) * 2 ^ Zpos k)
        as -> by (rewrite <- Z.pow_add_r by lia; f_equal; lia).
      assert (2 ^ 53 = 2 ^ Zpos (SpecFloat.digits2_pos n) * 2 ^ Zpos k)
        as -> by (rewrite <- Z.pow_add_r by lia; f_equal; lia).
      assert (0 < 2 ^ Zpos k) by (apply Z.pow_pos_nonneg; lia).
      nia. }
    exists (Pos.iter xO n k), (Zneg k).
    split; [apply binary_round_aux_unrounded; lia |].
    split; [exact Hdk |]. split; [lia |].
    rewrite iter_xO. reflexivity.
Qed.

(** Division rounds to the nearest double. *)

Lemma divide_rounds (p t : Z) :
  0 < p < 2 ^ 53 -> 0 < t < 2 ^ 53 ->
  rounds_to p t
    (SlackReporter.divide (SlackReporter.of_Z p) (SlackReporter.of_Z t)).
Proof.
  intros Hp Ht.
  destruct (of_Z_canonical p Hp) as (P & a & -> & HP & Ha & EP).
  destruct (of_Z_canonical t Ht) as (T & b & -> & HT & Hb & ET).
  rewrite divide_canonical by (try assumption; lia).
  pose proof (digits2_pos_spec P) as BP. rewrite HP in BP.
  pose proof (digits2_pos_spec T) as BT. rewrite HT in BT.
  change (53 - 1) with 52 in *.
  assert (0 < 2 ^ (- a)) as Pa by (apply Z.pow_pos_nonneg; lia).
  assert (0 < 2 ^ (- b)) as Pb by (apply Z.pow_pos_nonneg; lia).
  set (n := Zpos P * 2 ^ 53).
  pose proof (Z.div_mod n (Zpos T) ltac:(lia)) as Hdiv.
  pose proof (Z.mod_pos_bound n (Zpos T) ltac:(lia)) as Hrem.
  assert (2 ^ 52 <= n / Zpos T < 2 ^ 54) as Hq.
  { split.
    - apply Z.div_le_lower_bound; [lia |]. unfold n. nia.
    - apply Z.div_lt_upper_bound; [lia |]. unfold n. nia. }
  destruct (Z.ltb_spec (n / Zpos T) (2 ^ 53)) as [Hlt | Hge].
  - (* the scaled ratio is [n / T] *)
    exists (53 - a + b).
    assert (p * 2 ^ (53 - a + b) * 2 ^ (- b) = n) as Hn.
    { unfold n. rewrite EP.
      rewrite <- !Z.mul_assoc, <- !Z.pow_add_r by lia.
      do 2 f_equal. lia. }
    split; [lia |]. split.
    + assert (2 ^ 52 * Zpos T <= n < 2 ^ 53 * Zpos T) by nia.
      rewrite ET in H. nia.
    + f_equal; [| lia]. rewrite ET.
      rewrite <- (nearest_even_scale (p * 2 ^ (53 - a + b)) t (2 ^ (- b)))
        by lia.
      now rewrite Hn.
  - exists (52 - a + b).
    assert (p * 2 ^ (52 - a + b) * (2 * 2 ^ (- b)) = n) as Hn.
    { unfold n. rewrite EP.
      replace (2 * 2 ^ (- b)) with (2 ^ (1 - b))
        by (replace (1 - b) with (Z.succ (- b)) by lia;
            rewrite Z.pow_succ_r by lia; reflexivity).
      rewrite <- !Z.mul_assoc, <- !Z.pow_add_r by lia.
      do 2 f_equal. lia. }
    split; [lia |]. split.
    + assert (2 ^ 53 * Zpos T <= n < 2 ^ 54 * Zpos T) by nia.
      rewrite ET in H. nia.
    + f_equal; [| lia]. rewrite ET.
      rewrite <- (nearest_even_scale (p * 2 ^ (52 - a + b)) t
                    (2 * 2 ^ (- b))) by lia.
      rewrite Hn. f_equal. lia.
Qed.

Lemma rounds_to_finite (n d : Z) (x : SlackReporter.double) :
  0 < d -> rounds_to n d x ->
  exists g m e,
    0 <= g /\ 2 ^ 52 * d <= n * 2 ^ g < 2 ^ 53 * d /\
    x = SpecFloat.S754_finite false m e /\
    2 ^ 52 <= Zpos m < 2 ^ 53 /\
    ((e = - g /\ Zpos m = nearest_even (n * 2 ^ g) d) \/
     (e = 1 - g /\ Zpos m = 2 ^ 52 /\
      nearest_even (n * 2 ^ g) d = 2 ^ 53)).
Proof.
  intros Hd (g & Hg & Hb & ->).
  pose proof (nearest_even_between (n * 2 ^ g) d (2 ^ 52) (2 ^ 53) Hd
                ltac:(lia) ltac:(lia)) as HM.
  unfold with_mantissa.
  destruct (Z.ltb_spec (nearest_even (n * 2 ^ g) d) (2 ^ 53)) as [Hlt | Hge].
  - exists g, (Z.to_pos (nearest_even (n * 2 ^ g) d)), (- g).
    rewrite Z2Pos.id by lia.
    repeat split; lia.
  - exists g, (Z.to_pos (2 ^ 52)), (- g + 1).
    rewrite Z2Pos.id by lia.
    repeat split; lia.
Qed.

Lemma pow2_split (a b : Z) : 0 <= a <= b -> 2 ^ b = 2 ^ a * 2 ^ (b - a).
Proof. intros H. rewrite <- Z.pow_add_r by lia. f_equal. lia. Qed.

(** Rounding to the nearest double is increasing. *)

Lemma rounds_to_mono (n1 d1 n2 d2 : Z) (x1 x2 : SlackReporter.double) :
  0 < d1 -> 0 < d2 ->
  rounds_to n1 d1 x1 -> rounds_to n2 d2 x2 ->
  n1 * d2 <= n2 * d1 ->
  le_double x1 x2.
Proof.
  intros H1 H2 R1 R2 Hle.
  destruct (rounds_to_finite n1 d1 x1 H1 R1)
    as (g1 & m1 & e1 & G1 & B1 & -> & M1 & C1).
  destruct (rounds_to_finite n2 d2 x2 H2 R2)
    as (g2 & m2 & e2 & G2 & B2 & -> & M2 & C2).
  cbn [le_double].
  assert (0 < 2 ^ g1) as P1 by (apply Z.pow_pos_nonneg; lia).
  assert (0 < 2 ^ g2) as P2 by (apply Z.pow_pos_nonneg; lia).
  destruct (Z.lt_trichotomy g1 g2) as [Hlt | [Heq | Hgt]].
  - (* impossible: the first ratio would be the greater *)
    exfalso.
    rewrite (pow2_split g1 g2) in B2 by lia.
    assert (2 <= 2 ^ (g2 - g1)).
    { change 2 with (2 ^ 1) at 1. apply Z.pow_le_mono_r; lia. }
    assert (2 ^ 52 * d1 * d2 <= n1 * 2 ^ g1 * d2) by nia.
    assert (n1 * 2 ^ g1 * d2 <= n2 * 2 ^ g1 * d1) by nia.
    assert (n2 * 2 ^ g1 * 2 * d1 <= n2 * (2 ^ g1 * 2 ^ (g2 - g1)) * d1).
    { assert (0 <= n2) by nia. nia. }
    assert (n2 * (2 ^ g1 * 2 ^ (g2 - g1)) * d1 < 2 ^ 53 * d2 * d1) by nia.
    nia.
  - subst g2.
    assert (nearest_even (n1 * 2 ^ g1) d1 <= nearest_even (n2 * 2 ^ g1) d2)
      by (apply nearest_even_ratio; [assumption | assumption | nia]).
    destruct C1 as [[-> E1] | (-> & E1 & F1)];
      destruct C2 as [[-> E2] | (-> & E2 & F2)]; lia.
  - destruct C1 as [[-> E1] | (-> & E1 & F1)];
      destruct C2 as [[-> E2] | (-> & E2 & F2)]; lia.
Qed.

(** The product of a double between [2^-200] and 1 with 100. *)

Lemma multiply_rounds (D : positive) (e : Z) :
  2 ^ 52 <= Zpos D < 2 ^ 53 -> -200 <= e <= -7 ->
  rounds_to (Zpos D * 100) (2 ^ (- e))
    (SlackReporter.multiply (SpecFloat.S754_finite false D e)
       (SlackReporter.of_Z 100)).
Proof.
  intros HD He.
  change (SlackReporter.of_Z 100)
    with (SpecFloat.S754_finite false 7036874417766400 (-46)).
  unfold SlackReporter.multiply, SpecFloat.SFmul. cbn [xorb].
  assert (Zpos (D * 7036874417766400) = Zpos D * 100 * 2 ^ 46) as HN
    by (rewrite Pos2Z.inj_mul; lia).
  assert (0 < 2 ^ (- e - 7)) as Pg by (apply Z.pow_pos_nonneg; lia).
  assert (2 ^ (- e) = 2 ^ (- e - 7) * 2 ^ 7) as E7
    by (rewrite <- Z.pow_add_r by lia; f_equal; lia).
  assert (2 ^ (- e - 6) = 2 ^ (- e - 7) * 2) as E6.
  { replace (- e - 6) with (Z.succ (- e - 7)) by lia.
    rewrite Z.pow_succ_r by lia. lia. }
  destruct (Z.ltb_spec (Zpos D * 100 * 2 ^ 46) (2 ^ 105)) as [Hlt | Hge].
  - rewrite (binary_round_aux_steps _ (e + -46) 52).
    + exists (- e - 6). split; [lia |]. split; [rewrite E7, E6; nia |].
      f_equal; [| lia]. cbn [SpecFloat.shr fst SpecFloat.shr_record_of_loc].
      rewrite round_shifted by lia. rewrite HN.
      apply nearest_even_ratio_eq;
        [apply Z.pow_pos_nonneg; lia | apply Z.pow_pos_nonneg; lia |].
      rewrite E7, E6. lia.
    + lia.
    + apply digits2_pos_range. rewrite HN.
      change (53 + 52 - 1) with 104. change (53 + 52) with 105. lia.
    + lia.
    + cbn [SpecFloat.shr fst SpecFloat.shr_record_of_loc].
      rewrite round_shifted by lia.
      rewrite HN. apply nearest_even_between; lia.
  - rewrite (binary_round_aux_steps _ (e + -46) 53).
    + exists (- e - 7). split; [lia |]. split; [rewrite E7; nia |].
      f_equal; [| lia]. cbn [SpecFloat.shr fst SpecFloat.shr_record_of_loc].
      rewrite round_shifted by lia. rewrite HN.
      apply nearest_even_ratio_eq;
        [apply Z.pow_pos_nonneg; lia | apply Z.pow_pos_nonneg; lia |].
      rewrite E7. lia.
    + lia.
    + apply digits2_pos_range. rewrite HN.
      change (53 + 53 - 1) with 105. change (53 + 53) with 106. lia.
    + lia.
    + cbn [SpecFloat.shr fst SpecFloat.shr_record_of_loc].
      rewrite round_shifted by lia.
      rewrite HN. apply nearest_even_between; lia.
Qed.

Lemma Math_round_percent (m : positive) (e : Z) :
  e < 0 ->
  SlackReporter.Math_round (SpecFloat.S754_finite false m e)
  = if percent_of (SpecFloat.S754_finite false m e) =? 0
    then SpecFloat.S754_zero false
    else SlackReporter.of_Z (percent_of (SpecFloat.S754_finite false m e)).
Proof.
  intros He. unfold SlackReporter.Math_round, percent_of.
  destruct (Z.leb_spec 0 e); [lia | reflexivity].
Qed.

Lemma percent_of_mono (m1 m2 : positive) (e1 e2 : Z) :
  2 ^ 52 <= Zpos m1 < 2 ^ 53 -> 2 ^ 52 <= Zpos m2 < 2 ^ 53 ->
  e1 < 0 -> e2 < 0 ->
  le_double (SpecFloat.S754_finite false m1 e1)
    (SpecFloat.S754_finite false m2 e2) ->
  percent_of (SpecFloat.S754_finite false m1 e1)
  <= percent_of (SpecFloat.S754_finite false m2 e2).
Proof.
  intros M1 M2 E1 E2 Hle. cbn [le_double percent_of] in *.
  destruct Hle as [Hlt | [-> Hm]].
  - assert (0 < 2 ^ (e2 - e1)) as Pd by (apply Z.pow_pos_nonneg; lia).
    assert (2 <= 2 ^ (e2 - e1)).
    { change 2 with (2 ^ 1) at 1. apply Z.pow_le_mono_r; lia. }
    assert (0 < 2 ^ (- e2)) as P2 by (apply Z.pow_pos_nonneg; lia).
    assert (0 < 2 ^ (1 - e2)) as P3 by (apply Z.pow_pos_nonneg; lia).
    assert (2 ^ (- e1) = 2 ^ (- e2) * 2 ^ (e2 - e1)) as Ha
      by (rewrite <- Z.pow_add_r by lia; f_equal; lia).
    assert (2 ^ (1 - e1) = 2 ^ (1 - e2) * 2 ^ (e2 - e1)) as Hb
      by (rewrite <- Z.pow_add_r by lia; f_equal; lia).
    rewrite <- (Z.div_mul_cancel_r (2 * Zpos m2 + 2 ^ (- e2)) (2 ^ (1 - e2))
                  (2 ^ (e2 - e1))) by lia.
    rewrite <- Hb. apply Z.div_le_mono; [apply Z.pow_pos_nonneg; lia |].
    rewrite Ha. nia.
  - apply Z.div_le_mono; [apply Z.pow_pos_nonneg; lia | lia].
Qed.

(** [(p / t) * 100] in doubles. *)

Lemma rate_rounds (p t : Z) :
  0 < p <= t -> t < 2 ^ 53 ->
  exists D e Y f,
    SlackReporter.divide (SlackReporter.of_Z p) (SlackReporter.of_Z t)
    = SpecFloat.S754_finite false D e /\
    2 ^ 52 <= Zpos D < 2 ^ 53 /\ -200 <= e <= -51 /\
    rounds_to p t (SpecFloat.S754_finite false D e) /\
    rate p t = SpecFloat.S754_finite false Y f /\
    2 ^ 52 <= Zpos Y < 2 ^ 53 /\ f < 0 /\
    rounds_to (Zpos D * 100) (2 ^ (- e)) (SpecFloat.S754_finite false Y f).
Proof.
  intros Hp Ht.
  pose proof (divide_rounds p t ltac:(lia) ltac:(lia)) as Hdiv.
  destruct (rounds_to_finite p t _ ltac:(lia) Hdiv)
    as (g & D & e & Hg & Hb & HD & BD & CD).
  assert (52 <= g <= 105) as Gb.
  { split.
    - apply Z.nlt_ge. intros Hlt.
      assert (2 ^ g <= 2 ^ 51) by (apply Z.pow_le_mono_r; lia).
      assert (0 < 2 ^ g) by (apply Z.pow_pos_nonneg; lia).
      nia.
    - apply Z.nlt_ge. intros Hlt.
      assert (2 ^ 106 <= 2 ^ g) by (apply Z.pow_le_mono_r; lia).
      nia. }
  assert (-200 <= e <= -51) as He by (destruct CD as [[-> _] | (-> & _)]; lia).
  unfold rate. rewrite HD in *.
  pose proof (multiply_rounds D e BD ltac:(lia)) as Hmul.
  assert (0 < 2 ^ (- e)) as Pe by (apply Z.pow_pos_nonneg; lia).
  destruct (rounds_to_finite _ _ _ Pe Hmul)
    as (g' & Y & f & Hg' & Hb' & HY & BY & CY).
  assert (44 <= g') as Gb'.
  { apply Z.nlt_ge. intros Hlt.
    assert (2 ^ g' <= 2 ^ 43) by (apply Z.pow_le_mono_r; lia).
    assert (0 < 2 ^ g') by (apply Z.pow_pos_nonneg; lia).
    assert (2 ^ 51 <= 2 ^ (- e)) by (apply Z.pow_le_mono_r; lia).
    nia. }
  exists D, e, Y, f. rewrite HY in *.
  repeat split; try assumption; lia.
Qed.

(** The pass rate is increasing in the ratio of the counters. *)

Lemma percent_mono (p1 t1 p2 t2 : Z) :
  0 < p1 <= t1 -> t1 < 2 ^ 53 ->
  0 < p2 <= t2 -> t2 < 2 ^ 53 ->
  p1 * t2 <= p2 * t1 ->
  percent_of (rate p1 t1) <= percent_of (rate p2 t2).
Proof.
  intros P1 T1 P2 T2 Hle.
  destruct (rate_rounds p1 t1 P1 T1)
    as (D1 & e1 & Y1 & f1 & _ & BD1 & E1 & R1 & -> & BY1 & F1 & S1).
  destruct (rate_rounds p2 t2 P2 T2)
    as (D2 & e2 & Y2 & f2 & _ & BD2 & E2 & R2 & -> & BY2 & F2 & S2).
  pose proof (rounds_to_mono p1 t1 p2 t2 _ _ ltac:(lia) ltac:(lia) R1 R2 Hle)
    as HD.
  apply percent_of_mono; try assumption.
  assert (0 < 2 ^ (- e1)) as Q1 by (apply Z.pow_pos_nonneg; lia).
  assert (0 < 2 ^ (- e2)) as Q2 by (apply Z.pow_pos_nonneg; lia).
  apply (rounds_to_mono _ _ _ _ _ _ Q1 Q2 S1 S2).
  cbn [le_double] in HD. destruct HD as [Hlt | [-> Hm]]; [| nia].
  assert (2 ^ (- e1) = 2 ^ (- e2) * 2 ^ (e2 - e1)) as ->
    by (rewrite <- Z.pow_add_r by lia; f_equal; lia).
  assert (2 <= 2 ^ (e2 - e1)).
  { change 2 with (2 ^ 1) at 1. apply Z.pow_le_mono_r; lia. }
  assert (Zpos D1 <= Zpos D2 * 2 ^ (e2 - e1)) as Hm by nia.
  apply (Z.mul_le_mono_nonneg_r _ _ (100 * 2 ^ (- e2))) in Hm; lia.
Qed.

Lemma percent_points :
  percent_of (rate 1 1) = 100 /\
  percent_of (rate 199 200) = 100 /\
  percent_of (rate (199 * 2 ^ 45 - 1) (200 * 2 ^ 45)) = 99 /\
  percent_of (rate 159 200) = 80 /\
  percent_of (rate (159 * 2 ^ 45 - 1) (200 * 2 ^ 45)) = 79 /\
  percent_of (rate 99 200) = 50 /\
  percent_of (rate (99 * 2 ^ 45 - 1) (200 * 2 ^ 45)) = 49.
Proof. vm_compute. repeat split; reflexivity. Qed.

(** The thresholds of the pass rate, for at most [2^45] tests. *)

Lemma percent_thresholds (p t : Z) :
  0 < p <= t -> t <= 2 ^ 45 ->
  0 <= percent_of (rate p t) <= 100 /\
  (100 <= percent_of (rate p t) <-> 199 * t <= 200 * p) /\
  (80 <= percent_of (rate p t) <-> 159 * t <= 200 * p) /\
  (50 <= percent_of (rate p t) <-> 99 * t <= 200 * p).
Proof.
  intros Hp Ht.
  destruct percent_points as (A1 & A100 & A99 & A80 & A79 & A50 & A49).
  assert (t < 2 ^ 53) as Ht' by lia.
  assert (forall a b, 0 < a <= b -> b < 2 ^ 53 -> p * b <= a * t ->
                      percent_of (rate p t) <= percent_of (rate a b)) as Hup
    by (intros a b Ha Hb; now apply percent_mono).
  assert (forall a b, 0 < a <= b -> b < 2 ^ 53 -> a * t <= p * b ->
                      percent_of (rate a b) <= percent_of (rate p t)) as Hdown
    by (intros a b Ha Hb; now apply percent_mono).
  split; [split |].
  - destruct (rate_rounds p t Hp Ht')
      as (_ & _ & Y & f & _ & _ & _ & _ & -> & _ & Hf & _).
    cbn [percent_of]. apply Z.div_pos; [| apply Z.pow_pos_nonneg; lia].
    assert (0 <= 2 ^ (- f)) by (apply Z.pow_nonneg; lia). lia.
  - rewrite <- A1. apply Hup; lia.
  - split; [| split]; split; intros H.
    + apply Z.nlt_ge. intros Hlt.
      pose proof (Hup (199 * 2 ^ 45 - 1) (200 * 2 ^ 45) ltac:(lia) ltac:(lia)
                    ltac:(lia)). lia.
    + rewrite <- A100. apply Hdown; lia.
    + apply Z.nlt_ge. intros Hlt.
      pose proof (Hup (159 * 2 ^ 45 - 1) (200 * 2 ^ 45) ltac:(lia) ltac:(lia)
                    ltac:(lia)). lia.
    + rewrite <- A80. apply Hdown; lia.
    + apply Z.nlt_ge. intros Hlt.
      pose proof (Hup (99 * 2 ^ 45 - 1) (200 * 2 ^ 45) ltac:(lia) ltac:(lia)
                    ltac:(lia)). lia.
    + rewrite <- A50. apply Hdown; lia.
Qed.

(** The colour and the mark for the pass rates from 0 to 100. *)
Lemma colour_of_percent (n : Z) :
  0 <= n <= 100 ->
  let x : SlackReporter.double :=
    if n =? 0 then SpecFloat.S754_zero false else SlackReporter.of_Z n in
  SlackReporter.getColorForPassRate x
  = (if n =? 100 then "#36a64f"
     else if 80 <=? n then "#ffc107"
     else if 50 <=? n then "#ff9800"
     else "#f44336") /\
  SlackReporter.statusEmoji x
  = (if n =? 100 then "✅" else if 80 <=? n then "⚠️" else "❌").
Proof.
  intros Hn. cbv zeta.
  assert (forallb
            (fun k =>
               let n := Z.of_nat k in
               let x := if n =? 0 then SpecFloat.S754_zero false
                        else SlackReporter.of_Z n in
               String.eqb (SlackReporter.getColorForPassRate x)
                 (if n =? 100 then "#36a64f"
                  else if 80 <=? n then "#ffc107"
                  else if 50 <=? n then "#ff9800"
                  else "#f44336")
               && String.eqb (SlackReporter.statusEmoji x)
                    (if n =? 100 then "✅"
                     else if 80 <=? n then "⚠️" else "❌"))
            (seq 0 101) = true) as Hall by (vm_compute; reflexivity).
  rewrite forallb_forall in Hall.
  specialize (Hall (Z.to_nat n) ltac:(apply in_seq; lia)).
  cbv zeta in Hall. rewrite Z2Nat.id in Hall by lia.
  apply andb_true_iff in Hall as [H1 H2].
  split; now apply String.eqb_eq.
Qed.

(** The pass rate [onEnd] computes, by the counters. *)
Lemma passRate_of_percent (s : SlackReporter.TestStats) :
  0 < SlackReporter.passed s <= SlackReporter.total s ->
  SlackReporter.total s < 2 ^ 53 ->
  SlackReporter.passRate_of s
  = if percent_of (rate (SlackReporter.passed s) (SlackReporter.total s)) =? 0
    then SpecFloat.S754_zero false
    else SlackReporter.of_Z
           (percent_of
              (rate (SlackReporter.passed s) (SlackReporter.total s))).
Proof.
  intros Hp Ht. unfold SlackReporter.passRate_of.
  destruct (Z.gtb_spec (SlackReporter.total s) 0); [| lia].
  fold (rate (SlackReporter.passed s) (SlackReporter.total s)).
  destruct (rate_rounds _ _ Hp Ht)
    as (_ & _ & Y & f & _ & _ & _ & _ & -> & _ & Hf & _).
  now apply Math_round_percent.
Qed.

Section Requests.

Variable globalThis_fetch : option SlackReporter.Fetch.
Variable node_fetch : SlackReporter.outcome SlackReporter.Fetch.
Variable clock : nat -> Z.
Variable engine_Number_toString : SlackReporter.double -> string.
Variable JSON_stringify : SlackReporter.SlackMessage -> string.

Local Abbreviation available :=
  (SlackReporter.available globalThis_fetch node_fetch).
Local Abbreviation request_of := (SlackReporter.request_of JSON_stringify).
Local Abbreviation sendToSlack :=
  (SlackReporter.sendToSlack globalThis_fetch node_fetch JSON_stringify).
Local Abbreviation sendSlackNotification :=
  (SlackReporter.sendSlackNotification globalThis_fetch node_fetch clock
     engine_Number_toString JSON_stringify).
Local Abbreviation onEnd :=
  (SlackReporter.onEnd globalThis_fetch node_fetch clock
     engine_Number_toString JSON_stringify).
Local Abbreviation TestSummaryMessage :=
  (SlackReporter.TestSummaryMessage engine_Number_toString).

(** What a call of [sendToSlack] does, when there is a webhook. *)
Lemma sendToSlack_run (this : SlackReporter.reporter)
  (message : SlackReporter.SlackMessage) (w : SlackReporter.world) :
  truthy (Some (SlackReporter.slackWebhookUrl this)) = true ->
  sendToSlack this message w
  = match available w with
    | SlackReporter.Rejected e => (SlackReporter.Rejected e, w)
    | SlackReporter.Fulfilled f =>
        let c := request_of this message in
        let w' :=
          {| SlackReporter.fetchFn := Some f;
             SlackReporter.calls := SlackReporter.calls w ++ [c];
             SlackReporter.clock_reads := SlackReporter.clock_reads w |} in
        match f (SlackReporter.calls w) c with
        | SlackReporter.Rejected e => (SlackReporter.Rejected e, w')
        | SlackReporter.Fulfilled r =>
            if SlackReporter.ok r then (SlackReporter.Fulfilled tt, w')
            else
              (SlackReporter.Rejected
                 match SlackReporter.response_text r with
                 | SlackReporter.Fulfilled _ =>
                     SlackReporter.Error
                       ("Slack API error: " +++ SlackReporter.statusText r)
                 | SlackReporter.Rejected e => e
                 end, w')
        end
    end.
Proof.
  intros Hurl. unfold SlackReporter.sendToSlack. rewrite Hurl. cbn [negb].
  unfold SlackReporter.then_, SlackReporter.the_fetchFn,
    SlackReporter.available, SlackReporter.getFetch, SlackReporter.call,
    SlackReporter.await, SlackReporter.resolve, SlackReporter.reject.
  destruct w as [[f |] cs n]; cbn.
  - destruct (f cs _) as [r | e]; [| reflexivity].
    destruct (SlackReporter.ok r); cbn; [reflexivity |].
    now destruct (SlackReporter.response_text r).
  - destruct globalThis_fetch as [f |]; cbn.
    + destruct (f cs _) as [r | e]; [| reflexivity].
      destruct (SlackReporter.ok r); cbn; [reflexivity |].
      now destruct (SlackReporter.response_text r).
    + destruct node_fetch as [f | e]; cbn; [| reflexivity].
      destruct (f cs _) as [r | e]; [| reflexivity].
      destruct (SlackReporter.ok r); cbn; [reflexivity |].
      now destruct (SlackReporter.response_text r).
Qed.

(** What [sendSlackNotification] posts. *)
Lemma sendSlackNotification_run (this : SlackReporter.reporter)
  (w : SlackReporter.world) :
  truthy (Some (SlackReporter.slackWebhookUrl this)) = true ->
  exists w' sent,
    sendSlackNotification this w = (SlackReporter.Fulfilled tt, w') /\
    SlackReporter.calls w' = SlackReporter.calls w ++ sent /\
    (sent = [] <-> exists e, available w = SlackReporter.Rejected e) /\
    (forall c rest,
        sent = c :: rest ->
        c = request_of this
              (TestSummaryMessage this
                 (clock (SlackReporter.clock_reads w))) /\
        (rest = [] \/
         rest = [request_of this
                   (SlackReporter.FailedTestsMessage this
                      (clock (S (SlackReporter.clock_reads w))))]) /\
        (rest <> [] <->
         SlackReporter.failedTests this <> [] /\
         exists f r,
           available w = SlackReporter.Fulfilled f /\
           f (SlackReporter.calls w) c = SlackReporter.Fulfilled r /\
           SlackReporter.ok r = true)).
Proof.
  intros Hurl.
  unfold SlackReporter.sendSlackNotification, SlackReporter.try_catch,
    SlackReporter.buildTestSummaryMessage, SlackReporter.then_ at 1 2.
  unfold SlackReporter.Date_now at 1, SlackReporter.resolve at 1.
  unfold SlackReporter.then_ at 1. rewrite (sendToSlack_run _ _ _ Hurl).
  change (available
            {| SlackReporter.fetchFn := SlackReporter.fetchFn w;
               SlackReporter.calls := SlackReporter.calls w;
               SlackReporter.clock_reads :=
                 S (SlackReporter.clock_reads w) |})
    with (available w).
  cbn [SlackReporter.calls SlackReporter.clock_reads].
  set (c1 := request_of this
               (TestSummaryMessage this
                  (clock (SlackReporter.clock_reads w)))).
  destruct (available w) as [f | e] eqn:Hf.
  - cbv zeta.
    destruct (f (SlackReporter.calls w) c1) as [r | e] eqn:Hr.
    + destruct (SlackReporter.ok r) eqn:Hok.
      * unfold SlackReporter.buildFailedTestsMessage.
        destruct (SlackReporter.failedTests this) as [| t ts] eqn:Hts.
        -- unfold SlackReporter.then_, SlackReporter.resolve.
           eexists; exists [c1]. split; [reflexivity |].
           split; [reflexivity |]. split.
           ++ split; [discriminate | intros [e He]; discriminate].
           ++ intros c rest Hc. injection Hc as <- <-.
              split; [reflexivity |]. split; [now left |].
              split; [intros H; now contradiction H |].
              intros [H _]. now contradiction H.
        -- unfold SlackReporter.then_ at 1 2.
           unfold SlackReporter.Date_now, SlackReporter.resolve at 1.
           cbn [SlackReporter.calls SlackReporter.clock_reads
                SlackReporter.fetchFn].
           rewrite (sendToSlack_run _ _ _ Hurl).
           cbn [SlackReporter.available SlackReporter.fetchFn
                SlackReporter.calls SlackReporter.clock_reads].
           cbv zeta. rewrite <- Hts.
           set (c2 := request_of this
                        (SlackReporter.FailedTestsMessage this
                           (clock (S (SlackReporter.clock_reads w))))).
           assert (exists o w',
                      match f (SlackReporter.calls w ++ [c1]) c2 with
                      | SlackReporter.Fulfilled r0 =>
                          if SlackReporter.ok r0
                          then (SlackReporter.Fulfilled tt,
                                {| SlackReporter.fetchFn := Some f;
                                   SlackReporter.calls :=
                                     (SlackReporter.calls w ++ [c1]) ++ [c2];
                                   SlackReporter.clock_reads :=
                                     S (S (SlackReporter.clock_reads w)) |})
                          else
                            (SlackReporter.Rejected
                               match SlackReporter.response_text r0 with
                               | SlackReporter.Fulfilled _ =>
                                   SlackReporter.Error
                                     ("Slack API error: "
                                      +++ SlackReporter.statusText r0)
                               | SlackReporter.Rejected e => e
                               end,
                             {| SlackReporter.fetchFn := Some f;
                                SlackReporter.calls :=
                                  (SlackReporter.calls w ++ [c1]) ++ [c2];
                                SlackReporter.clock_reads :=
                                  S (S (SlackReporter.clock_reads w)) |})
                      | SlackReporter.Rejected e =>
                          (SlackReporter.Rejected e,
                           {| SlackReporter.fetchFn := Some f;
                              SlackReporter.calls :=
                                (SlackReporter.calls w ++ [c1]) ++ [c2];
                              SlackReporter.clock_reads :=
                                S (S (SlackReporter.clock_reads w)) |})
                      end = (o, w') /\
                      SlackReporter.calls w'
                      = SlackReporter.calls w ++ [c1; c2])
             as (o & w' & -> & Hw').
           { destruct (f (SlackReporter.calls w ++ [c1]) c2) as [r0 | e0];
               [destruct (SlackReporter.ok r0) |];
               eexists; eexists; (split; [reflexivity |]);
               cbn [SlackReporter.calls]; now rewrite <- app_assoc. }
           exists w', [c1; c2].
           split; [now destruct o as [[] |] |].
           split; [now destruct o |]. split.
           ++ split; [discriminate | intros [e He]; discriminate].
           ++ intros c rest Hc. injection Hc as <- <-.
              split; [reflexivity |]. split; [now right |].
              split; [| discriminate].
              intros _. split; [rewrite Hts; discriminate |].
              exists f, r. repeat split; assumption.
      * unfold SlackReporter.resolve.
        eexists; exists [c1]. split; [reflexivity |].
        split; [reflexivity |]. split.
        -- split; [discriminate | intros [e He]; discriminate].
        -- intros c rest Hc. injection Hc as <- <-.
           split; [reflexivity |]. split; [now left |].
           split; [intros H; now contradiction H |].
           intros [_ (f' & r' & Hf' & Hr' & Hok')].
           injection Hf' as <-. rewrite Hr in Hr'. injection Hr' as <-.
           congruence.
    + unfold SlackReporter.resolve.
      eexists; exists [c1]. split; [reflexivity |].
      split; [reflexivity |]. split.
      * split; [discriminate | intros [e' He]; discriminate].
      * intros c rest Hc. injection Hc as <- <-.
        split; [reflexivity |]. split; [now left |].
        split; [intros H; now contradiction H |].
        intros [_ (f' & r' & Hf' & Hr' & Hok')].
        injection Hf' as <-. rewrite Hr in Hr'. discriminate.
  - unfold SlackReporter.resolve.
    eexists; exists []. split; [reflexivity |].
    split; [cbn [SlackReporter.calls]; now rewrite app_nil_r |]. split.
    + split; [intros _; now exists e | reflexivity].
    + intros c rest Hc. discriminate.
Qed.

(** What [onEnd] leaves in the reporter, and what it posts. *)
Lemma onEnd_run (this : SlackReporter.reporter)
  (result : SlackReporter.FullResult) (w : SlackReporter.world) :
  exists this' w' sent,
    onEnd this result w = (SlackReporter.Fulfilled this', w') /\
    (SlackReporter.slackWebhookUrl this' = SlackReporter.slackWebhookUrl this
     /\ SlackReporter.channel this' = SlackReporter.channel this
     /\ SlackReporter.failedTests this' = SlackReporter.failedTests this
     /\ SlackReporter.passed (SlackReporter.testStats this')
        = SlackReporter.passed (SlackReporter.testStats this)
     /\ SlackReporter.failed (SlackReporter.testStats this')
        = SlackReporter.failed (SlackReporter.testStats this)
     /\ SlackReporter.skipped (SlackReporter.testStats this')
        = SlackReporter.skipped (SlackReporter.testStats this)
     /\ SlackReporter.total (SlackReporter.testStats this')
        = SlackReporter.total (SlackReporter.testStats this)
     /\ SlackReporter.passRate (SlackReporter.testStats this')
        = SlackReporter.passRate_of (SlackReporter.testStats this)) /\
    SlackReporter.calls w' = SlackReporter.calls w ++ sent /\
    (sent = [] <->
     SlackReporter.slackWebhookUrl this = EmptyString
     \/ exists e, available w = SlackReporter.Rejected e) /\
    (forall c rest,
        sent = c :: rest ->
        (exists now, c = request_of this' (TestSummaryMessage this' now)) /\
        (rest = [] \/
         exists now,
           rest = [request_of this'
                     (SlackReporter.FailedTestsMessage this' now)]) /\
        (rest <> [] <->
         SlackReporter.failedTests this <> [] /\
         exists f r,
           available w = SlackReporter.Fulfilled f /\
           f (SlackReporter.calls w) c = SlackReporter.Fulfilled r /\
           SlackReporter.ok r = true)).
Proof.
  unfold SlackReporter.onEnd.
  assert (exists d w1,
             match SlackReporter.startTime result with
             | Some start =>
                 SlackReporter.then_ (SlackReporter.Date_now clock)
                   (fun now => SlackReporter.resolve (now - start))
             | None => SlackReporter.resolve 0
             end w = (SlackReporter.Fulfilled d, w1) /\
             SlackReporter.calls w1 = SlackReporter.calls w /\
             SlackReporter.fetchFn w1 = SlackReporter.fetchFn w)
    as (d & w1 & Hd & Hcalls & Hfetch).
  { destruct (SlackReporter.startTime result); eexists; eexists;
      (split; [reflexivity | split; reflexivity]). }
  unfold SlackReporter.then_ at 1. rewrite Hd.
  set (this' := SlackReporter.with_testStats _ _).
  assert (available w1 = available w) as Havailable
    by (unfold SlackReporter.available; now rewrite Hfetch).
  change (SlackReporter.slackWebhookUrl this')
    with (SlackReporter.slackWebhookUrl this).
  destruct (truthy (Some (SlackReporter.slackWebhookUrl this))) eqn:Hurl.
  - destruct (sendSlackNotification_run this' w1 Hurl)
      as (w' & sent & Hrun & Hsent & Hnil & Hcons).
    exists this', w', sent. unfold SlackReporter.then_. rewrite Hrun.
    split; [reflexivity |]. split; [repeat split |].
    rewrite Hsent, Hcalls, Havailable in *.
    split; [reflexivity |]. split.
    + rewrite Hnil. split; [now right |].
      intros [H | H]; [| exact H].
      rewrite H in Hurl. discriminate.
    + intros c rest Hc. destruct (Hcons c rest Hc) as (H1 & H2 & H3).
      split; [eexists; exact H1 |]. split.
      * destruct H2 as [H2 | H2]; [now left | right; eexists; exact H2].
      * exact H3.
  - exists this', w1, []. unfold SlackReporter.then_, SlackReporter.resolve.
    split; [reflexivity |]. split; [repeat split |].
    split; [now rewrite app_nil_r |]. split.
    + split; [| reflexivity]. intros _. left.
      now destruct (SlackReporter.slackWebhookUrl this).
    + intros c rest Hc. discriminate.
Qed.

(** X20.  [onEnd] never rejects, whatever the network does: what goes
    wrong is caught.  It posts at most two requests, all to the webhook of
    the reporter, by POST and as JSON.  It posts nothing exactly when the
    webhook is empty or no [fetch] function can be found.  The first
    request is the summary; the list of the failed tests follows exactly
    when tests have failed and the summary was accepted ([ok] is true). *)
Theorem onEnd_posts (this : SlackReporter.reporter)
  (result : SlackReporter.FullResult) (w : SlackReporter.world) :
  exists this' w' sent,
    onEnd this result w = (SlackReporter.Fulfilled this', w') /\
    SlackReporter.calls w' = SlackReporter.calls w ++ sent /\
    (List.length sent <= 2)%nat /\
    Forall (fun c =>
              SlackReporter.url c = SlackReporter.slackWebhookUrl this /\
              SlackReporter.method (SlackReporter.init c) = "POST" /\
              SlackReporter.headers (SlackReporter.init c)
              = [("Content-Type", "application/json")]) sent /\
    (sent = [] <->
     SlackReporter.slackWebhookUrl this = EmptyString
     \/ exists e, available w = SlackReporter.Rejected e) /\
    (forall c rest,
        sent = c :: rest ->
        (exists now, c = request_of this' (TestSummaryMessage this' now)) /\
        (rest = [] \/
         exists now,
           rest = [request_of this'
                     (SlackReporter.FailedTestsMessage this' now)]) /\
        (rest <> [] <->
         SlackReporter.failedTests this <> [] /\
         exists f r,
           available w = SlackReporter.Fulfilled f /\
           f (SlackReporter.calls w) c = SlackReporter.Fulfilled r /\
           SlackReporter.ok r = true)).
Proof.
  destruct (onEnd_run this result w)
    as (this' & w' & sent & Hrun & (Hurl & _) & Hcalls & Hnil & Hcons).
  exists this', w', sent.
  split; [exact Hrun |]. split; [exact Hcalls |].
  split; [| split; [| split; [exact Hnil | exact Hcons]]].
  - destruct sent as [| c rest]; [cbn; lia |].
    destruct (Hcons c rest eq_refl) as (_ & [-> | [now ->]] & _); cbn; lia.
  - destruct sent as [| c rest]; [constructor |].
    destruct (Hcons c rest eq_refl) as ([now ->] & Hrest & _).
    constructor; [now rewrite <- Hurl |].
    destruct Hrest as [-> | [now' ->]]; [constructor |].
    constructor; [now rewrite <- Hurl | constructor].
Qed.

(** X21.  The colour and the mark of the summary [onEnd] builds, for a
    reporter whose [total] is at most [2^53].  When no test passed (all
    failed, all were skipped, or none ran) the pass rate is 0, the summary
    is red and marked with a cross.  When every test passed, and there was
    one, the pass rate is 100: the division of the counter by itself gives
    exactly 1, and the summary is green and marked with a check. *)
Theorem summary_colour (this : SlackReporter.reporter)
  (result : SlackReporter.FullResult) (w : SlackReporter.world) :
  SlackReporter.total (SlackReporter.testStats this) <= 2 ^ 53 ->
  exists this' w',
    onEnd this result w = (SlackReporter.Fulfilled this', w') /\
    (forall now,
        SlackReporter.passed (SlackReporter.testStats this) = 0 ->
        map (fun a => (SlackReporter.color a, SlackReporter.attachment_title a))
          (SlackReporter.attachments (TestSummaryMessage this' now))
        = [("#f44336", "❌ Test Results Summary")]) /\
    (forall now,
        0 < SlackReporter.total (SlackReporter.testStats this) ->
        SlackReporter.passed (SlackReporter.testStats this)
        = SlackReporter.total (SlackReporter.testStats this) ->
        map (fun a => (SlackReporter.color a, SlackReporter.attachment_title a))
          (SlackReporter.attachments (TestSummaryMessage this' now))
        = [("#36a64f", "✅ Test Results Summary")]).
Proof.
  intros Htotal.
  destruct (onEnd_run this result w)
    as (this' & w' & sent & Hrun & Hstate & _).
  destruct Hstate as (_ & _ & _ & _ & _ & _ & _ & Hrate).
  exists this', w'. split; [exact Hrun |]. split.
  - intros now Hp. unfold SlackReporter.TestSummaryMessage.
    cbn [SlackReporter.attachments map SlackReporter.color
         SlackReporter.attachment_title].
    rewrite Hrate, (passRate_of_none _ Htotal Hp). reflexivity.
  - intros now Hpos Hp. unfold SlackReporter.TestSummaryMessage.
    cbn [SlackReporter.attachments map SlackReporter.color
         SlackReporter.attachment_title].
    rewrite Hrate, (passRate_of_all _ (conj Hpos Htotal) Hp). reflexivity.
Qed.

(** X22.  For a run of at most [2^45] tests the colour and the mark
    of the summary are decided by the exact ratio of the counters, although
    the pass rate is computed in doubles: the summary is green and marked
    with a check exactly when at least 99.5 percent of the tests passed
    ([200 * passed >= 199 * total]), yellow with a warning sign from 79.5
    percent, orange with a cross from 49.5 percent, and red with a cross
    below.  Division and multiplication round to the nearest double and
    [Math.round] rounds halves up, and none of these roundings moves a
    ratio across one of the three thresholds. *)
Theorem colour_thresholds (this : SlackReporter.reporter)
  (result : SlackReporter.FullResult) (w : SlackReporter.world) :
  0 <= SlackReporter.passed (SlackReporter.testStats this)
  <= SlackReporter.total (SlackReporter.testStats this) ->
  0 < SlackReporter.total (SlackReporter.testStats this) <= 2 ^ 45 ->
  exists this' w',
    onEnd this result w = (SlackReporter.Fulfilled this', w') /\
    forall now,
      map (fun a => (SlackReporter.color a, SlackReporter.attachment_title a))
        (SlackReporter.attachments (TestSummaryMessage this' now))
      = [colour_by_ratio
           (SlackReporter.passed (SlackReporter.testStats this))
           (SlackReporter.total (SlackReporter.testStats this))].
Proof.
  intros Hp Ht.
  destruct (onEnd_run this result w)
    as (this' & w' & sent & Hrun & Hstate & _).
  destruct Hstate as (_ & _ & _ & _ & _ & _ & _ & Hrate).
  exists this', w'. split; [exact Hrun |]. intros now.
  unfold SlackReporter.TestSummaryMessage.
  cbn [SlackReporter.attachments map SlackReporter.color
       SlackReporter.attachment_title].
  rewrite Hrate. clear Hrate Hrun.
  set (p := SlackReporter.passed (SlackReporter.testStats this)) in *.
  set (t := SlackReporter.total (SlackReporter.testStats this)) in *.
  unfold colour_by_ratio.
  destruct (Z.eq_dec p 0) as [Hzero | Hpos].
  - rewrite (passRate_of_none (SlackReporter.testStats this))
      by (fold t; fold p; lia).
    fold p. rewrite Hzero.
    destruct (Z.leb_spec (199 * t) (200 * 0)); [lia |].
    destruct (Z.leb_spec (159 * t) (200 * 0)); [lia |].
    destruct (Z.leb_spec (99 * t) (200 * 0)); [lia |].
    reflexivity.
  - rewrite (passRate_of_percent (SlackReporter.testStats this))
      by (fold t; fold p; lia).
    fold p; fold t.
    destruct (percent_thresholds p t ltac:(lia) ltac:(lia))
      as (Hn & H100 & H80 & H50).
    pose proof (colour_of_percent _ Hn) as Hc. cbv zeta in Hc.
    destruct Hc as [-> ->].
    set (n := percent_of (rate p t)) in *.
    destruct (Z.leb_spec (199 * t) (200 * p));
      destruct (Z.leb_spec (159 * t) (200 * p));
      destruct (Z.leb_spec (99 * t) (200 * p));
      destruct (Z.eqb_spec n 100); destruct (Z.leb_spec 80 n);
      destruct (Z.leb_spec 50 n); try reflexivity; lia.
Qed.

End Requests.

Lemma run_counts_witness :
  SlackReporter.total
    (SlackReporter.testStats
       (SlackReporter.after_results
          (SlackReporter.new_reporter SlackReporter.env_example)
          [ SlackReporter.test_with "lists breeds" "passed";
            SlackReporter.test_with "votes" "failed";
            SlackReporter.test_with "uploads" "timedOut" ]))
  = 3 /\
  map SlackReporter.name
    (SlackReporter.failedTests
       (SlackReporter.after_results
          (SlackReporter.new_reporter SlackReporter.env_example)
          [ SlackReporter.test_with "lists breeds" "passed";
            SlackReporter.test_with "votes" "failed";
            SlackReporter.test_with "uploads" "timedOut" ]))
  = ["votes"] /\
  SlackReporter.passed
    (SlackReporter.testStats
       (SlackReporter.after_results
          (SlackReporter.new_reporter SlackReporter.env_example)
          [ SlackReporter.test_with "lists breeds" "passed";
            SlackReporter.test_with "votes" "failed";
            SlackReporter.test_with "uploads" "timedOut" ]))
  + SlackReporter.failed
      (SlackReporter.testStats
         (SlackReporter.after_results
            (SlackReporter.new_reporter SlackReporter.env_example)
            [ SlackReporter.test_with "lists breeds" "passed";
              SlackReporter.test_with "votes" "failed";
              SlackReporter.test_with "uploads" "timedOut" ]))
  + SlackReporter.skipped
      (SlackReporter.testStats
         (SlackReporter.after_results
            (SlackReporter.new_reporter SlackReporter.env_example)
            [ SlackReporter.test_with "lists breeds" "passed";
              SlackReporter.test_with "votes" "failed";
              SlackReporter.test_with "uploads" "timedOut" ]))
  <= 3.
Proof.
  assert (Z.of_nat
            (List.length
               [ SlackReporter.test_with "lists breeds" "passed";
                 SlackReporter.test_with "votes" "failed";
                 SlackReporter.test_with "uploads" "timedOut" ])
          <= 2 ^ 53) as Hlen by (cbn; lia).
  destruct (run_counts SlackReporter.env_example _ Hlen)
    as (Ht & _ & _ & _ & Hnames & _ & Hle & _).
  split; [exact Ht |]. split; [exact Hnames |].
  rewrite Ht in Hle. exact Hle.
Defined.

Lemma summary_colour_witness :
  exists this' w',
    SlackReporter.onEnd (Some SlackReporter.fetch_accepting)
      (SlackReporter.Rejected (SlackReporter.Failure "no module"))
      SlackReporter.clock_example SlackReporter.toString_unused
      SlackReporter.stringify_titles
      (SlackReporter.after_results
         (SlackReporter.new_reporter SlackReporter.env_example)
         [ SlackReporter.test_with "lists breeds" "passed";
           SlackReporter.test_with "votes" "passed" ])
      {| SlackReporter.startTime := Some 1699999990000 |}
      SlackReporter.initial_world
    = (SlackReporter.Fulfilled this', w') /\
    map (fun a => (SlackReporter.color a, SlackReporter.attachment_title a))
      (SlackReporter.attachments
         (SlackReporter.TestSummaryMessage SlackReporter.toString_unused
            this' 1700000001000))
    = [("#36a64f", "✅ Test Results Summary")].
Proof.
  destruct (summary_colour (Some SlackReporter.fetch_accepting)
              (SlackReporter.Rejected (SlackReporter.Failure "no module"))
              SlackReporter.clock_example SlackReporter.toString_unused
              SlackReporter.stringify_titles
              (SlackReporter.after_results
                 (SlackReporter.new_reporter SlackReporter.env_example)
                 [ SlackReporter.test_with "lists breeds" "passed";
                   SlackReporter.test_with "votes" "passed" ])
              {| SlackReporter.startTime := Some 1699999990000 |}
              SlackReporter.initial_world)
    as (this' & w' & Hrun & _ & Hgreen).
  - cbn. lia.
  - exists this', w'. split; [exact Hrun |].
    apply Hgreen; [cbn; lia | reflexivity].
Defined.

(** With a webhook, a network that accepts every message and one failed
    test, [onEnd] posts the summary and then the failed tests. *)
Lemma onEnd_posts_both :
  map SlackReporter.body
    (map SlackReporter.init
       (SlackReporter.calls
          (snd (SlackReporter.onEnd (Some SlackReporter.fetch_accepting)
                  (SlackReporter.Rejected (SlackReporter.Failure "no module"))
                  SlackReporter.clock_example SlackReporter.toString_unused
                  SlackReporter.stringify_titles
                  (SlackReporter.after_results
                     (SlackReporter.new_reporter SlackReporter.env_example)
                     [ SlackReporter.test_with "lists breeds" "passed";
                       SlackReporter.test_with "votes" "failed" ])
                  {| SlackReporter.startTime := Some 1699999990000 |}
                  SlackReporter.initial_world))))
  = ["❌ Test Results Summary"; "❌ Failed Tests (1)"].
Proof. vm_compute. reflexivity. Qed.

(** With a network that refuses the summary, the failed tests are not
    posted, and [onEnd] still resolves. *)
Lemma onEnd_refused :
  exists this',
    SlackReporter.onEnd (Some SlackReporter.fetch_refusing)
      (SlackReporter.Rejected (SlackReporter.Failure "no module"))
      SlackReporter.clock_example SlackReporter.toString_unused
      SlackReporter.stringify_titles
      (SlackReporter.after_results
         (SlackReporter.new_reporter SlackReporter.env_example)
         [ SlackReporter.test_with "lists breeds" "passed";
           SlackReporter.test_with "votes" "failed" ])
      {| SlackReporter.startTime := Some 1699999990000 |}
      SlackReporter.initial_world
    = (SlackReporter.Fulfilled this',
       {| SlackReporter.fetchFn := Some SlackReporter.fetch_refusing;
          SlackReporter.calls :=
            [ {| SlackReporter.url :=
                   "https://hooks.slack.com/services/T0/B0/X0";
                 SlackReporter.init :=
                   {| SlackReporter.method := "POST";
                      SlackReporter.headers :=
                        [("Content-Type", "application/json")];
                      SlackReporter.body := "❌ Test Results Summary" |} |} ];
          SlackReporter.clock_reads := 2 |}).
Proof. eexists. vm_compute. reflexivity. Qed.

Lemma colour_thresholds_witness :
  exists this' w',
    SlackReporter.onEnd (Some SlackReporter.fetch_accepting)
      (SlackReporter.Rejected (SlackReporter.Failure "no module"))
      SlackReporter.clock_example SlackReporter.toString_unused
      SlackReporter.stringify_titles
      (SlackReporter.after_results
         (SlackReporter.new_reporter SlackReporter.env_example)
         [ SlackReporter.test_with "lists breeds" "passed";
           SlackReporter.test_with "votes" "passed";
           SlackReporter.test_with "favourites" "passed";
           SlackReporter.test_with "uploads" "passed";
           SlackReporter.test_with "deletes" "failed" ])
      {| SlackReporter.startTime := Some 1699999990000 |}
      SlackReporter.initial_world
    = (SlackReporter.Fulfilled this', w') /\
    map (fun a => (SlackReporter.color a, SlackReporter.attachment_title a))
      (SlackReporter.attachments
         (SlackReporter.TestSummaryMessage SlackReporter.toString_unused
            this' 1700000001000))
    = [("#ffc107", "⚠️ Test Results Summary")].
Proof.
  destruct (colour_thresholds (Some SlackReporter.fetch_accepting)
              (SlackReporter.Rejected (SlackReporter.Failure "no module"))
              SlackReporter.clock_example SlackReporter.toString_unused
              SlackReporter.stringify_titles
              (SlackReporter.after_results
                 (SlackReporter.new_reporter SlackReporter.env_example)
                 [ SlackReporter.test_with "lists breeds" "passed";
                   SlackReporter.test_with "votes" "passed";
                   SlackReporter.test_with "favourites" "passed";
                   SlackReporter.test_with "uploads" "passed";
                   SlackReporter.test_with "deletes" "failed" ])
              {| SlackReporter.startTime := Some 1699999990000 |}
              SlackReporter.initial_world)
    as (this' & w' & Hrun & Hcolour).
  - cbn. lia.
  - cbn. lia.
  - exists this', w'. split; [exact Hrun |]. apply Hcolour.
Defined.

End SlackReporterFacts.
